(** * Heap files: a shallow embedding of heapfile.C

    The heap-file layer (HeapFile, HeapFileScan, InsertFileScan) is
    translated function by function from [heapfile.C].  The page class and
    the buffer manager it calls are not part of that file; they are modelled
    from the interface contracts of the specification and marked as such. *)

From Stdlib Require Import ZArith Lia Bool Sorted.
From stdpp Require Import base option list gmap.

Local Open Scope Z_scope.

(** ** Status codes, enumerations, record identifiers *)

Inductive Status : Set :=
  | OK | FILEEOF | BADSCANPARM | INVALIDRECLEN | NOSPACE | NORECORDS
  | ENDOFPAGE | INVALIDSLOTNO | BADPAGENO | PAGENOTPINNED.

#[global] Instance Status_eq_dec : EqDecision Status.
Proof. solve_decision. Defined.

(** [enum Datatype] and [enum Operator].  A C enum object can hold a value
    that is none of its enumerators (after a cast); the last constructor of
    each type stands for such a value, which is what the validity test of
    [startScan] examines. *)
Inductive Datatype : Set := STRING | INTEGER | FLOAT | TypeOther (raw : Z).
Inductive Operator : Set := LT | LTE | EQ | GTE | GT | NE | OpOther (raw : Z).

#[global] Instance Datatype_eq_dec : EqDecision Datatype.
Proof. solve_decision. Defined.
#[global] Instance Operator_eq_dec : EqDecision Operator.
Proof. solve_decision. Defined.

Record RID : Set := mkRID { pageNo : Z; slotNo : Z }.

#[global] Instance RID_eq_dec : EqDecision RID.
Proof. solve_decision. Defined.

(** Modelled from the spec: the sentinel RID of page.h, "both fields
    invalid, e.g. -1". *)
Definition NULLRID : RID := mkRID (-1) (-1).

(** [struct Record { void* data; int length; }]: the bytes behind [data]
    (each a value 0..255) and the length field. *)
Record Rec : Set := mkRec { rec_data : list Z; rec_length : Z }.

(** The value of an uninitialised local [Record rec]. *)
Definition rawRec : Rec := mkRec [] 0.

(** Two's-complement wrap-around of a 32-bit [int]. *)
Definition wrap32 (z : Z) : Z := (z + 2 ^ 31) mod 2 ^ 32 - 2 ^ 31.

(** [sizeof(int)] and [sizeof(float)] on the platforms the code is built
    for. *)
Definition sizeof_int : Z := 4.
Definition sizeof_float : Z := 4.

(** ** The slotted page (page.C is not part of the sources) *)

(** Modelled from the spec: a data page "holds zero or more slotted
    records ... and maintains one outgoing link field (nextPage, terminator
    value = -1)".  A slot is [Some r] while it holds a record and [None]
    once the record is deleted; slot numbers are positions in [slots]. *)
Record Page : Set := mkPage { pageId : Z; nextPage : Z; slots : list (option Rec) }.

(** Modelled from the spec: the image a newly allocated frame holds before
    [init] is called on it. *)
Definition rawPage : Page := mkPage 0 0 [].

(** Modelled from the spec: [initialize(pageId)], an empty page that knows
    its own number; the link starts as the terminator. *)
Definition Page_init (pageNo_ : Z) (_ : Page) : Page := mkPage pageNo_ (-1) [].

(** Modelled from the spec: [setNextPageLink] and [nextPageLink]. *)
Definition Page_setNextPage (pageNo_ : Z) (pg : Page) : Status * Page :=
  (OK, mkPage (pageId pg) pageNo_ (slots pg)).

Definition Page_getNextPage (pg : Page) : Status * Z := (OK, nextPage pg).

(** Slot numbers of the live records, in slot order, counting from [i]. *)
Fixpoint live_from (i : Z) (sl : list (option Rec)) : list Z :=
  match sl with
  | [] => []
  | Some _ :: t => i :: live_from (i + 1) t
  | None :: t => live_from (i + 1) t
  end.

Definition live (pg : Page) : list Z := live_from 0 (slots pg).

(** Bytes of payload the live records of a page occupy. *)
Fixpoint used (sl : list (option Rec)) : Z :=
  match sl with
  | [] => 0
  | Some r :: t => rec_length r + used t
  | None :: t => used t
  end.

(** Modelled from the spec: [firstSlot() -> slotId | Empty].  The RID
    argument is the C++ reference parameter; it keeps its value on
    failure. *)
Definition Page_firstRecord (firstRid : RID) (pg : Page) : Status * RID :=
  match live pg with
  | [] => (NORECORDS, firstRid)
  | j :: _ => (OK, mkRID (pageId pg) j)
  end.

(** Modelled from the spec: [nextSlot(afterSlotId) -> slotId | EndOfPage]:
    the first live slot whose number is greater than that of [curRid]. *)
Definition Page_nextRecord (curRid nextRid : RID) (pg : Page) : Status * RID :=
  match filter (λ j, slotNo curRid < j) (live pg) with
  | [] => (ENDOFPAGE, nextRid)
  | j :: _ => (OK, mkRID (pageId pg) j)
  end.

(** The record in slot [n], when the slot number is valid and the slot is
    occupied. *)
Definition slot_at (n : Z) (pg : Page) : option Rec :=
  if 0 <=? n then mjoin (slots pg !! Z.to_nat n) else None.

(** Modelled from the spec: [getSlot(slotId) -> bytes | NotFound]. *)
Definition Page_getRecord (rid : RID) (rec : Rec) (pg : Page) : Status * Rec :=
  match slot_at (slotNo rid) pg with
  | Some r => (OK, r)
  | None => (INVALIDSLOTNO, rec)
  end.

(** Modelled from the spec: [deleteSlot(slotId) -> ok | NotFound]. *)
Definition Page_deleteRecord (rid : RID) (pg : Page) : Status * Page :=
  match slot_at (slotNo rid) pg with
  | Some _ =>
      (OK, mkPage (pageId pg) (nextPage pg) (<[Z.to_nat (slotNo rid) := None]> (slots pg)))
  | None => (INVALIDSLOTNO, pg)
  end.

(** Modelled from the spec: [insertSlot(bytes) -> slotId | NoSpace].  A page
    holds at most [cap] bytes of payload ("page size minus fixed
    page-header overhead").  The specification does not say which slot the
    page picks.  Here the record goes into a new slot behind the existing
    ones, which on a page without freed slots is the only place a slot can
    be; what is proved about the order of the RIDs after an insert is
    stated for such pages. *)
Definition Page_insertRecord (cap : Z) (rec : Rec) (rid : RID) (pg : Page)
  : Status * RID * Page :=
  if used (slots pg) + rec_length rec <=? cap
  then (OK, mkRID (pageId pg) (Z.of_nat (length (slots pg))),
        mkPage (pageId pg) (nextPage pg) (slots pg ++ [Some rec]))
  else (NOSPACE, rid, pg).

(** ** The buffer manager (buf.C is not part of the sources) *)

(** What a call to the buffer manager did, in call order. *)
Inductive BufEvent : Set :=
  | EvRead (p : Z) (ok : bool)
  | EvUnPin (p : Z) (dirty ok : bool)
  | EvAlloc (p : Z).

#[global] Instance BufEvent_eq_dec : EqDecision BufEvent.
Proof. solve_decision. Defined.

(** Modelled from the spec: the buffer pool "supplies pinned, in-memory
    page images by page identifier; tracks dirty state on unpin".  [pages]
    are the images of the data pages of the one open file, [hdrPageNo] is
    the number of its header page ([File::getFirstPage]), [pinCnt] the pin
    count of each page, [numPages] the number [allocPage] hands out next,
    [trace] the calls made so far, oldest first. *)
Record BufMgr : Type := mkBufMgr {
  hdrPageNo : Z;
  pages : gmap Z Page;
  pinCnt : gmap Z nat;
  numPages : Z;
  trace : list BufEvent }.

Definition pins (p : Z) (bm : BufMgr) : nat := default 0%nat (pinCnt bm !! p).

Definition page_exists (p : Z) (bm : BufMgr) : bool :=
  bool_decide (p = hdrPageNo bm) || bool_decide (is_Some (pages bm !! p)).

(** Modelled from the spec: [pin(handle, pageId) -> pageImage], failing when
    the file has no such page.  [page] is the C++ reference parameter: a
    pointer to the frame, written here as the number of the page the frame
    holds; it is assigned only on success. *)
Definition readPage (PageNo : Z) (page : option Z) (bm : BufMgr)
  : Status * option Z * BufMgr :=
  if page_exists PageNo bm
  then (OK, Some PageNo,
        mkBufMgr (hdrPageNo bm) (pages bm)
                 (<[PageNo := S (pins PageNo bm)]> (pinCnt bm))
                 (numPages bm) (trace bm ++ [EvRead PageNo true]))
  else (BADPAGENO, page,
        mkBufMgr (hdrPageNo bm) (pages bm) (pinCnt bm) (numPages bm)
                 (trace bm ++ [EvRead PageNo false])).

(** Modelled from the spec: [unpin(handle, pageId, dirty) -> ok | error];
    unpinning a page that is not pinned is the error. *)
Definition unPinPage (PageNo : Z) (dirty : bool) (bm : BufMgr) : Status * BufMgr :=
  match pins PageNo bm with
  | O => (PAGENOTPINNED,
          mkBufMgr (hdrPageNo bm) (pages bm) (pinCnt bm) (numPages bm)
                   (trace bm ++ [EvUnPin PageNo dirty false]))
  | S n => (OK,
          mkBufMgr (hdrPageNo bm) (pages bm) (<[PageNo := n]> (pinCnt bm))
                   (numPages bm) (trace bm ++ [EvUnPin PageNo dirty true]))
  end.

(** Modelled from the spec: [allocate(handle) -> (pageId, pageImage)]: a new
    page of the file, pinned once.  The contract names no failure, and the
    allocation of the model is always granted: what is proved of the
    overflow path of [insertRecord] is proved for a granted allocation. *)
Definition allocPage (bm : BufMgr) : Status * Z * option Z * BufMgr :=
  let n := numPages bm in
  (OK, n, Some n,
   mkBufMgr (hdrPageNo bm) (<[n := rawPage]> (pages bm))
            (<[n := 1%nat]> (pinCnt bm)) (n + 1) (trace bm ++ [EvAlloc n])).

(** A write through a page pointer changes the image in the pool. *)
Definition store (p : Z) (pg : Page) (bm : BufMgr) : BufMgr :=
  mkBufMgr (hdrPageNo bm) (<[p := pg]> (pages bm)) (pinCnt bm) (numPages bm) (trace bm).

(** ** The header page and the state of an open heap file *)

Record FileHdrPage : Set := mkHdr {
  firstPage : Z;
  lastPage : Z;
  pageCnt : Z;
  recCnt : Z }.

(** The members of a HeapFile / HeapFileScan / InsertFileScan object
    together with what its pointers reach: the buffer manager [bufMgr] and
    the header frame [headerPage].  [curPage] is the pointer to the frame of
    the current data page, [None] for NULL, [Some p] for the frame that was
    handed out for page [p]. *)
Record State : Type := mkState {
  bufMgr : BufMgr;
  headerPage : FileHdrPage;
  headerPageNo : Z;
  hdrDirtyFlag : bool;
  curPage : option Z;
  curPageNo : Z;
  curDirtyFlag : bool;
  curRec : RID;
  sc_offset : Z;
  sc_length : Z;
  sc_type : Datatype;
  sc_filter : option (list Z);
  sc_op : Operator;
  markedPageNo : Z;
  markedRec : RID }.

Definition set_bufMgr (v : BufMgr) (s : State) : State :=
  mkState v (headerPage s) (headerPageNo s) (hdrDirtyFlag s) (curPage s) (curPageNo s)
    (curDirtyFlag s) (curRec s) (sc_offset s) (sc_length s) (sc_type s) (sc_filter s)
    (sc_op s) (markedPageNo s) (markedRec s).
Definition set_headerPage (v : FileHdrPage) (s : State) : State :=
  mkState (bufMgr s) v (headerPageNo s) (hdrDirtyFlag s) (curPage s) (curPageNo s)
    (curDirtyFlag s) (curRec s) (sc_offset s) (sc_length s) (sc_type s) (sc_filter s)
    (sc_op s) (markedPageNo s) (markedRec s).
Definition set_headerPageNo (v : Z) (s : State) : State :=
  mkState (bufMgr s) (headerPage s) v (hdrDirtyFlag s) (curPage s) (curPageNo s)
    (curDirtyFlag s) (curRec s) (sc_offset s) (sc_length s) (sc_type s) (sc_filter s)
    (sc_op s) (markedPageNo s) (markedRec s).
Definition set_hdrDirtyFlag (v : bool) (s : State) : State :=
  mkState (bufMgr s) (headerPage s) (headerPageNo s) v (curPage s) (curPageNo s)
    (curDirtyFlag s) (curRec s) (sc_offset s) (sc_length s) (sc_type s) (sc_filter s)
    (sc_op s) (markedPageNo s) (markedRec s).
Definition set_curPage (v : option Z) (s : State) : State :=
  mkState (bufMgr s) (headerPage s) (headerPageNo s) (hdrDirtyFlag s) v (curPageNo s)
    (curDirtyFlag s) (curRec s) (sc_offset s) (sc_length s) (sc_type s) (sc_filter s)
    (sc_op s) (markedPageNo s) (markedRec s).
Definition set_curPageNo (v : Z) (s : State) : State :=
  mkState (bufMgr s) (headerPage s) (headerPageNo s) (hdrDirtyFlag s) (curPage s) v
    (curDirtyFlag s) (curRec s) (sc_offset s) (sc_length s) (sc_type s) (sc_filter s)
    (sc_op s) (markedPageNo s) (markedRec s).
Definition set_curDirtyFlag (v : bool) (s : State) : State :=
  mkState (bufMgr s) (headerPage s) (headerPageNo s) (hdrDirtyFlag s) (curPage s)
    (curPageNo s) v (curRec s) (sc_offset s) (sc_length s) (sc_type s) (sc_filter s)
    (sc_op s) (markedPageNo s) (markedRec s).
Definition set_curRec (v : RID) (s : State) : State :=
  mkState (bufMgr s) (headerPage s) (headerPageNo s) (hdrDirtyFlag s) (curPage s)
    (curPageNo s) (curDirtyFlag s) v (sc_offset s) (sc_length s) (sc_type s) (sc_filter s)
    (sc_op s) (markedPageNo s) (markedRec s).
Definition set_filter (v : option (list Z)) (s : State) : State :=
  mkState (bufMgr s) (headerPage s) (headerPageNo s) (hdrDirtyFlag s) (curPage s)
    (curPageNo s) (curDirtyFlag s) (curRec s) (sc_offset s) (sc_length s) (sc_type s) v
    (sc_op s) (markedPageNo s) (markedRec s).
Definition set_scan (o l : Z) (t : Datatype) (f : option (list Z)) (c : Operator)
    (s : State) : State :=
  mkState (bufMgr s) (headerPage s) (headerPageNo s) (hdrDirtyFlag s) (curPage s)
    (curPageNo s) (curDirtyFlag s) (curRec s) o l t f c (markedPageNo s) (markedRec s).
Definition set_mark (p : Z) (r : RID) (s : State) : State :=
  mkState (bufMgr s) (headerPage s) (headerPageNo s) (hdrDirtyFlag s) (curPage s)
    (curPageNo s) (curDirtyFlag s) (curRec s) (sc_offset s) (sc_length s) (sc_type s)
    (sc_filter s) (sc_op s) p r.

(** Outcome of a member function: it returns, or it dereferences a page
    pointer that is NULL (or the frame of no data page), or (for the scan
    loop) the iteration bound of the model ran out. *)
Inductive result (A : Type) : Type :=
  | Val (a : A)
  | NullDeref
  | OutOfFuel.
Arguments Val {A} a.
Arguments NullDeref {A}.
Arguments OutOfFuel {A}.

(** [*curPage]: the image the current-page pointer reaches. *)
Definition deref (s : State) : option Page :=
  match curPage s with
  | Some p => pages (bufMgr s) !! p
  | None => None
  end.

(** ** HeapFile *)

(** [HeapFile::HeapFile], for a file that opens.  [raw] is the state before
    the constructor runs: the buffer manager, the header image of the file,
    and whatever the uninitialised members of the object hold. *)
Definition HeapFile_ctor (raw : State) : Status * State :=
  let s := set_headerPageNo (hdrPageNo (bufMgr raw)) raw in
  let '(status, _, bm) := readPage (headerPageNo s) (Some (headerPageNo s)) (bufMgr s) in
  let s := set_bufMgr bm s in
  match status with
  | OK =>
      let s := set_hdrDirtyFlag false s in
      let s := set_curPageNo (firstPage (headerPage s)) s in
      let '(status, page, bm) := readPage (curPageNo s) (curPage s) (bufMgr s) in
      let s := set_curPage page (set_bufMgr bm s) in
      match status with
      | OK => (OK, set_curRec NULLRID (set_curDirtyFlag false s))
      | _ =>
          let '(_, bm) := unPinPage (headerPageNo s) (hdrDirtyFlag s) (bufMgr s) in
          (status, set_bufMgr bm s)
      end
  | _ => (status, s)
  end.

(** [HeapFile::~HeapFile]. *)
Definition HeapFile_dtor (s : State) : State :=
  let s :=
    match curPage s with
    | Some _ =>
        let '(_, bm) := unPinPage (curPageNo s) (curDirtyFlag s) (bufMgr s) in
        set_curDirtyFlag false (set_curPageNo 0 (set_curPage None (set_bufMgr bm s)))
    | None => s
    end in
  let '(_, bm) := unPinPage (headerPageNo s) (hdrDirtyFlag s) (bufMgr s) in
  set_bufMgr bm s.

Definition getRecCnt (s : State) : Z := recCnt (headerPage s).

(** [HeapFile::getRecord(rid, rec)]. *)
Definition HeapFile_getRecord (rid : RID) (rec : Rec) (s : State)
  : result (Status * Rec * State) :=
  let fetch (s : State) : result (Status * Rec * State) :=
    match deref s with
    | None => NullDeref
    | Some pg =>
        let '(status, rec) := Page_getRecord rid rec pg in
        match status with
        | OK => Val (OK, rec, set_curRec rid s)
        | _ => Val (status, rec, s)
        end
    end in
  if bool_decide (curPageNo s ≠ pageNo rid) then
    let '(status, s) :=
      match curPage s with
      | Some _ =>
          let '(status, bm) := unPinPage (curPageNo s) (curDirtyFlag s) (bufMgr s) in
          (status, set_bufMgr bm s)
      | None => (OK, s)
      end in
    match status with
    | OK =>
        let '(status, page, bm) := readPage (pageNo rid) (curPage s) (bufMgr s) in
        let s := set_curPage page (set_bufMgr bm s) in
        match status with
        | OK => fetch (set_curDirtyFlag false (set_curPageNo (pageNo rid) s))
        | _ => Val (status, rec, s)
        end
    | _ => Val (status, rec, set_curDirtyFlag false (set_curPageNo 0 (set_curPage None s)))
    end
  else fetch s.

(** ** HeapFileScan *)

(** [HeapFileScan::HeapFileScan]. *)
Definition HeapFileScan_ctor (raw : State) : Status * State :=
  let '(status, s) := HeapFile_ctor raw in
  (status, set_filter None s).

(** The parameter test of [startScan], with the grouping the C++ operators
    give it. *)
Definition bad_scan_parm (offset_ length_ : Z) (type_ : Datatype) (op_ : Operator) : bool :=
  ((offset_ <? 0) || (length_ <? 1))
  || (bool_decide (type_ ≠ STRING) && bool_decide (type_ ≠ INTEGER)
      && bool_decide (type_ ≠ FLOAT))
  || ((bool_decide (type_ = INTEGER) && negb (length_ =? sizeof_int))
      || (bool_decide (type_ = FLOAT) && negb (length_ =? sizeof_float)))
  || (bool_decide (op_ ≠ LT) && bool_decide (op_ ≠ LTE) && bool_decide (op_ ≠ EQ)
      && bool_decide (op_ ≠ GTE) && bool_decide (op_ ≠ GT) && bool_decide (op_ ≠ NE)).

(** [HeapFileScan::startScan]; [filter_] is [None] for a null pointer. *)
Definition startScan (offset_ length_ : Z) (type_ : Datatype)
    (filter_ : option (list Z)) (op_ : Operator) (s : State) : Status * State :=
  match filter_ with
  | None => (OK, set_filter None s)
  | Some _ =>
      if bad_scan_parm offset_ length_ type_ op_ then (BADSCANPARM, s)
      else (OK, set_scan offset_ length_ type_ filter_ op_ s)
  end.

(** [HeapFileScan::endScan]. *)
Definition endScan (s : State) : Status * State :=
  match curPage s with
  | Some _ =>
      let '(status, bm) := unPinPage (curPageNo s) (curDirtyFlag s) (bufMgr s) in
      (status, set_curDirtyFlag false (set_curPageNo 0 (set_curPage None (set_bufMgr bm s))))
  | None => (OK, s)
  end.

(** [HeapFileScan::~HeapFileScan] followed by the base-class destructor. *)
Definition HeapFileScan_dtor (s : State) : State :=
  HeapFile_dtor (snd (endScan s)).

(** [HeapFileScan::markScan]. *)
Definition markScan (s : State) : Status * State :=
  (OK, set_mark (curPageNo s) (curRec s) s).

(** [HeapFileScan::resetScan]. *)
Definition resetScan (s : State) : Status * State :=
  if bool_decide (markedPageNo s ≠ curPageNo s) then
    let '(status, s) :=
      match curPage s with
      | Some _ =>
          let '(status, bm) := unPinPage (curPageNo s) (curDirtyFlag s) (bufMgr s) in
          (status, set_bufMgr bm s)
      | None => (OK, s)
      end in
    match status with
    | OK =>
        let s := set_curRec (markedRec s) (set_curPageNo (markedPageNo s) s) in
        let '(status, page, bm) := readPage (curPageNo s) (curPage s) (bufMgr s) in
        let s := set_curPage page (set_bufMgr bm s) in
        match status with
        | OK => (OK, set_curDirtyFlag false s)
        | _ => (status, s)
        end
    | _ => (status, s)
    end
  else (OK, set_curRec (markedRec s) s).

(** *** Predicate evaluation *)

(** How the [float] variable [diff] of [matchRec] compares with 0.0: this
    is all the operator switch looks at. *)
Inductive fclass : Set := FNeg | FZero | FPos | FNaN.

(** Conversion of an [int] to [float]: the sign survives the rounding. *)
Definition float_of_int (z : Z) : fclass :=
  if z <? 0 then FNeg else if z =? 0 then FZero else FPos.

(** The byte at position [i] of a buffer, as an unsigned char.  Positions
    past the end of the list read as 0. *)
Definition byte_at (buf : list Z) (i : Z) : Z :=
  if 0 <=? i then (default 0 (buf !! Z.to_nat i)) mod 256 else 0.

(** [memcpy(&w, buf + off, 4)] on a little-endian machine, as an unsigned
    32-bit word. *)
Definition load_word (buf : list Z) (off : Z) : Z :=
  byte_at buf off + 2 ^ 8 * byte_at buf (off + 1)
  + 2 ^ 16 * byte_at buf (off + 2) + 2 ^ 24 * byte_at buf (off + 3).

(** The same four bytes read as a two's-complement [int]. *)
Definition load_int (buf : list Z) (off : Z) : Z := wrap32 (load_word buf off).

(** An IEEE-754 binary32 value: not-a-number, an infinity, or a finite
    number given as the integer [v * 2^149]. *)
Inductive f32 : Set := F32NaN | F32Inf (neg : bool) | F32Fin (scaled : Z).

Definition decode_f32 (w : Z) : f32 :=
  let neg := Z.testbit w 31 in
  let e := Z.land (Z.shiftr w 23) 255 in
  let m := Z.land w (2 ^ 23 - 1) in
  if e =? 255 then (if m =? 0 then F32Inf neg else F32NaN)
  else
    let mag := if e =? 0 then m else Z.shiftl (m + 2 ^ 23) (e - 1) in
    F32Fin (if neg then - mag else mag).

Definition load_float (buf : list Z) (off : Z) : f32 := decode_f32 (load_word buf off).

(** [a - b] in binary32 arithmetic, as far as its comparison with 0.0
    goes: the rounded difference of two finite numbers is zero only when
    they are equal, and keeps the sign of the exact difference. *)
Definition fsub (a b : f32) : fclass :=
  match a, b with
  | F32NaN, _ | _, F32NaN => FNaN
  | F32Inf n, F32Inf n' => if eqb n n' then FNaN else if n then FNeg else FPos
  | F32Inf n, F32Fin _ => if n then FNeg else FPos
  | F32Fin _, F32Inf n => if n then FPos else FNeg
  | F32Fin x, F32Fin y => float_of_int (x - y)
  end.

(** [strncmp(s1, s2, n)]: bytes compare as unsigned chars, the comparison
    stops after a NUL. *)
Fixpoint strncmp (s1 s2 : list Z) (n : nat) : Z :=
  match n with
  | O => 0
  | S n' =>
      let c1 := byte_at s1 0 in
      let c2 := byte_at s2 0 in
      if negb (c1 =? c2) then c1 - c2
      else if c1 =? 0 then 0
      else strncmp (tail s1) (tail s2) n'
  end.

(** The operator switch of [matchRec]. *)
Definition apply_op (op : Operator) (diff : fclass) : bool :=
  match op, diff with
  | LT, FNeg => true
  | LTE, (FNeg | FZero) => true
  | EQ, FZero => true
  | GTE, (FPos | FZero) => true
  | GT, FPos => true
  | NE, (FNeg | FPos | FNaN) => true
  | _, _ => false
  end.

(** [HeapFileScan::matchRec].  The sum [offset + length] wraps around as
    the [int] addition does on the machines the code is built for, the
    integer difference likewise, and bytes behind the end of a list read
    as 0.  Where the C code would read outside the record (the stored
    offset and length are not as [matchRec_in_bounds], below, asks) the
    program has no defined value and this one says nothing about it. *)
Definition matchRec (rec : Rec) (s : State) : bool :=
  match sc_filter s with
  | None => true
  | Some flt =>
      if wrap32 (sc_offset s + sc_length s) >? rec_length rec then false
      else
        let diff :=
          match sc_type s with
          | INTEGER =>
              float_of_int
                (wrap32 (load_int (rec_data rec) (sc_offset s) - load_int flt 0))
          | FLOAT =>
              fsub (load_float (rec_data rec) (sc_offset s)) (load_float flt 0)
          | STRING =>
              float_of_int
                (strncmp (drop (Z.to_nat (sc_offset s)) (rec_data rec)) flt
                         (Z.to_nat (sc_length s)))
          | TypeOther _ => FZero
          end in
        apply_op (sc_op s) diff
  end.

(** *** scanNext *)

(** The step the source repeats three times: fetch the record [curRec]
    names, return early on a failed fetch or a match ([Some]), or go on
    ([None]). *)
Definition examine (outRid : RID) (s : State) : result (option (Status * RID * State)) :=
  match deref s with
  | None => NullDeref
  | Some pg =>
      let '(status, rec) := Page_getRecord (curRec s) rawRec pg in
      match status with
      | OK => if matchRec rec s then Val (Some (OK, curRec s, s)) else Val None
      | _ => Val (Some (status, outRid, s))
      end
  end.

(** The [while (true)] loop of [scanNext]; [fuel] bounds the number of
    iterations. *)
Fixpoint scanNext_loop (fuel : nat) (outRid : RID) (s : State)
  : result (Status * RID * State) :=
  match fuel with
  | O => OutOfFuel
  | S fuel' =>
      match deref s with
      | None => NullDeref
      | Some pg =>
          let '(status, nextRid) := Page_nextRecord (curRec s) NULLRID pg in
          match status with
          | OK =>
              let s := set_curRec nextRid s in
              match examine outRid s with
              | Val (Some r) => Val r
              | Val None => scanNext_loop fuel' outRid s
              | NullDeref => NullDeref
              | OutOfFuel => OutOfFuel
              end
          | ENDOFPAGE | NORECORDS =>
              let '(status, nextPageNo) := Page_getNextPage pg in
              match status with
              | OK =>
                  if nextPageNo =? -1 then Val (FILEEOF, outRid, s)
                  else
                    let '(_, bm) := unPinPage (curPageNo s) (curDirtyFlag s) (bufMgr s) in
                    let s := set_curPage None (set_bufMgr bm s) in
                    let s := set_curPageNo nextPageNo s in
                    let '(status, page, bm) := readPage (curPageNo s) (curPage s) (bufMgr s) in
                    let s := set_curPage page (set_bufMgr bm s) in
                    match status with
                    | OK =>
                        let s := set_curRec NULLRID (set_curDirtyFlag false s) in
                        match deref s with
                        | None => NullDeref
                        | Some pg' =>
                            let '(status, rid) := Page_firstRecord (curRec s) pg' in
                            let s := set_curRec rid s in
                            match status with
                            | NORECORDS => scanNext_loop fuel' outRid s
                            | _ =>
                                match examine outRid s with
                                | Val (Some r) => Val r
                                | Val None => scanNext_loop fuel' outRid s
                                | NullDeref => NullDeref
                                | OutOfFuel => OutOfFuel
                                end
                            end
                        end
                    | _ => Val (status, outRid, s)
                    end
              | _ => Val (status, outRid, s)
              end
          | _ => Val (status, outRid, s)
          end
      end
  end.

(** [HeapFileScan::scanNext]. *)
Definition scanNext (fuel : nat) (outRid : RID) (s : State)
  : result (Status * RID * State) :=
  if curPageNo s <? 0 then Val (FILEEOF, outRid, s)
  else
    match curPage s with
    | None =>
        let s := set_curPageNo (firstPage (headerPage s)) s in
        if curPageNo s =? -1 then Val (FILEEOF, outRid, s)
        else
          let '(status, page, bm) := readPage (curPageNo s) (curPage s) (bufMgr s) in
          let s := set_curPage page (set_bufMgr bm s) in
          match status with
          | OK =>
              let s := set_curRec NULLRID (set_curDirtyFlag false s) in
              match deref s with
              | None => NullDeref
              | Some pg =>
                  let '(status, rid) := Page_firstRecord (curRec s) pg in
                  let s := set_curRec rid s in
                  match status with
                  | NORECORDS =>
                      let '(_, bm) :=
                        unPinPage (curPageNo s) (curDirtyFlag s) (bufMgr s) in
                      Val (FILEEOF, outRid,
                           set_curPage None (set_curPageNo (-1) (set_bufMgr bm s)))
                  | _ =>
                      match examine outRid s with
                      | Val (Some r) => Val r
                      | Val None => scanNext_loop fuel outRid s
                      | NullDeref => NullDeref
                      | OutOfFuel => OutOfFuel
                      end
                  end
              end
          | _ => Val (status, outRid, s)
          end
    | Some _ => scanNext_loop fuel outRid s
    end.

(** [HeapFileScan::getRecord(rec)]. *)
Definition HeapFileScan_getRecord (rec : Rec) (s : State) : result (Status * Rec) :=
  match deref s with
  | None => NullDeref
  | Some pg => Val (Page_getRecord (curRec s) rec pg)
  end.

(** Decrement and increment of an [int] counter. *)
Definition dec32 (z : Z) : Z := wrap32 (z - 1).
Definition inc32 (z : Z) : Z := wrap32 (z + 1).

Definition set_recCnt (v : Z) (h : FileHdrPage) : FileHdrPage :=
  mkHdr (firstPage h) (lastPage h) (pageCnt h) v.

(** [HeapFileScan::deleteRecord]. *)
Definition deleteRecord (s : State) : result (Status * State) :=
  match curPage s, deref s with
  | Some p, Some pg =>
      let '(status, pg) := Page_deleteRecord (curRec s) pg in
      let s := set_bufMgr (store p pg (bufMgr s)) s in
      let s := set_curDirtyFlag true s in
      let s := set_headerPage (set_recCnt (dec32 (recCnt (headerPage s))) (headerPage s)) s in
      let s := set_hdrDirtyFlag true s in
      Val (status, s)
  | _, _ => NullDeref
  end.

(** [HeapFileScan::markDirty]. *)
Definition markDirty (s : State) : Status * State := (OK, set_curDirtyFlag true s).

(** ** InsertFileScan *)

(** [InsertFileScan::InsertFileScan]. *)
Definition InsertFileScan_ctor (raw : State) : Status * State := HeapFile_ctor raw.

(** [InsertFileScan::~InsertFileScan] followed by the base-class
    destructor. *)
Definition InsertFileScan_dtor (s : State) : State :=
  let s :=
    match curPage s with
    | Some _ =>
        let '(_, bm) := unPinPage (curPageNo s) true (bufMgr s) in
        set_curPageNo 0 (set_curPage None (set_bufMgr bm s))
    | None => s
    end in
  HeapFile_dtor s.

(** [InsertFileScan::insertRecord].  [PAGESIZE] and [DPFIXED] are the
    constants of page.h; the record length is compared as an
    [unsigned int]. *)
Definition insertRecord (PAGESIZE DPFIXED : Z) (rec : Rec) (outRid : RID) (s : State)
  : result (Status * RID * State) :=
  if rec_length rec mod 2 ^ 32 >? PAGESIZE - DPFIXED then Val (INVALIDRECLEN, outRid, s)
  else
    let '(status, s) :=
      match curPage s with
      | None =>
          let s := set_curPageNo (lastPage (headerPage s)) s in
          let '(status, page, bm) := readPage (curPageNo s) (curPage s) (bufMgr s) in
          let s := set_curPage page (set_bufMgr bm s) in
          match status with
          | OK => (OK, set_curDirtyFlag false s)
          | _ => (status, s)
          end
      | Some _ => (OK, s)
      end in
    match status with
    | OK =>
        match curPage s, deref s with
        | Some p, Some pg =>
            let '(status, rid, pg) :=
              Page_insertRecord (PAGESIZE - DPFIXED) rec outRid pg in
            let s := set_bufMgr (store p pg (bufMgr s)) s in
            match status with
            | OK =>
                let s := set_headerPage
                           (set_recCnt (inc32 (recCnt (headerPage s))) (headerPage s)) s in
                Val (OK, rid, set_curDirtyFlag true (set_hdrDirtyFlag true s))
            | NOSPACE =>
                let '(status, newPageNo, newPage, bm) := allocPage (bufMgr s) in
                let s := set_bufMgr bm s in
                match status, newPage with
                | OK, Some np =>
                    (* newPage->init(newPageNo); newPage->setNextPage(-1) *)
                    let '(status, npg) :=
                      Page_setNextPage (-1)
                        (Page_init newPageNo (default rawPage (pages (bufMgr s) !! np))) in
                    let s := set_bufMgr (store np npg (bufMgr s)) s in
                    match status with
                    | OK =>
                        (* curPage->setNextPage(newPageNo) *)
                        let '(status, cpg) :=
                          Page_setNextPage newPageNo
                            (default rawPage (pages (bufMgr s) !! p)) in
                        let s := set_bufMgr (store p cpg (bufMgr s)) s in
                        match status with
                        | OK =>
                            let h := headerPage s in
                            let s := set_headerPage
                                       (mkHdr (firstPage h) newPageNo
                                              (inc32 (pageCnt h)) (recCnt h)) s in
                            let s := set_hdrDirtyFlag true s in
                            let '(status, bm) :=
                              unPinPage (curPageNo s) (curDirtyFlag s) (bufMgr s) in
                            let s := set_bufMgr bm s in
                            match status with
                            | OK =>
                                let s := set_curDirtyFlag true
                                           (set_curPageNo newPageNo (set_curPage newPage s)) in
                                let '(status, rid, npg) :=
                                  Page_insertRecord (PAGESIZE - DPFIXED) rec rid
                                    (default rawPage (pages (bufMgr s) !! np)) in
                                let s := set_bufMgr (store np npg (bufMgr s)) s in
                                match status with
                                | OK =>
                                    Val (OK, rid,
                                         set_headerPage
                                           (set_recCnt (inc32 (recCnt (headerPage s)))
                                                       (headerPage s)) s)
                                | _ => Val (status, rid, s)
                                end
                            | _ =>
                                let '(_, bm) := unPinPage newPageNo true (bufMgr s) in
                                Val (status, rid, set_bufMgr bm s)
                            end
                        | _ =>
                            let '(_, bm) := unPinPage newPageNo true (bufMgr s) in
                            Val (status, rid, set_bufMgr bm s)
                        end
                    | _ =>
                        let '(_, bm) := unPinPage newPageNo true (bufMgr s) in
                        Val (status, rid, set_bufMgr bm s)
                    end
                | _, _ => Val (status, rid, s)
                end
            | _ => Val (status, rid, s)
            end
        | _, _ => NullDeref
        end
    | _ => Val (status, outRid, s)
    end.

(** ** Predicate evaluation as the specification words it *)

(** A comparator applied to the sign of a difference [d]. *)
Definition sign_op (op : Operator) (d : Z) : bool :=
  match op with
  | LT => d <? 0
  | LTE => d <=? 0
  | EQ => d =? 0
  | GTE => 0 <=? d
  | GT => 0 <? d
  | NE => negb (d =? 0)
  | OpOther _ => false
  end.

(** Lexicographic order on byte strings: -1, 0 or 1. *)
Fixpoint lex_cmp (a b : list Z) : Z :=
  match a, b with
  | [], [] => 0
  | [], _ :: _ => -1
  | _ :: _, [] => 1
  | x :: a', y :: b' => if x <? y then -1 else if y <? x then 1 else lex_cmp a' b'
  end.

(** The [n] bytes a buffer holds from position [off] on, as unsigned
    chars.  A list that ends before that stands for a buffer whose
    remaining bytes are 0. *)
Definition raw_bytes (buf : list Z) (off : Z) (n : nat) : list Z :=
  take n (((λ b, b mod 256) <$> drop (Z.to_nat off) buf) ++ replicate n 0).

(** The number a sequence of bytes writes in base 256, least significant
    byte first. *)
Fixpoint unsigned_le (bs : list Z) : Z :=
  match bs with
  | [] => 0
  | b :: t => b + 256 * unsigned_le t
  end.

(** Four raw bytes as a two's-complement integer. *)
Definition int_of_bytes (bs : list Z) : Z :=
  let u := unsigned_le bs in
  if u <? 2 ^ 31 then u else u - 2 ^ 32.

(** Four raw bytes as an IEEE-754 binary32 number: one sign bit, eight
    exponent bits, 23 fraction bits.  The value of a finite number is
    [(-1)^sign * (1 + m / 2^23) * 2^(e - 127)], or
    [(-1)^sign * m / 2^23 * 2^(-126)] when [e = 0]; it is given times
    [2^149], which makes it an integer.  An exponent of 255 writes an
    infinity or a NaN, which has no such value. *)
Definition float_of_bytes (bs : list Z) : option Z :=
  let u := unsigned_le bs in
  let sign := u / 2 ^ 31 in
  let e := (u / 2 ^ 23) mod 2 ^ 8 in
  let m := u mod 2 ^ 23 in
  if e =? 255 then None
  else Some ((if sign =? 0 then 1 else -1)
             * (if e =? 0 then m else (2 ^ 23 + m) * 2 ^ (e - 1))).

(** A byte string up to its first NUL. *)
Fixpoint until_nul (bs : list Z) : list Z :=
  match bs with
  | [] => []
  | b :: t => if b =? 0 then [] else b :: until_nul t
  end.

(** Stored value minus filter value, as the specification words it: exact
    subtraction of the two integers, exact subtraction of the two finite
    binary32 numbers, lexicographic comparison of the two byte strings of
    [length] bytes.  With [nul_ends] the two strings end at their first
    NUL, as C strings do; without it all [length] bytes count, which is
    the "length-bounded lexicographic byte comparison" read literally. *)
Definition worded_diff (nul_ends : bool) (rec : Rec) (flt : list Z) (s : State) : Z :=
  match sc_type s with
  | INTEGER =>
      int_of_bytes (raw_bytes (rec_data rec) (sc_offset s) 4)
      - int_of_bytes (raw_bytes flt 0 4)
  | FLOAT =>
      match float_of_bytes (raw_bytes (rec_data rec) (sc_offset s) 4),
            float_of_bytes (raw_bytes flt 0 4) with
      | Some x, Some y => x - y
      | _, _ => 0
      end
  | STRING =>
      let n := Z.to_nat (sc_length s) in
      let cut := if nul_ends then until_nul else id in
      lex_cmp (cut (raw_bytes (rec_data rec) (sc_offset s) n)) (cut (raw_bytes flt 0 n))
  | TypeOther _ => 0
  end.

Definition worded_matchRec (nul_ends : bool) (rec : Rec) (s : State) : bool :=
  match sc_filter s with
  | None => true
  | Some flt =>
      if sc_offset s + sc_length s >? rec_length rec then false
      else sign_op (sc_op s) (worded_diff nul_ends rec flt s)
  end.

(** Predicate evaluation as the specification states it, for every record
    and every stored filter. *)
Definition claimed_matchRec : Rec → State → bool := worded_matchRec false.

(** The same with strings compared as C strings. *)
Definition spec_matchRec : Rec → State → bool := worded_matchRec true.

(** The number of bytes [matchRec] reads from the record. *)
Definition width (s : State) : Z :=
  match sc_type s with
  | INTEGER => sizeof_int
  | FLOAT => sizeof_float
  | STRING => sc_length s
  | TypeOther _ => 0
  end.

(** The stored filter parameters keep [matchRec] inside the record: offset
    and length are not negative, their sum is an [int], so that the test
    of line 456 sees the sum itself, and when the test lets the record
    pass, the bytes read lie inside the record.  Where this fails the
    C code reads outside the record or converts a negative length to
    [size_t]; the value [matchRec] has in this model then says nothing
    about the program. *)
Definition matchRec_in_bounds (rec : Rec) (s : State) : Prop :=
  is_Some (sc_filter s) →
  0 <= sc_offset s ∧ 0 <= sc_length s ∧ sc_offset s + sc_length s < 2 ^ 31
  ∧ (sc_offset s + sc_length s <= rec_length rec →
     sc_offset s + width s <= rec_length rec).

(** The difference the specification speaks of exists and the C
    arithmetic computes it: the difference of the two integers is an
    [int], the two binary32 numbers are finite. *)
Definition difference_defined (rec : Rec) (s : State) : Prop :=
  match sc_filter s with
  | None => True
  | Some flt =>
      match sc_type s with
      | INTEGER =>
          - 2 ^ 31 <= int_of_bytes (raw_bytes (rec_data rec) (sc_offset s) 4)
                      - int_of_bytes (raw_bytes flt 0 4) < 2 ^ 31
      | FLOAT =>
          is_Some (float_of_bytes (raw_bytes (rec_data rec) (sc_offset s) 4))
          ∧ is_Some (float_of_bytes (raw_bytes flt 0 4))
      | _ => True
      end
  end.

(** The C string a buffer holds, cut after [n] bytes. *)
Fixpoint cstring (n : nat) (buf : list Z) : list Z :=
  match n, buf with
  | S n', c :: t => if c mod 256 =? 0 then [] else c mod 256 :: cstring n' t
  | _, _ => []
  end.

(** The parameter combinations the specification lists as invalid. *)
Definition invalid_parameters (offset_ length_ : Z) (type_ : Datatype) (op_ : Operator)
  : Prop :=
  offset_ < 0 ∨ length_ < 1
  ∨ (type_ ≠ STRING ∧ type_ ≠ INTEGER ∧ type_ ≠ FLOAT)
  ∨ (type_ = INTEGER ∧ length_ ≠ sizeof_int)
  ∨ (type_ = FLOAT ∧ length_ ≠ sizeof_float)
  ∨ (op_ ≠ LT ∧ op_ ≠ LTE ∧ op_ ≠ EQ ∧ op_ ≠ GTE ∧ op_ ≠ GT ∧ op_ ≠ NE).

(** ** Example files *)

(** A four-byte record holding the integer [n] (for [0 <= n < 256]). *)
Definition int_rec (n : Z) : Rec := mkRec [n; 0; 0; 0] 4.

(** A buffer manager over the given data pages, header page 0, nothing
    pinned, no call made yet. *)
Definition pool_of (ps : list (Z * Page)) (next : Z) : BufMgr :=
  mkBufMgr 0 (list_to_map ps) ∅ next [].

(** The memory of an object before its constructor has run. *)
Definition raw_object (bm : BufMgr) (h : FileHdrPage) : State :=
  mkState bm h 0 false None 0 false NULLRID 0 0 STRING None LT 0 NULLRID.

(** One data page with the single record 5. *)
Definition one_record_file : State :=
  raw_object (pool_of [(1, mkPage 1 (-1) [Some (int_rec 5)])] 2) (mkHdr 1 1 1 1).

(** Two data pages, 2 following 1, one record each. *)
Definition two_page_file : State :=
  raw_object (pool_of [(1, mkPage 1 2 [Some (int_rec 5)]);
                       (2, mkPage 2 (-1) [Some (int_rec 7)])] 3)
             (mkHdr 1 2 2 2).

(** Status and RID a call returned. *)
Definition answer {A B} (r : result (A * B * State)) : option (A * B) :=
  match r with
  | Val (a, b, _) => Some (a, b)
  | _ => None
  end.

(** The state an operation leaves, whatever its status. *)
Definition state_of {A} (r : result (A * State)) (dflt : State) : State :=
  match r with
  | Val (_, s) => s
  | _ => dflt
  end.

(** Status of a call that returns only a status. *)
Definition status_of (r : result (Status * State)) : option Status :=
  match r with
  | Val (st, _) => Some st
  | _ => None
  end.

(** Repeated [scanNext] until a call fails: the RIDs produced, the status
    of the failing call and the state it leaves.  [n] bounds the number of
    calls, [fuel] the loop iterations within each call. *)
Fixpoint scan_all (n fuel : nat) (s : State) : result (list RID * Status * State) :=
  match n with
  | O => OutOfFuel
  | S n' =>
      match scanNext fuel NULLRID s with
      | Val (OK, rid, s') =>
          match scan_all n' fuel s' with
          | Val (l, st, s'') => Val (rid :: l, st, s'')
          | NullDeref => NullDeref
          | OutOfFuel => OutOfFuel
          end
      | Val (st, _, s') => Val ([], st, s')
      | NullDeref => NullDeref
      | OutOfFuel => OutOfFuel
      end
  end.

(** The cursor stands behind the last record of a page whose link is the
    terminator. *)
Definition at_end (s : State) : Prop :=
  ∃ pg, deref s = Some pg
        ∧ filter (λ j, slotNo (curRec s) < j) (live pg) = []
        ∧ nextPage pg = -1.

(** A record that fills more than half of a 1024-byte page. *)
Definition big_rec : Rec := mkRec (replicate 600 0) 600.

(** Two data pages, 2 following 1; the first page has no room for another
    [big_rec], the last page has. *)
Definition full_first_page_file : State :=
  raw_object (pool_of [(1, mkPage 1 2 [Some big_rec]);
                       (2, mkPage 2 (-1) [Some (int_rec 7)])] 3)
             (mkHdr 1 2 2 2).

(** The file a destroyed handle leaves behind, seen by the next object
    that opens it. *)
Definition reopen (s : State) : State := raw_object (bufMgr s) (headerPage s).

(** ** Well-formed files and scan positions *)

(** The data pages reached from page number [p] by following the forward
    links up to the terminator, in order. *)
Fixpoint chain (pgs : gmap Z Page) (p : Z) (l : list Page) : Prop :=
  match l with
  | [] => p = -1
  | pg :: l' =>
      0 <= p ∧ pgs !! p = Some pg ∧ pageId pg = p ∧ chain pgs (nextPage pg) l'
  end.

(** RIDs of the live records of a page in slot order, and of a list of
    pages in list order. *)
Definition rids_of (pg : Page) : list RID := mkRID (pageId pg) <$> live pg.

Definition all_rids (l : list Page) : list RID := l ≫= rids_of.

(** A scan positioned on page [pg] of a chain that continues with [l]:
    the page is the current page, and it is pinned. *)
Definition positioned (s : State) (pg : Page) (l : list Page) : Prop :=
  curPage s = Some (pageId pg) ∧ curPageNo s = pageId pg
  ∧ chain (pages (bufMgr s)) (pageId pg) (pg :: l)
  ∧ (0 < pins (pageId pg) (bufMgr s))%nat.

(** The records a scan at this position has still to visit. *)
Definition remaining (s : State) (pg : Page) (l : list Page) : list RID :=
  (mkRID (pageId pg) <$> filter (λ j, slotNo (curRec s) < j) (live pg)) ++ all_rids l.

(** The record a RID names in the pool. *)
Definition rec_at (pgs : gmap Z Page) (rid : RID) : option Rec :=
  match pgs !! pageNo rid with
  | Some pg => slot_at (slotNo rid) pg
  | None => None
  end.

(** Whether the record a RID names satisfies the filter of the scan. *)
Definition matches (s : State) (rid : RID) : bool :=
  matchRec (default rawRec (rec_at (pages (bufMgr s)) rid)) s.

(** What is left of a list of RIDs from its first matching one on. *)
Fixpoint skip_unmatched (m : RID → bool) (rs : list RID) : list RID :=
  match rs with
  | [] => []
  | rid :: rest => if m rid then rid :: rest else skip_unmatched m rest
  end.

(** What a scan does not change: the page images, the header, the filter
    and the mark. *)
Definition same_file (s s' : State) : Prop :=
  pages (bufMgr s') = pages (bufMgr s) ∧ hdrPageNo (bufMgr s') = hdrPageNo (bufMgr s)
  ∧ headerPage s' = headerPage s
  ∧ sc_offset s' = sc_offset s ∧ sc_length s' = sc_length s ∧ sc_type s' = sc_type s
  ∧ sc_filter s' = sc_filter s ∧ sc_op s' = sc_op s
  ∧ markedPageNo s' = markedPageNo s ∧ markedRec s' = markedRec s.

(** [n] calls of [scanNext] in a row, whatever their status. *)
Fixpoint scan_n (n fuel : nat) (s : State) : result State :=
  match n with
  | O => Val s
  | S n' =>
      match scanNext fuel NULLRID s with
      | Val (_, _, s') => scan_n n' fuel s'
      | NullDeref => NullDeref
      | OutOfFuel => OutOfFuel
      end
  end.

(** The first page holds records in slots 0 and 2 (slot 1 was deleted),
    the second page is empty, the third holds one record in slot 1. *)
Definition gap_file : State :=
  raw_object (pool_of [(1, mkPage 1 2 [Some (int_rec 5); None; Some (int_rec 6)]);
                       (2, mkPage 2 3 []);
                       (3, mkPage 3 (-1) [None; Some (int_rec 7)])] 4)
             (mkHdr 1 3 3 3).

(** What [scanNext] answers at a position: the first of the remaining
    records that satisfies the filter, or FILEEOF. *)
Definition expected_answer (s : State) (pg : Page) (l : list Page) (out : RID)
  : option (Status * RID) :=
  match skip_unmatched (matches s) (remaining s pg l) with
  | [] => Some (FILEEOF, out)
  | rid :: _ => Some (OK, rid)
  end.

(** ** The pins a handle owes *)

(** A call other than a failed [unPinPage]. *)
Definition unpin_ok (e : BufEvent) : Prop :=
  match e with
  | EvUnPin _ _ false => False
  | _ => True
  end.

(** The pin count a handle with header page [h] and current-page pointer
    [cp] accounts for on page [q]. *)
Definition held (h : Z) (cp : option Z) (q : Z) : nat :=
  ((if bool_decide (q = h) then 1 else 0)
   + (if bool_decide (cp = Some q) then 1 else 0))%nat.

(** The pool serves one handle and the two agree: the handle's header page
    is that of the file; every pin in the pool is one the handle owes; a
    non-null current-page pointer is the frame of page [curPageNo], a page
    the file has; page numbers in use lie below the next number to be
    allocated; no [unPinPage] has failed so far. *)
Definition pins_agree (bm : BufMgr) (h : Z) (cp : option Z) (cno : Z) : Prop :=
  h = hdrPageNo bm
  ∧ (∀ q, pins q bm = held h cp q)
  ∧ (∀ p, cp = Some p → cno = p ∧ page_exists p bm = true)
  ∧ hdrPageNo bm < numPages bm
  ∧ (∀ q, is_Some (pages bm !! q) → q < numPages bm)
  ∧ Forall unpin_ok (trace bm).

Definition handle_ok (s : State) : Prop :=
  pins_agree (bufMgr s) (headerPageNo s) (curPage s) (curPageNo s).

(** A pool in which nothing is pinned and nothing has gone wrong yet. *)
Definition pool_clean (bm : BufMgr) : Prop :=
  (∀ q, pins q bm = 0%nat)
  ∧ hdrPageNo bm < numPages bm
  ∧ (∀ q, is_Some (pages bm !! q) → q < numPages bm)
  ∧ Forall unpin_ok (trace bm).

(** The state of the pool in the middle of an insert overflow: besides the
    header page and the current page [p], the newly allocated page [np] is
    pinned. *)
Definition two_pinned (bm : BufMgr) (h p np : Z) : Prop :=
  h = hdrPageNo bm
  ∧ (∀ q, pins q bm
          = (held h (Some p) q + (if bool_decide (q = np) then 1 else 0))%nat)
  ∧ page_exists p bm = true ∧ is_Some (pages bm !! np) ∧ np ≠ p ∧ np ≠ h
  ∧ hdrPageNo bm < numPages bm
  ∧ (∀ q, is_Some (pages bm !! q) → q < numPages bm)
  ∧ Forall unpin_ok (trace bm).

(** The part of [insertRecord] that follows the size test and the lazy
    pinning of the last page: the insert into the current page and, when it
    has no room, the overflow to a new page. *)
Definition insert_on_current (PAGESIZE DPFIXED : Z) (rec : Rec) (outRid : RID) (s : State)
  : result (Status * RID * State) :=
  match curPage s, deref s with
  | Some p, Some pg =>
      let '(status, rid, pg) :=
        Page_insertRecord (PAGESIZE - DPFIXED) rec outRid pg in
      let s := set_bufMgr (store p pg (bufMgr s)) s in
      match status with
      | OK =>
          let s := set_headerPage
                     (set_recCnt (inc32 (recCnt (headerPage s))) (headerPage s)) s in
          Val (OK, rid, set_curDirtyFlag true (set_hdrDirtyFlag true s))
      | NOSPACE =>
          let '(status, newPageNo, newPage, bm) := allocPage (bufMgr s) in
          let s := set_bufMgr bm s in
          match status, newPage with
          | OK, Some np =>
              (* newPage->init(newPageNo); newPage->setNextPage(-1) *)
              let '(status, npg) :=
                Page_setNextPage (-1)
                  (Page_init newPageNo (default rawPage (pages (bufMgr s) !! np))) in
              let s := set_bufMgr (store np npg (bufMgr s)) s in
              match status with
              | OK =>
                  (* curPage->setNextPage(newPageNo) *)
                  let '(status, cpg) :=
                    Page_setNextPage newPageNo
                      (default rawPage (pages (bufMgr s) !! p)) in
                  let s := set_bufMgr (store p cpg (bufMgr s)) s in
                  match status with
                  | OK =>
                      let h := headerPage s in
                      let s := set_headerPage
                                 (mkHdr (firstPage h) newPageNo
                                        (inc32 (pageCnt h)) (recCnt h)) s in
                      let s := set_hdrDirtyFlag true s in
                      let '(status, bm) :=
                        unPinPage (curPageNo s) (curDirtyFlag s) (bufMgr s) in
                      let s := set_bufMgr bm s in
                      match status with
                      | OK =>
                          let s := set_curDirtyFlag true
                                     (set_curPageNo newPageNo (set_curPage newPage s)) in
                          let '(status, rid, npg) :=
                            Page_insertRecord (PAGESIZE - DPFIXED) rec rid
                              (default rawPage (pages (bufMgr s) !! np)) in
                          let s := set_bufMgr (store np npg (bufMgr s)) s in
                          match status with
                          | OK =>
                              Val (OK, rid,
                                   set_headerPage
                                     (set_recCnt (inc32 (recCnt (headerPage s)))
                                                 (headerPage s)) s)
                          | _ => Val (status, rid, s)
                          end
                      | _ =>
                          let '(_, bm) := unPinPage newPageNo true (bufMgr s) in
                          Val (status, rid, set_bufMgr bm s)
                      end
                  | _ =>
                      let '(_, bm) := unPinPage newPageNo true (bufMgr s) in
                      Val (status, rid, set_bufMgr bm s)
                  end
              | _ =>
                  let '(_, bm) := unPinPage newPageNo true (bufMgr s) in
                  Val (status, rid, set_bufMgr bm s)
              end
          | _, _ => Val (status, rid, s)
          end
      | _ => Val (status, rid, s)
      end
  | _, _ => NullDeref
  end.

(** ** Sequences of calls on one handle *)

(** A call of a member function, with its arguments. *)
Inductive Call : Type :=
  | CallStartScan (offset_ length_ : Z) (type_ : Datatype)
                  (filter_ : option (list Z)) (op_ : Operator)
  | CallScanNext (fuel : nat)
  | CallGetRecordAt (rid : RID)
  | CallGetRecord
  | CallDeleteRecord
  | CallMarkDirty
  | CallMarkScan
  | CallResetScan
  | CallEndScan
  | CallInsertRecord (PAGESIZE DPFIXED : Z) (rec : Rec).

(** The status a call returns and the state it leaves. *)
Definition call (c : Call) (s : State) : result (Status * State) :=
  match c with
  | CallStartScan o l t f op => Val (startScan o l t f op s)
  | CallScanNext fuel =>
      match scanNext fuel NULLRID s with
      | Val (st, _, s') => Val (st, s')
      | NullDeref => NullDeref
      | OutOfFuel => OutOfFuel
      end
  | CallGetRecordAt rid =>
      match HeapFile_getRecord rid rawRec s with
      | Val (st, _, s') => Val (st, s')
      | NullDeref => NullDeref
      | OutOfFuel => OutOfFuel
      end
  | CallGetRecord =>
      match HeapFileScan_getRecord rawRec s with
      | Val (st, _) => Val (st, s)
      | NullDeref => NullDeref
      | OutOfFuel => OutOfFuel
      end
  | CallDeleteRecord => deleteRecord s
  | CallMarkDirty => Val (markDirty s)
  | CallMarkScan => Val (markScan s)
  | CallResetScan => Val (resetScan s)
  | CallEndScan => Val (endScan s)
  | CallInsertRecord ps dp rec =>
      match insertRecord ps dp rec NULLRID s with
      | Val (st, _, s') => Val (st, s')
      | NullDeref => NullDeref
      | OutOfFuel => OutOfFuel
      end
  end.

(** The calls of a list one after the other: each call with the status it
    returned, and the final state. *)
Fixpoint run (cs : list Call) (s : State) : result (list (Call * Status) * State) :=
  match cs with
  | [] => Val ([], s)
  | c :: cs' =>
      match call c s with
      | Val (st, s') =>
          match run cs' s' with
          | Val (log, s'') => Val ((c, st) :: log, s'')
          | NullDeref => NullDeref
          | OutOfFuel => OutOfFuel
          end
      | NullDeref => NullDeref
      | OutOfFuel => OutOfFuel
      end
  end.

(** The two calls that re-pin a page named by their caller, failing in
    the read of that page. *)
Definition read_failed (e : Call * Status) : Prop :=
  match e with
  | (CallGetRecordAt _, BADPAGENO) | (CallResetScan, BADPAGENO) => True
  | _ => False
  end.

(** ** Inserting at the tail of the chain *)

(** A handle whose current page is the last page [tl] of the chain
    [l ++ [tl]], on a file whose header describes that chain: [lastPage] is
    the tail, [pageCnt] the number of pages, [recCnt] the number of live
    records. *)
Definition tail_handle (s : State) (l : list Page) (tl : Page) : Prop :=
  chain (pages (bufMgr s)) (firstPage (headerPage s)) (l ++ [tl])
  ∧ curPage s = Some (pageId tl)
  ∧ lastPage (headerPage s) = pageId tl
  ∧ pageCnt (headerPage s) = Z.of_nat (length (l ++ [tl]))
  ∧ recCnt (headerPage s) = Z.of_nat (length (all_rids (l ++ [tl])))
  ∧ handle_ok s.


(** ** Where a scan stands after [scanNext] *)

(** A call of [scanNext] from a position on page [pg] of a chain that goes
    on with [l] has changed nothing in the file, and the scan is then
    positioned on a page of the chain at or after [pg].  When the call
    returned a RID, that RID is the current record, it names an occupied
    slot of the page the scan is positioned on, and its record satisfies
    the filter. *)
Definition stands_on (s : State) (pg : Page) (l : list Page) (st : Status) (rid : RID)
    (s' : State) : Prop :=
  same_file s s'
  ∧ ∃ mid pg' l',
      pg :: l = mid ++ pg' :: l' ∧ positioned s' pg' l'
      ∧ (st = OK → curRec s' = rid ∧ pageNo rid = pageId pg' ∧ slotNo rid ∈ live pg'
                   ∧ matches s' rid = true).

(** The first data page holds no record, the second holds one. *)
Definition empty_first_page_file : State :=
  raw_object (pool_of [(1, mkPage 1 2 []); (2, mkPage 2 (-1) [Some (int_rec 7)])] 3)
             (mkHdr 1 2 2 1).

(** * Properties *)

(** ** Arithmetic helpers *)

Lemma wrap32_id (z : Z) : - 2 ^ 31 <= z < 2 ^ 31 → wrap32 z = z.
Proof.
  intros Hz. unfold wrap32.
  rewrite Z.mod_small by lia. lia.
Qed.

Lemma wrap32_zero_iff (a b : Z) :
  - 2 ^ 31 <= a < 2 ^ 31 → - 2 ^ 31 <= b < 2 ^ 31 → wrap32 (a - b) = 0 ↔ a = b.
Proof.
  intros Ha Hb. unfold wrap32. split.
  - intros H.
    assert (Hm : (a - b + 2 ^ 31) mod 2 ^ 32 = 2 ^ 31) by lia.
    destruct (Z_lt_le_dec (a - b + 2 ^ 31) 0) as [Hneg | Hpos].
    + replace (a - b + 2 ^ 31) with (a - b + 2 ^ 31 + 2 ^ 32 + (-1) * 2 ^ 32) in Hm by lia.
      rewrite Z.mod_add in Hm by lia. rewrite Z.mod_small in Hm by lia. lia.
    + destruct (Z_lt_le_dec (a - b + 2 ^ 31) (2 ^ 32)) as [Hlt | Hge].
      * rewrite Z.mod_small in Hm by lia. lia.
      * replace (a - b + 2 ^ 31) with (a - b + 2 ^ 31 - 2 ^ 32 + 1 * 2 ^ 32) in Hm by lia.
        rewrite Z.mod_add in Hm by lia. rewrite Z.mod_small in Hm by lia. lia.
  - intros ->. rewrite Z.sub_diag. reflexivity.
Qed.

Lemma apply_op_float_of_int (op : Operator) (z : Z) :
  apply_op op (float_of_int z) = sign_op op z.
Proof.
  unfold float_of_int.
  destruct (Z.ltb_spec z 0); [ | destruct (Z.eqb_spec z 0) ];
    destruct op; simpl; try reflexivity; symmetry;
    rewrite ?negb_true_iff, ?negb_false_iff;
    first [ apply Z.ltb_lt | apply Z.ltb_ge | apply Z.leb_le | apply Z.leb_gt
          | apply Z.eqb_eq | apply Z.eqb_neq ]; lia.
Qed.

Lemma sign_op_sgn (op : Operator) (z : Z) : sign_op op (Z.sgn z) = sign_op op z.
Proof.
  destruct op; simpl; try reflexivity;
    destruct z; reflexivity.
Qed.

Lemma byte_at_nil : byte_at [] 0 = 0.
Proof. reflexivity. Qed.

Lemma byte_at_cons (c : Z) (t : list Z) : byte_at (c :: t) 0 = c mod 256.
Proof. reflexivity. Qed.

(** [strncmp] orders two buffers as the lexicographic order orders the C
    strings they hold. *)
Lemma strncmp_lex (n : nat) : ∀ s1 s2 : list Z,
  Z.sgn (strncmp s1 s2 n) = lex_cmp (cstring n s1) (cstring n s2).
Proof.
  induction n as [| n IH]; intros s1 s2.
  - destruct s1, s2; reflexivity.
  - cbn [strncmp].
    destruct s1 as [| c1 t1], s2 as [| c2 t2];
      rewrite ?byte_at_nil, ?byte_at_cons; cbn [cstring tail].
    + reflexivity.
    + pose proof (Z.mod_pos_bound c2 256 ltac:(lia)) as Hb.
      destruct (Z.eqb_spec 0 (c2 mod 256)) as [He | Hne]; cbn [negb].
      * rewrite <- He. reflexivity.
      * destruct (Z.eqb_spec (c2 mod 256) 0); [lia |]. cbn [lex_cmp]. lia.
    + pose proof (Z.mod_pos_bound c1 256 ltac:(lia)) as Hb.
      destruct (Z.eqb_spec (c1 mod 256) 0) as [He | Hne]; cbn [negb].
      * reflexivity.
      * cbn [lex_cmp]. lia.
    + pose proof (Z.mod_pos_bound c1 256 ltac:(lia)) as Hb1.
      pose proof (Z.mod_pos_bound c2 256 ltac:(lia)) as Hb2.
      destruct (Z.eqb_spec (c1 mod 256) (c2 mod 256)) as [He | Hne]; cbn [negb].
      * rewrite <- He.
        destruct (Z.eqb_spec (c1 mod 256) 0) as [Hz | Hnz]; [reflexivity |].
        cbn [lex_cmp]. rewrite Z.ltb_irrefl. apply IH.
      * destruct (Z.eqb_spec (c1 mod 256) 0) as [Hz1 | Hnz1];
          destruct (Z.eqb_spec (c2 mod 256) 0) as [Hz2 | Hnz2]; cbn [lex_cmp]; try lia.
        destruct (Z.ltb_spec (c1 mod 256) (c2 mod 256)); [lia |].
        destruct (Z.ltb_spec (c2 mod 256) (c1 mod 256)); lia.
Qed.

(** ** startScan *)

Lemma bad_scan_parm_spec (o l : Z) (t : Datatype) (c : Operator) :
  bad_scan_parm o l t c = true ↔ invalid_parameters o l t c.
Proof.
  unfold bad_scan_parm, invalid_parameters.
  rewrite !orb_true_iff, !andb_true_iff, !negb_true_iff, !bool_decide_eq_true,
    !Z.ltb_lt, !Z.eqb_neq.
  tauto.
Qed.

(** C8, as the code has it.  With a non-null filter value [startScan]
    returns BADSCANPARM exactly when the parameters are invalid, and then
    leaves the whole state, the filter installed before included, as it
    was; valid parameters are stored; a null filter value always succeeds
    and makes every record match. *)
Theorem startScan_validation (o l : Z) (t : Datatype) (c : Operator) (s : State) :
  (∀ flt : list Z,
      (fst (startScan o l t (Some flt) c s) = BADSCANPARM ↔ invalid_parameters o l t c)
      ∧ (invalid_parameters o l t c → startScan o l t (Some flt) c s = (BADSCANPARM, s))
      ∧ (¬ invalid_parameters o l t c →
         startScan o l t (Some flt) c s = (OK, set_scan o l t (Some flt) c s)))
  ∧ fst (startScan o l t None c s) = OK
  ∧ ∀ rec : Rec, matchRec rec (snd (startScan o l t None c s)) = true.
Proof.
  split; [ | split; [reflexivity | intros rec; reflexivity] ].
  intros flt. unfold startScan.
  destruct (bad_scan_parm o l t c) eqn:Hbad.
  - apply bad_scan_parm_spec in Hbad. split; [ | split ]; simpl.
    + tauto.
    + reflexivity.
    + intros Hn. contradiction.
  - assert (Hn : ¬ invalid_parameters o l t c).
    { intros Hi. apply bad_scan_parm_spec in Hi. congruence. }
    split; [ | split ]; simpl.
    + split; [discriminate | contradiction].
    + contradiction.
    + reflexivity.
Qed.

Lemma startScan_validation_witness :
  startScan (-1) 4 INTEGER (Some [3; 0; 0; 0]) EQ one_record_file
    = (BADSCANPARM, one_record_file)
  ∧ startScan 0 4 INTEGER (Some [3; 0; 0; 0]) EQ one_record_file
    = (OK, set_scan 0 4 INTEGER (Some [3; 0; 0; 0]) EQ one_record_file).
Proof.
  split.
  - apply (startScan_validation (-1) 4 INTEGER EQ one_record_file).
    left. lia.
  - apply (startScan_validation 0 4 INTEGER EQ one_record_file).
    unfold invalid_parameters, sizeof_int, sizeof_float.
    intros H. intuition (congruence || lia).
Defined.

(** C8 as stated fails: after a rejected [startScan] the scan is not
    unfiltered when an earlier call installed a filter.  The file holds the
    single record 5; the filter "= 3" stays in force and the following
    [scanNext] reports end of file instead of the record. *)
Lemma startScan_rejected_keeps_filter :
  let s0 := snd (HeapFileScan_ctor one_record_file) in
  let s1 := snd (startScan 0 4 INTEGER (Some [3; 0; 0; 0]) EQ s0) in
  let r := startScan (-1) 4 INTEGER (Some [3; 0; 0; 0]) EQ s1 in
  fst r = BADSCANPARM
  ∧ sc_filter (snd r) = Some [3; 0; 0; 0]
  ∧ matchRec (int_rec 5) (snd r) = false
  ∧ answer (scanNext 5 NULLRID (snd r)) = Some (FILEEOF, NULLRID).
Proof. vm_compute. repeat split. Qed.

(** ** matchRec *)

Lemma byte_at_range (buf : list Z) (i : Z) : 0 <= byte_at buf i < 256.
Proof.
  unfold byte_at. destruct (0 <=? i); [ | lia ].
  apply Z.mod_pos_bound. lia.
Qed.

Lemma raw_bytes_lookup (buf : list Z) (off : Z) (n i : nat) :
  0 <= off → (i < n)%nat →
  raw_bytes buf off n !! i = Some (byte_at buf (off + Z.of_nat i)).
Proof.
  intros Hoff Hi. unfold raw_bytes, byte_at.
  destruct (Z.leb_spec 0 (off + Z.of_nat i)) as [_ | Hneg]; [ | lia ].
  replace (Z.to_nat (off + Z.of_nat i)) with (Z.to_nat off + i)%nat by lia.
  rewrite lookup_take_lt by exact Hi.
  rewrite <- (lookup_drop buf (Z.to_nat off) i).
  destruct (drop (Z.to_nat off) buf !! i) as [x |] eqn:Hx.
  - rewrite lookup_app_l by (rewrite length_fmap; eapply lookup_lt_Some; exact Hx).
    rewrite list_lookup_fmap, Hx. reflexivity.
  - apply lookup_ge_None in Hx.
    rewrite lookup_app_r by (rewrite length_fmap; exact Hx).
    rewrite lookup_replicate_2 by (rewrite length_fmap; lia). reflexivity.
Qed.

Lemma raw_bytes_length (buf : list Z) (off : Z) (n : nat) : length (raw_bytes buf off n) = n.
Proof.
  unfold raw_bytes. rewrite length_take, length_app, length_replicate. lia.
Qed.

Lemma raw_bytes_4 (buf : list Z) (off : Z) :
  0 <= off →
  raw_bytes buf off 4
  = [byte_at buf off; byte_at buf (off + 1); byte_at buf (off + 2); byte_at buf (off + 3)].
Proof.
  intros Hoff.
  pose proof (raw_bytes_length buf off 4) as Hlen.
  pose proof (raw_bytes_lookup buf off 4 0 Hoff ltac:(lia)) as H0.
  pose proof (raw_bytes_lookup buf off 4 1 Hoff ltac:(lia)) as H1.
  pose proof (raw_bytes_lookup buf off 4 2 Hoff ltac:(lia)) as H2.
  pose proof (raw_bytes_lookup buf off 4 3 Hoff ltac:(lia)) as H3.
  change (Z.of_nat 0) with 0 in H0. change (Z.of_nat 1) with 1 in H1.
  change (Z.of_nat 2) with 2 in H2. change (Z.of_nat 3) with 3 in H3.
  rewrite Z.add_0_r in H0.
  destruct (raw_bytes buf off 4) as [| a [| b [| c [| d [| e t]]]]]; try discriminate.
  injection H0 as ->. injection H1 as ->. injection H2 as ->. injection H3 as ->.
  reflexivity.
Qed.

(** The four bytes [memcpy] copies are the word the specification reads. *)
Lemma load_word_bytes (buf : list Z) (off : Z) :
  0 <= off →
  load_word buf off = unsigned_le (raw_bytes buf off 4)
  ∧ 0 <= load_word buf off < 2 ^ 32.
Proof.
  intros Hoff. rewrite (raw_bytes_4 _ _ Hoff). unfold load_word. cbn [unsigned_le].
  pose proof (byte_at_range buf off). pose proof (byte_at_range buf (off + 1)).
  pose proof (byte_at_range buf (off + 2)). pose proof (byte_at_range buf (off + 3)).
  lia.
Qed.

Lemma load_int_bytes (buf : list Z) (off : Z) :
  0 <= off → load_int buf off = int_of_bytes (raw_bytes buf off 4).
Proof.
  intros Hoff. destruct (load_word_bytes buf off Hoff) as [Hw Hr].
  unfold load_int, int_of_bytes. rewrite <- Hw. unfold wrap32.
  destruct (Z.ltb_spec (load_word buf off) (2 ^ 31)) as [Hlt | Hge].
  - rewrite Z.mod_small by lia. lia.
  - replace (load_word buf off + 2 ^ 31)
      with (load_word buf off - 2 ^ 31 + 1 * 2 ^ 32) by lia.
    rewrite Z.mod_add by lia. rewrite Z.mod_small by lia. lia.
Qed.

(** The bit fields [decode_f32] cuts out of a word are those of the
    binary32 format, and a finite number has the value the format gives
    it. *)
Lemma decode_f32_finite (w x : Z) :
  0 <= w < 2 ^ 32 →
  (let sign := w / 2 ^ 31 in
   let e := (w / 2 ^ 23) mod 2 ^ 8 in
   let m := w mod 2 ^ 23 in
   (if e =? 255 then None
    else Some ((if sign =? 0 then 1 else -1)
               * (if e =? 0 then m else (2 ^ 23 + m) * 2 ^ (e - 1)))) = Some x) →
  decode_f32 w = F32Fin x.
Proof.
  intros Hw. cbv zeta. intros Hx. unfold decode_f32.
  change (Z.land (Z.shiftr w 23) 255) with (Z.land (Z.shiftr w 23) (Z.ones 8)).
  change (2 ^ 23 - 1) with (Z.ones 23).
  rewrite !Z.land_ones by lia. rewrite Z.testbit_odd, !Z.shiftr_div_pow2 by lia.
  assert (Hs : 0 <= w / 2 ^ 31 < 2).
  { split; [apply Z.div_pos; lia | apply Z.div_lt_upper_bound; lia]. }
  pose proof (Z.mod_pos_bound (w / 2 ^ 23) (2 ^ 8) ltac:(lia)) as He.
  destruct (Z.eqb_spec ((w / 2 ^ 23) mod 2 ^ 8) 255) as [_ | Hne]; [discriminate |].
  injection Hx as <-. f_equal.
  assert (Hmag : (if (w / 2 ^ 23) mod 2 ^ 8 =? 0 then w mod 2 ^ 23
                  else Z.shiftl (w mod 2 ^ 23 + 2 ^ 23) ((w / 2 ^ 23) mod 2 ^ 8 - 1))
                 = (if (w / 2 ^ 23) mod 2 ^ 8 =? 0 then w mod 2 ^ 23
                    else (2 ^ 23 + w mod 2 ^ 23) * 2 ^ ((w / 2 ^ 23) mod 2 ^ 8 - 1))).
  { destruct (Z.eqb_spec ((w / 2 ^ 23) mod 2 ^ 8) 0); [reflexivity |].
    rewrite Z.shiftl_mul_pow2 by lia. f_equal. lia. }
  rewrite Hmag.
  destruct (Z.eqb_spec (w / 2 ^ 31) 0) as [Hz | Hnz].
  - rewrite Hz. cbn [Z.odd]. lia.
  - replace (w / 2 ^ 31) with 1 by lia. cbn [Z.odd]. lia.
Qed.

Lemma load_float_bytes (buf : list Z) (off x : Z) :
  0 <= off → float_of_bytes (raw_bytes buf off 4) = Some x →
  load_float buf off = F32Fin x.
Proof.
  intros Hoff Hx. destruct (load_word_bytes buf off Hoff) as [Hw Hr].
  unfold load_float. apply decode_f32_finite; [exact Hr |].
  unfold float_of_bytes in Hx. rewrite <- Hw in Hx. exact Hx.
Qed.

(** The C string in the first [n] bytes of a buffer is what is left of its
    raw bytes up to the first NUL. *)
Lemma cstring_until_nul (n : nat) : ∀ (buf : list Z) (m : nat),
  (n <= m)%nat →
  cstring n buf = until_nul (take n (((λ b, b mod 256) <$> buf) ++ replicate m 0)).
Proof.
  induction n as [| n IH]; intros buf m Hm.
  - destruct buf; reflexivity.
  - destruct buf as [| c t].
    + destruct m as [| m]; [lia |]. reflexivity.
    + cbn [cstring fmap list_fmap app take until_nul].
      destruct (c mod 256 =? 0); [reflexivity |].
      f_equal. apply IH. lia.
Qed.

Lemma cstring_raw_bytes (n : nat) (buf : list Z) (off : Z) :
  cstring n (drop (Z.to_nat off) buf) = until_nul (raw_bytes buf off n).
Proof. unfold raw_bytes. apply cstring_until_nul. lia. Qed.

(** C9, as the code has it.  No filter: every record matches.  A filter
    whose [offset + length] is an [int] and exceeds the length of the
    record: no match.  Otherwise, when the filter parameters keep
    [matchRec] inside the record and the difference is defined (the
    integer difference is an [int], both floats are finite), the
    comparator is applied to the sign of stored value minus filter value,
    the values being the raw bytes read as a two's-complement integer, as
    a binary32 number, or as C strings of at most [length] bytes:
    [matchRec] agrees with [spec_matchRec].  For a stored integer 5: with
    filter value 5, EQ matches, LT and GT do not; with filter value 3, GT
    matches. *)
Theorem matchRec_correct (rec : Rec) (s : State) :
  (sc_filter s = None → matchRec rec s = true)
  ∧ (is_Some (sc_filter s) → - 2 ^ 31 <= sc_offset s + sc_length s < 2 ^ 31 →
     sc_offset s + sc_length s > rec_length rec → matchRec rec s = false)
  ∧ (matchRec_in_bounds rec s → difference_defined rec s →
     matchRec rec s = spec_matchRec rec s)
  ∧ (matchRec (int_rec 5) (set_scan 0 4 INTEGER (Some [5; 0; 0; 0]) EQ s) = true
     ∧ matchRec (int_rec 5) (set_scan 0 4 INTEGER (Some [5; 0; 0; 0]) LT s) = false
     ∧ matchRec (int_rec 5) (set_scan 0 4 INTEGER (Some [5; 0; 0; 0]) GT s) = false
     ∧ matchRec (int_rec 5) (set_scan 0 4 INTEGER (Some [3; 0; 0; 0]) GT s) = true).
Proof.
  split; [ | split; [ | split ] ].
  - intros Hf. unfold matchRec. rewrite Hf. reflexivity.
  - intros [flt Hf] Hr Hgt. unfold matchRec. rewrite Hf.
    rewrite wrap32_id by exact Hr.
    destruct (Z.gtb_spec (sc_offset s + sc_length s) (rec_length rec)); [reflexivity | lia].
  - unfold matchRec_in_bounds, difference_defined, matchRec, spec_matchRec,
      worded_matchRec, worded_diff.
    destruct (sc_filter s) as [flt |]; [ | reflexivity ].
    intros Hb Hd. destruct (Hb ltac:(eauto)) as (Hoff & Hlen & Hsum & _).
    rewrite wrap32_id by lia.
    destruct (sc_offset s + sc_length s >? rec_length rec); [reflexivity |].
    destruct (sc_type s).
    + rewrite apply_op_float_of_int, <- sign_op_sgn, strncmp_lex.
      rewrite cstring_raw_bytes.
      rewrite <- (cstring_raw_bytes _ flt 0). reflexivity.
    + rewrite !load_int_bytes by lia. rewrite wrap32_id by exact Hd.
      apply apply_op_float_of_int.
    + destruct Hd as [[x Hx] [y Hy]]. rewrite Hx, Hy.
      rewrite (load_float_bytes _ _ _ Hoff Hx), (load_float_bytes _ _ _ (Z.le_refl 0) Hy).
      simpl fsub. apply apply_op_float_of_int.
    + destruct (sc_op s); reflexivity.
  - repeat split.
Qed.

(** An integer behind two other bytes, a binary32 number and a string,
    each compared with a filter value. *)
Lemma matchRec_correct_witness :
  let s := set_scan 2 4 INTEGER (Some [3; 0; 0; 0]) LT one_record_file in
  let f := set_scan 0 4 FLOAT (Some [0; 0; 128; 63]) GT one_record_file in
  let t := set_scan 1 3 STRING (Some [98; 99; 0]) EQ one_record_file in
  matchRec (int_rec 5) (set_filter None s) = true
  ∧ matchRec (int_rec 5) s = false
  ∧ matchRec (mkRec [0; 0; 200; 1; 0; 0] 6) s = spec_matchRec (mkRec [0; 0; 200; 1; 0; 0] 6) s
  ∧ matchRec (mkRec [0; 0; 0; 64] 4) f = spec_matchRec (mkRec [0; 0; 0; 64] 4) f
  ∧ matchRec (mkRec [97; 98; 99; 0; 100] 5) t = spec_matchRec (mkRec [97; 98; 99; 0; 100] 5) t.
Proof.
  split; [ | split; [ | split; [ | split ] ] ].
  - destruct (matchRec_correct (int_rec 5)
               (set_filter None
                  (set_scan 2 4 INTEGER (Some [3; 0; 0; 0]) LT one_record_file)))
      as (H & _).
    apply H. reflexivity.
  - destruct (matchRec_correct (int_rec 5)
               (set_scan 2 4 INTEGER (Some [3; 0; 0; 0]) LT one_record_file))
      as (_ & H & _).
    apply H.
    + eexists. reflexivity.
    + simpl. lia.
    + simpl. lia.
  - destruct (matchRec_correct (mkRec [0; 0; 200; 1; 0; 0] 6)
               (set_scan 2 4 INTEGER (Some [3; 0; 0; 0]) LT one_record_file))
      as (_ & _ & H & _).
    apply H.
    + intros _. vm_compute. intuition discriminate.
    + vm_compute. split; [discriminate | reflexivity].
  - destruct (matchRec_correct (mkRec [0; 0; 0; 64] 4)
               (set_scan 0 4 FLOAT (Some [0; 0; 128; 63]) GT one_record_file))
      as (_ & _ & H & _).
    apply H.
    + intros _. vm_compute. intuition discriminate.
    + vm_compute. split; eexists; reflexivity.
  - destruct (matchRec_correct (mkRec [97; 98; 99; 0; 100] 5)
               (set_scan 1 3 STRING (Some [98; 99; 0]) EQ one_record_file))
      as (_ & _ & H & _).
    apply H.
    + intros _. vm_compute. intuition discriminate.
    + exact I.
Defined.

(** C9 as stated fails, in three ways.  Strings are compared with
    [strncmp], which stops at a NUL: "a\0b" equals "a\0c" for the code,
    while a comparison of all three bytes tells them apart.  The integer
    difference is computed in [int]: the smallest integer minus 1 wraps
    around to a positive number, and LT does not match although the stored
    value is the smaller one.  And [startScan] accepts an offset whose sum
    with the length is no [int]: the sum exceeds the length of every
    record, yet the test of line 456 sees the wrapped sum and lets the
    record pass, and the bytes read lie outside the record. *)
Lemma matchRec_not_as_claimed :
  let str := set_scan 0 3 STRING (Some [97; 0; 99]) EQ one_record_file in
  let int := set_scan 0 4 INTEGER (Some [1; 0; 0; 0]) LT one_record_file in
  let far := snd (startScan (2 ^ 31 - 1) 1 STRING (Some [97]) EQ one_record_file) in
  (matchRec (mkRec [97; 0; 98] 3) str = true
   ∧ claimed_matchRec (mkRec [97; 0; 98] 3) str = false)
  ∧ (matchRec (mkRec [0; 0; 0; 128] 4) int = false
     ∧ claimed_matchRec (mkRec [0; 0; 0; 128] 4) int = true)
  ∧ (fst (startScan (2 ^ 31 - 1) 1 STRING (Some [97]) EQ one_record_file) = OK
     ∧ sc_offset far + sc_length far > rec_length (int_rec 5)
     ∧ claimed_matchRec (int_rec 5) far = false
     ∧ wrap32 (sc_offset far + sc_length far) <= rec_length (int_rec 5)
     ∧ ¬ matchRec_in_bounds (int_rec 5) far).
Proof.
  split; [ | split ].
  - split; vm_compute; reflexivity.
  - split; vm_compute; reflexivity.
  - split; [vm_compute; reflexivity |]. split; [vm_compute; reflexivity |].
    split; [vm_compute; reflexivity |]. split; [vm_compute; discriminate |].
    intros H. destruct H as (_ & _ & Hsum & _); [eexists; reflexivity |].
    vm_compute in Hsum. discriminate Hsum.
Qed.

(** ** getRecord of a scan *)

(** C10, as the code has it.  With the current-page pointer set,
    [getRecord] returns the record [curRec] names, or a failure status when
    [curRec] names no occupied slot. *)
Theorem getRecord_current (rec : Rec) (s : State) (p : Z) (pg : Page) :
  curPage s = Some p → pages (bufMgr s) !! p = Some pg →
  HeapFileScan_getRecord rec s
  = Val (match slot_at (slotNo (curRec s)) pg with
         | Some r => (OK, r)
         | None => (INVALIDSLOTNO, rec)
         end).
Proof.
  intros Hp Hpg. unfold HeapFileScan_getRecord, deref. rewrite Hp, Hpg.
  unfold Page_getRecord. destruct (slot_at (slotNo (curRec s)) pg); reflexivity.
Qed.

Lemma getRecord_current_witness :
  let s := state_of (scanNext 5 NULLRID (snd (HeapFileScan_ctor one_record_file)))
                    one_record_file in
  HeapFileScan_getRecord rawRec s = Val (OK, int_rec 5).
Proof.
  apply (getRecord_current rawRec
           (state_of (scanNext 5 NULLRID (snd (HeapFileScan_ctor one_record_file)))
                     one_record_file)
           1 (mkPage 1 (-1) [Some (int_rec 5)])); reflexivity.
Defined.

(** C10 as stated fails: after [endScan] no page is pinned, and [getRecord]
    dereferences the null page pointer; it returns no status at all. *)
Lemma getRecord_without_page :
  let s := snd (endScan (snd (HeapFileScan_ctor one_record_file))) in
  curPage s = None
  ∧ HeapFileScan_getRecord rawRec s = NullDeref
  ∧ ∀ r : Status * Rec, HeapFileScan_getRecord rawRec s ≠ Val r.
Proof. split; [ | split ]; [reflexivity | reflexivity | intros r; discriminate]. Qed.

(** ** The buffer manager calls *)

Lemma readPage_inv (p : Z) (ptr : option Z) (bm : BufMgr) st ptr' bm' :
  readPage p ptr bm = (st, ptr', bm') →
  pages bm' = pages bm ∧ hdrPageNo bm' = hdrPageNo bm ∧ numPages bm' = numPages bm
  ∧ ((st = OK ∧ ptr' = Some p ∧ page_exists p bm = true
      ∧ pinCnt bm' = <[p := S (pins p bm)]> (pinCnt bm)
      ∧ trace bm' = trace bm ++ [EvRead p true])
     ∨ (st = BADPAGENO ∧ ptr' = ptr ∧ page_exists p bm = false
        ∧ pinCnt bm' = pinCnt bm
        ∧ trace bm' = trace bm ++ [EvRead p false])).
Proof.
  unfold readPage. destruct (page_exists p bm); intros [= <- <- <-]; simpl; tauto.
Qed.

Lemma unPinPage_inv (p : Z) (d : bool) (bm : BufMgr) st bm' :
  unPinPage p d bm = (st, bm') →
  pages bm' = pages bm ∧ hdrPageNo bm' = hdrPageNo bm ∧ numPages bm' = numPages bm
  ∧ ((st = OK ∧ (∃ n, pins p bm = S n ∧ pinCnt bm' = <[p := n]> (pinCnt bm))
      ∧ trace bm' = trace bm ++ [EvUnPin p d true])
     ∨ (st = PAGENOTPINNED ∧ pins p bm = O ∧ pinCnt bm' = pinCnt bm
        ∧ trace bm' = trace bm ++ [EvUnPin p d false])).
Proof.
  unfold unPinPage. destruct (pins p bm) as [| n]; intros [= <- <-]; simpl.
  - tauto.
  - repeat split; try reflexivity. left. eauto.
Qed.

Lemma unPinPage_trace (p : Z) (d : bool) (bm : BufMgr) :
  ∃ ok, trace (snd (unPinPage p d bm)) = trace bm ++ [EvUnPin p d ok].
Proof.
  unfold unPinPage. destruct (pins p bm); simpl; eauto.
Qed.

Lemma examine_inv (out : RID) (s : State) (r : option (Status * RID * State)) :
  examine out s = Val r →
  match r with
  | Some (st, rid, s') => s' = s ∧ st ≠ FILEEOF
  | None => True
  end.
Proof.
  unfold examine. destruct (deref s) as [pg |]; [ | discriminate ].
  unfold Page_getRecord. destruct (slot_at (slotNo (curRec s)) pg).
  - destruct (matchRec r0 s); intros [= <-]; [ split; [reflexivity | discriminate] | exact I ].
  - intros [= <-]. split; [reflexivity | discriminate].
Qed.

Lemma scanNext_loop_eof (fuel : nat) : ∀ (out : RID) (s : State) rid s',
  scanNext_loop fuel out s = Val (FILEEOF, rid, s') → rid = out ∧ at_end s'.
Proof.
  induction fuel as [| fuel IH]; intros out s rid s' H; [discriminate |].
  cbn [scanNext_loop] in H.
  destruct (deref s) as [pg |] eqn:Hd; [ | discriminate ].
  unfold Page_nextRecord, Page_getNextPage in H.
  destruct (filter (λ j, slotNo (curRec s) < j) (live pg)) as [| j rest] eqn:Hf.
  - destruct (Z.eqb_spec (nextPage pg) (-1)) as [Hn | Hn].
    + injection H as <- <-. split; [reflexivity |]. exists pg. auto.
    + destruct (unPinPage (curPageNo s) (curDirtyFlag s) (bufMgr s)) as [ust ubm].
      cbn [curPageNo set_curPageNo set_curPage set_bufMgr curPage bufMgr] in H.
      destruct (readPage (nextPage pg) None ubm) as [[rst rptr] rbm] eqn:Hr.
      apply readPage_inv in Hr as (_ & _ & _ & [(-> & _) | (-> & _)]); [ | discriminate ].
      match type of H with
      | match deref ?x with _ => _ end = _ => destruct (deref x) as [pg' |]; [ | discriminate ]
      end.
      unfold Page_firstRecord in H.
      destruct (live pg') as [| j' rest'].
      * apply IH in H. exact H.
      * match type of H with
        | match examine ?o ?x with _ => _ end = _ =>
            destruct (examine o x) as [[[[st1 rid1] s1] |] | |] eqn:He; try discriminate
        end.
        -- apply examine_inv in He as [_ Hne]. injection H as -> _ _. contradiction.
        -- apply IH in H. exact H.
  - match type of H with
    | match examine ?o ?x with _ => _ end = _ =>
        destruct (examine o x) as [[[[st1 rid1] s1] |] | |] eqn:He; try discriminate
    end.
    + apply examine_inv in He as [_ Hne]. injection H as -> _ _. contradiction.
    + apply IH in H. exact H.
Qed.

Lemma at_end_scanNext (s : State) (fuel : nat) (out : RID) :
  at_end s → scanNext (S fuel) out s = Val (FILEEOF, out, s).
Proof.
  intros (pg & Hd & Hf & Hn). unfold scanNext.
  destruct (curPageNo s <? 0); [reflexivity |].
  destruct (curPage s) as [p |] eqn:Hp; [ | unfold deref in Hd; rewrite Hp in Hd; discriminate ].
  cbn [scanNext_loop]. rewrite Hd. unfold Page_nextRecord, Page_getNextPage.
  rewrite Hf, Hn. reflexivity.
Qed.

Lemma scanNext_loop_trace (fuel : nat) : ∀ (out : RID) (s : State) st rid s',
  scanNext_loop fuel out s = Val (st, rid, s') →
  ∃ evs, trace (bufMgr s') = trace (bufMgr s) ++ evs.
Proof.
  induction fuel as [| fuel IH]; intros out s st rid s' H; [discriminate |].
  cbn [scanNext_loop] in H.
  destruct (deref s) as [pg |] eqn:Hd; [ | discriminate ].
  unfold Page_nextRecord, Page_getNextPage in H.
  destruct (filter (λ j, slotNo (curRec s) < j) (live pg)) as [| j rest] eqn:Hf.
  - destruct (Z.eqb_spec (nextPage pg) (-1)) as [Hn | Hn].
    + injection H as _ _ <-. exists []. symmetry. apply app_nil_r.
    + destruct (unPinPage (curPageNo s) (curDirtyFlag s) (bufMgr s)) as [ust ubm] eqn:Hu.
      apply unPinPage_inv in Hu as (_ & _ & _ & Hu).
      assert (Hut : ∃ e, trace ubm = trace (bufMgr s) ++ [e]).
      { destruct Hu as [(_ & _ & ->) | (_ & _ & _ & ->)]; eauto. }
      destruct Hut as [e1 Hut].
      cbn [curPageNo set_curPageNo set_curPage set_bufMgr curPage bufMgr] in H.
      destruct (readPage (nextPage pg) None ubm) as [[rst rptr] rbm] eqn:Hr.
      apply readPage_inv in Hr as (_ & _ & _ & Hr).
      assert (Hrt : ∃ e, trace rbm = trace ubm ++ [e]).
      { destruct Hr as [(_ & _ & _ & _ & ->) | (_ & _ & _ & _ & ->)]; eauto. }
      destruct Hrt as [e2 Hrt].
      assert (Hbase : trace rbm = trace (bufMgr s) ++ [e1; e2]).
      { rewrite Hrt, Hut, <- app_assoc. reflexivity. }
      destruct rst;
        try (injection H as _ _ <-; cbn [bufMgr set_curPage set_bufMgr]; eauto).
      match type of H with
      | match deref ?x with _ => _ end = _ => destruct (deref x) as [pg' |]; [ | discriminate ]
      end.
      unfold Page_firstRecord in H.
      destruct (live pg') as [| j' rest'].
      * apply IH in H as [evs H]. cbn [bufMgr set_curRec set_curDirtyFlag set_curPage set_bufMgr] in H.
        rewrite H, Hbase, <- app_assoc. eauto.
      * match type of H with
        | match examine ?o ?x with _ => _ end = _ =>
            destruct (examine o x) as [[[[st1 rid1] s1] |] | |] eqn:He; try discriminate
        end.
        -- apply examine_inv in He as [-> _]. injection H as _ _ <-.
           cbn [bufMgr set_curRec set_curDirtyFlag set_curPage set_bufMgr]. eauto.
        -- apply IH in H as [evs H].
           cbn [bufMgr set_curRec set_curDirtyFlag set_curPage set_bufMgr] in H.
           rewrite H, Hbase, <- app_assoc. eauto.
  - match type of H with
    | match examine ?o ?x with _ => _ end = _ =>
        destruct (examine o x) as [[[[st1 rid1] s1] |] | |] eqn:He; try discriminate
    end.
    + apply examine_inv in He as [-> _]. injection H as _ _ <-.
      exists []. symmetry. apply app_nil_r.
    + apply IH in H as [evs H]. cbn [bufMgr set_curRec] in H. eauto.
Qed.

Lemma scanNext_crossing_order (fuel : nat) (out : RID) (s : State) (p : Z) (pg : Page)
    st rid s' :
  0 <= curPageNo s → curPage s = Some p → pages (bufMgr s) !! p = Some pg →
  filter (λ j, slotNo (curRec s) < j) (live pg) = [] → nextPage pg ≠ -1 →
  scanNext fuel out s = Val (st, rid, s') →
  ∃ ok ok' evs,
    trace (bufMgr s')
    = trace (bufMgr s)
      ++ EvUnPin (curPageNo s) (curDirtyFlag s) ok :: EvRead (nextPage pg) ok' :: evs.
Proof.
  intros Hno Hp Hpg Hf Hn H. unfold scanNext in H.
  destruct (Z.ltb_spec (curPageNo s) 0); [lia |]. rewrite Hp in H.
  destruct fuel as [| fuel]; [discriminate |].
  assert (Hd : deref s = Some pg) by (unfold deref; rewrite Hp; exact Hpg).
  cbn [scanNext_loop] in H. rewrite Hd in H.
  unfold Page_nextRecord, Page_getNextPage in H. rewrite Hf in H.
  destruct (Z.eqb_spec (nextPage pg) (-1)) as [Hn' | _]; [contradiction |].
  destruct (unPinPage_trace (curPageNo s) (curDirtyFlag s) (bufMgr s)) as [ok Hut].
  destruct (unPinPage (curPageNo s) (curDirtyFlag s) (bufMgr s)) as [ust ubm].
  cbn [snd] in Hut.
  cbn [curPageNo set_curPageNo set_curPage set_bufMgr curPage bufMgr] in H.
  destruct (readPage (nextPage pg) None ubm) as [[rst rptr] rbm] eqn:Hr.
  apply readPage_inv in Hr as (_ & _ & _ & Hr).
  assert (Hrt : ∃ ok', trace rbm = trace ubm ++ [EvRead (nextPage pg) ok']).
  { destruct Hr as [(_ & _ & _ & _ & ->) | (_ & _ & _ & _ & ->)]; eauto. }
  destruct Hrt as [ok' Hrt].
  assert (Hbase : trace rbm
                  = trace (bufMgr s)
                    ++ [EvUnPin (curPageNo s) (curDirtyFlag s) ok; EvRead (nextPage pg) ok']).
  { rewrite Hrt, Hut, <- app_assoc. reflexivity. }
  exists ok, ok'.
  destruct rst;
    try (injection H as _ _ <-; cbn [bufMgr set_curPage set_bufMgr]; exists []; exact Hbase).
  match type of H with
  | match deref ?x with _ => _ end = _ => destruct (deref x) as [pg' |]; [ | discriminate ]
  end.
  unfold Page_firstRecord in H.
  assert (Hrec : ∀ o x y z w, scanNext_loop fuel o x = Val (y, z, w) →
                 trace (bufMgr x) = trace rbm →
                 ∃ evs, trace (bufMgr w)
                        = trace (bufMgr s)
                          ++ EvUnPin (curPageNo s) (curDirtyFlag s) ok
                             :: EvRead (nextPage pg) ok' :: evs).
  { intros o x y z w Hl Hx. apply scanNext_loop_trace in Hl as [evs Hl].
    exists evs. rewrite Hl, Hx, Hbase, <- app_assoc. reflexivity. }
  destruct (live pg') as [| j' rest'].
  - eapply Hrec; [exact H | reflexivity].
  - match type of H with
    | match examine ?o ?x with _ => _ end = _ =>
        destruct (examine o x) as [[[[st1 rid1] s1] |] | |] eqn:He; try discriminate
    end.
    + apply examine_inv in He as [-> _]. injection H as _ _ <-.
      exists []. exact Hbase.
    + eapply Hrec; [exact H | reflexivity].
Qed.

Lemma insertRecord_overflow_order (PAGESIZE DPFIXED : Z) (rec : Rec) (out : RID)
    (s : State) (p : Z) (pg : Page) :
  rec_length rec mod 2 ^ 32 <= PAGESIZE - DPFIXED →
  curPage s = Some p → pages (bufMgr s) !! p = Some pg →
  used (slots pg) + rec_length rec > PAGESIZE - DPFIXED →
  ∃ st rid s' ok evs,
    insertRecord PAGESIZE DPFIXED rec out s = Val (st, rid, s')
    ∧ trace (bufMgr s')
      = trace (bufMgr s)
        ++ EvAlloc (numPages (bufMgr s))
           :: EvUnPin (curPageNo s) (curDirtyFlag s) ok :: evs.
Proof.
  intros Hlen Hp Hpg Hfull. unfold insertRecord.
  destruct (Z.gtb_spec (rec_length rec mod 2 ^ 32) (PAGESIZE - DPFIXED)); [lia |].
  assert (Hd : deref s = Some pg) by (unfold deref; rewrite Hp; exact Hpg).
  rewrite Hp. cbv beta iota. rewrite Hp, Hd.
  unfold Page_insertRecord at 1.
  destruct (Z.leb_spec (used (slots pg) + rec_length rec) (PAGESIZE - DPFIXED)); [lia |].
  cbn [allocPage Page_setNextPage Page_init set_bufMgr bufMgr store pages headerPage
       set_headerPage set_hdrDirtyFlag curPageNo curDirtyFlag hdrPageNo pinCnt numPages trace].
  match goal with
  | |- context [unPinPage ?a ?b ?c] =>
      destruct (unPinPage_trace a b c) as [ok Hut];
      destruct (unPinPage a b c) as [ust ubm]
  end.
  cbn [snd trace store] in Hut.
  destruct ust.
  2-10: (match goal with
         | |- context [unPinPage ?a ?b ?c] =>
             destruct (unPinPage_trace a b c) as [ok2 Hut2];
             destruct (unPinPage a b c) as [ust2 ubm2]
         end;
         cbn [snd trace store] in Hut2;
         do 3 eexists; exists ok; eexists; split; [reflexivity |];
         cbn [bufMgr set_bufMgr]; rewrite Hut2, Hut, <- !app_assoc; reflexivity).
  cbn [set_curDirtyFlag set_curPageNo set_curPage bufMgr].
  match goal with
  | |- context [Page_insertRecord ?a ?b ?c ?d] =>
      destruct (Page_insertRecord a b c d) as [[ist irid] ipg]
  end.
  destruct ist; do 3 eexists; exists ok, []; (split; [reflexivity |]);
    cbn [bufMgr set_bufMgr set_headerPage store trace]; rewrite Hut, <- !app_assoc; reflexivity.
Qed.

(** ** Order of pin and unpin when the handle moves to another page *)

(** C3, as the code has it.  When [insertRecord] overflows, the new page
    is allocated (pinned) first and the old page is unpinned after it.
    When [scanNext] crosses a page boundary it is the other way round: the
    old page is unpinned first, the next page is pinned after it. *)
Theorem page_advance_pin_order :
  (∀ (PAGESIZE DPFIXED : Z) (rec : Rec) (out : RID) (s : State) (p : Z) (pg : Page),
      rec_length rec mod 2 ^ 32 <= PAGESIZE - DPFIXED →
      curPage s = Some p → pages (bufMgr s) !! p = Some pg →
      used (slots pg) + rec_length rec > PAGESIZE - DPFIXED →
      ∃ st rid s' ok evs,
        insertRecord PAGESIZE DPFIXED rec out s = Val (st, rid, s')
        ∧ trace (bufMgr s')
          = trace (bufMgr s)
            ++ EvAlloc (numPages (bufMgr s))
               :: EvUnPin (curPageNo s) (curDirtyFlag s) ok :: evs)
  ∧ (∀ (fuel : nat) (out : RID) (s : State) (p : Z) (pg : Page) st rid s',
      0 <= curPageNo s → curPage s = Some p → pages (bufMgr s) !! p = Some pg →
      filter (λ j, slotNo (curRec s) < j) (live pg) = [] → nextPage pg ≠ -1 →
      scanNext fuel out s = Val (st, rid, s') →
      ∃ ok ok' evs,
        trace (bufMgr s')
        = trace (bufMgr s)
          ++ EvUnPin (curPageNo s) (curDirtyFlag s) ok
             :: EvRead (nextPage pg) ok' :: evs).
Proof.
  split.
  - intros. eapply insertRecord_overflow_order; eassumption.
  - intros. eapply scanNext_crossing_order; eassumption.
Qed.

Lemma page_advance_pin_order_witness :
  (let s := snd (InsertFileScan_ctor full_first_page_file) in
   ∃ st rid s' ok evs,
     insertRecord 1024 20 big_rec NULLRID s = Val (st, rid, s')
     ∧ trace (bufMgr s') = trace (bufMgr s) ++ EvAlloc 3 :: EvUnPin 1 false ok :: evs)
  ∧ (let s0 := snd (HeapFileScan_ctor two_page_file) in
     let s1 := state_of (scanNext 5 NULLRID s0) s0 in
     ∃ ok ok' evs,
       trace (bufMgr (state_of (scanNext 5 NULLRID s1) s1))
       = trace (bufMgr s1) ++ EvUnPin 1 false ok :: EvRead 2 ok' :: evs).
Proof.
  split.
  - apply (proj1 page_advance_pin_order 1024 20 big_rec NULLRID
             (snd (InsertFileScan_ctor full_first_page_file))
             1 (mkPage 1 2 [Some big_rec])).
    + vm_compute. discriminate.
    + reflexivity.
    + reflexivity.
    + vm_compute. reflexivity.
  - apply (proj2 page_advance_pin_order 5%nat NULLRID
             (state_of (scanNext 5 NULLRID (snd (HeapFileScan_ctor two_page_file)))
                       (snd (HeapFileScan_ctor two_page_file)))
             1 (mkPage 1 2 [Some (int_rec 5)])
             OK (mkRID 2 0)).
    + vm_compute. discriminate.
    + reflexivity.
    + reflexivity.
    + reflexivity.
    + vm_compute. discriminate.
    + vm_compute. reflexivity.
Defined.

(** C3 as stated fails for [scanNext]: crossing from page 1 to page 2 the
    scan unpins page 1 before it pins page 2, and after the first of the
    two calls no data page is pinned. *)
Lemma scanNext_unpins_before_pinning :
  let s0 := snd (HeapFileScan_ctor two_page_file) in
  let s1 := state_of (scanNext 5 NULLRID s0) s0 in
  let s2 := state_of (scanNext 5 NULLRID s1) s1 in
  answer (scanNext 5 NULLRID s1) = Some (OK, mkRID 2 0)
  ∧ trace (bufMgr s2) = trace (bufMgr s1) ++ [EvUnPin 1 false true; EvRead 2 true]
  ∧ (let between := snd (unPinPage (curPageNo s1) (curDirtyFlag s1) (bufMgr s1)) in
     pins 1 between = 0%nat ∧ pins 2 between = 0%nat).
Proof. vm_compute. repeat split. Qed.

(** ** Defects *)

(** C2 at its failing input.  HeapFile::getRecord is asked for a record on
    page 9, which the file does not have: it unpins page 1, the read of
    page 9 fails, and the call returns with [curPage] still pointing at the
    frame of page 1.  The destructor then unpins page 1 a second time. *)
Theorem getRecord_failed_read_double_unpin :
  let h0 := snd (HeapFile_ctor one_record_file) in
  let r := HeapFile_getRecord (mkRID 9 0) rawRec h0 in
  let h1 := state_of r h0 in
  let h2 := HeapFile_dtor h1 in
  fst (HeapFile_ctor one_record_file) = OK
  ∧ answer r = Some (BADPAGENO, rawRec)
  ∧ curPage h1 = Some 1 ∧ curPageNo h1 = 1 ∧ pins 1 (bufMgr h1) = 0%nat
  ∧ trace (bufMgr h2)
    = [EvRead 0 true; EvRead 1 true; EvUnPin 1 false true; EvRead 9 false;
       EvUnPin 1 false false; EvUnPin 0 false true].
Proof. vm_compute. repeat split. Qed.

(** C6 at its failing input.  A newly opened InsertFileScan has the first
    page as its current page.  When that page is full and is not the last
    page, the overflow links the new page behind the first page: the old
    tail, page 2, keeps the terminator as its link and drops out of the
    chain, so that a later scan no longer finds its record. *)
Theorem insertRecord_overflow_from_first_page :
  let i0 := snd (InsertFileScan_ctor full_first_page_file) in
  let r := insertRecord 1024 20 big_rec NULLRID i0 in
  let i1 := state_of r i0 in
  let sc := snd (HeapFileScan_ctor (reopen (InsertFileScan_dtor i1))) in
  lastPage (headerPage i0) = 2
  ∧ answer r = Some (OK, mkRID 3 0)
  ∧ headerPage i1 = mkHdr 1 3 3 3
  ∧ nextPage <$> pages (bufMgr i1) !! 2 = Some (-1)
  ∧ nextPage <$> pages (bufMgr i1) !! 1 = Some 3
  ∧ (∃ s', scan_all 5 5 sc = Val ([mkRID 1 0; mkRID 3 0], FILEEOF, s')).
Proof. vm_compute. repeat split. eexists. reflexivity. Qed.

(** [deleteRecord] leaves [curRec] alone. *)
Lemma deleteRecord_curRec (s : State) st s' :
  deleteRecord s = Val (st, s') → curRec s' = curRec s.
Proof.
  unfold deleteRecord. destruct (curPage s); [ | discriminate ].
  destruct (deref s); [ | discriminate ].
  destruct (Page_deleteRecord (curRec s) p) as [st0 pg0].
  intros [= _ <-]. reflexivity.
Qed.

(** C7 at its failing input.  On a scan that has not produced a record yet
    [curRec] is the null RID, the page-level delete fails, and the record
    count and both dirty flags change all the same; so does a second
    [deleteRecord] on a record already deleted, which takes the count of an
    empty file to -1. *)
Theorem deleteRecord_failure_still_counts :
  let s0 := snd (HeapFileScan_ctor one_record_file) in
  let d0 := state_of (deleteRecord s0) s0 in
  let s1 := state_of (scanNext 5 NULLRID s0) s0 in
  let d1 := state_of (deleteRecord s1) s1 in
  let d2 := state_of (deleteRecord d1) d1 in
  (status_of (deleteRecord s0) = Some INVALIDSLOTNO
   ∧ recCnt (headerPage s0) = 1 ∧ recCnt (headerPage d0) = 0
   ∧ pages (bufMgr d0) = pages (bufMgr s0)
   ∧ (curDirtyFlag s0, hdrDirtyFlag s0) = (false, false)
   ∧ (curDirtyFlag d0, hdrDirtyFlag d0) = (true, true))
  ∧ (status_of (deleteRecord s1) = Some OK ∧ recCnt (headerPage d1) = 0
     ∧ status_of (deleteRecord d1) = Some INVALIDSLOTNO
     ∧ recCnt (headerPage d2) = -1
     ∧ curRec d2 = curRec s1).
Proof. vm_compute. repeat split. Qed.

(** ** Slots of a page *)

Lemma live_from_bounds (sl : list (option Rec)) : ∀ i j,
  j ∈ live_from i sl → i <= j.
Proof.
  induction sl as [| o t IH]; intros i j Hj; cbn [live_from] in Hj.
  - inversion Hj.
  - destruct o.
    + apply elem_of_cons in Hj as [-> | Hj]; [lia |]. apply IH in Hj. lia.
    + apply IH in Hj. lia.
Qed.

Lemma live_from_sorted (sl : list (option Rec)) : ∀ i,
  StronglySorted Z.lt (live_from i sl).
Proof.
  induction sl as [| o t IH]; intros i; cbn [live_from].
  - constructor.
  - destruct o; [ | apply IH ].
    constructor; [apply IH |].
    apply Forall_forall. intros j Hj. apply live_from_bounds in Hj. lia.
Qed.

Lemma live_from_slot (sl : list (option Rec)) : ∀ i j,
  j ∈ live_from i sl ↔ i <= j ∧ is_Some (mjoin (sl !! Z.to_nat (j - i))).
Proof.
  induction sl as [| o t IH]; intros i j; cbn [live_from].
  - split; [intros H; inversion H |]. intros [_ [r Hr]]. discriminate.
  - assert (Hstep : i + 1 <= j →
                    (o :: t) !! Z.to_nat (j - i) = t !! Z.to_nat (j - (i + 1))).
    { intros Hle. replace (Z.to_nat (j - i)) with (S (Z.to_nat (j - (i + 1)))) by lia.
      reflexivity. }
    destruct o as [r |].
    + rewrite elem_of_cons, IH. split.
      * intros [-> | [Hle Hs]].
        -- split; [lia |]. rewrite Z.sub_diag. simpl. eauto.
        -- split; [lia |]. rewrite Hstep by exact Hle. exact Hs.
      * intros [Hle Hs]. destruct (Z.eq_dec j i) as [-> | Hne]; [left; reflexivity |].
        right. split; [lia |]. rewrite <- Hstep by lia. exact Hs.
    + rewrite IH. split.
      * intros [Hle Hs]. split; [lia |]. rewrite Hstep by exact Hle. exact Hs.
      * intros [Hle Hs]. destruct (Z.eq_dec j i) as [-> | Hne].
        -- rewrite Z.sub_diag in Hs. destruct Hs as [r Hr]. discriminate.
        -- split; [lia |]. rewrite <- Hstep by lia. exact Hs.
Qed.

Lemma live_slot_at (pg : Page) (j : Z) : j ∈ live pg ↔ is_Some (slot_at j pg).
Proof.
  unfold live, slot_at. rewrite live_from_slot, Z.sub_0_r.
  destruct (Z.leb_spec 0 j) as [Hle | Hlt].
  - tauto.
  - split; [lia |]. intros [r Hr]. discriminate.
Qed.

Lemma filter_gt_all (c : Z) (L : list Z) :
  Forall (λ j, c < j) L → filter (λ j, c < j) L = L.
Proof.
  induction 1 as [| x L Hx _ IH]; [reflexivity |].
  rewrite filter_cons_True by exact Hx. rewrite IH. reflexivity.
Qed.

(** In an increasing list, the elements after the first one above [c] are
    the elements above that one. *)
Lemma filter_gt_next (c j : Z) (L rest : list Z) :
  StronglySorted Z.lt L →
  filter (λ k, c < k) L = j :: rest → filter (λ k, j < k) L = rest.
Proof.
  induction 1 as [| x L HS IH Hx]; intros Hf; [discriminate |].
  destruct (decide (c < x)) as [Hc | Hc].
  - rewrite filter_cons_True in Hf by exact Hc. injection Hf as <- <-.
    rewrite filter_cons_False by lia.
    rewrite filter_gt_all.
    + symmetry. apply filter_gt_all. eapply Forall_impl; [exact Hx |]. simpl. lia.
    + exact Hx.
  - rewrite filter_cons_False in Hf by exact Hc.
    assert (Hj : c < j).
    { assert (Hin : j ∈ filter (λ k, c < k) L) by (rewrite Hf; left).
      apply list_elem_of_filter in Hin. tauto. }
    rewrite filter_cons_False by lia. apply IH. exact Hf.
Qed.

Lemma live_nonneg (pg : Page) : Forall (λ j, -1 < j) (live pg).
Proof.
  apply Forall_forall. intros j Hj. apply live_from_bounds in Hj. lia.
Qed.

Lemma live_sorted (pg : Page) : StronglySorted Z.lt (live pg).
Proof. apply live_from_sorted. Qed.

(** ** The scan loop on a well-formed chain *)

Lemma same_file_refl (s : State) : same_file s s.
Proof. unfold same_file. tauto. Qed.

Lemma same_file_trans (s1 s2 s3 : State) :
  same_file s1 s2 → same_file s2 s3 → same_file s1 s3.
Proof.
  unfold same_file. intros H1 H2.
  destruct H1 as (? & ? & ? & ? & ? & ? & ? & ? & ? & ?).
  destruct H2 as (? & ? & ? & ? & ? & ? & ? & ? & ? & ?).
  repeat split; congruence.
Qed.

Lemma matches_same (s s' : State) (rid : RID) :
  same_file s s' → matches s' rid = matches s rid.
Proof.
  intros (Hp & _ & _ & Ho & Hl & Ht & Hf & Hc & _).
  unfold matches, matchRec. rewrite Hp, Ho, Hl, Ht, Hf, Hc. reflexivity.
Qed.

Lemma skip_unmatched_ext (m m' : RID → bool) (rs : list RID) :
  (∀ rid, m rid = m' rid) → skip_unmatched m rs = skip_unmatched m' rs.
Proof.
  intros He. induction rs as [| rid rest IH]; [reflexivity |].
  cbn [skip_unmatched]. rewrite He, IH. reflexivity.
Qed.

Lemma examine_live (out : RID) (s : State) (pg : Page) :
  deref s = Some pg → slotNo (curRec s) ∈ live pg →
  ∃ r, slot_at (slotNo (curRec s)) pg = Some r
       ∧ examine out s = Val (if matchRec r s then Some (OK, curRec s, s) else None).
Proof.
  intros Hd Hj. apply live_slot_at in Hj as [r Hr]. exists r. split; [exact Hr |].
  unfold examine, Page_getRecord. rewrite Hd, Hr. destruct (matchRec r s); reflexivity.
Qed.

Lemma matches_on_page (s : State) (pg : Page) (j : Z) (r : Rec) :
  pages (bufMgr s) !! pageId pg = Some pg → slot_at j pg = Some r →
  matches s (mkRID (pageId pg) j) = matchRec r s.
Proof.
  intros Hp Hr. unfold matches, rec_at. cbn [pageNo slotNo]. rewrite Hp, Hr. reflexivity.
Qed.

Lemma positioned_deref (s : State) (pg : Page) (l : list Page) :
  positioned s pg l → deref s = Some pg.
Proof.
  intros (Hcp & _ & Hch & _). cbn [chain] in Hch. destruct Hch as (_ & Hlk & _).
  unfold deref. rewrite Hcp. exact Hlk.
Qed.

Lemma all_rids_cons (pg : Page) (l : list Page) :
  all_rids (pg :: l) = rids_of pg ++ all_rids l.
Proof. reflexivity. Qed.

(** A step of the loop that stays on the page: the cursor moves to the
    next live slot [j]. *)
Lemma positioned_step (s : State) (pg : Page) (l : list Page) (j : Z) (rest : list Z) :
  positioned s pg l →
  filter (λ k, slotNo (curRec s) < k) (live pg) = j :: rest →
  let s1 := set_curRec (mkRID (pageId pg) j) s in
  positioned s1 pg l ∧ same_file s s1
  ∧ remaining s1 pg l = (mkRID (pageId pg) <$> rest) ++ all_rids l
  ∧ j ∈ live pg.
Proof.
  intros Hpos Hf s1. split; [unfold positioned in *; simpl; exact Hpos |].
  split; [unfold same_file; simpl; tauto |]. split.
  - unfold remaining. cbn [s1 curRec set_curRec slotNo].
    rewrite (filter_gt_next _ _ _ _ (live_sorted pg) Hf). reflexivity.
  - assert (Hin : j ∈ filter (λ k, slotNo (curRec s) < k) (live pg)) by (rewrite Hf; left).
    apply list_elem_of_filter in Hin. tauto.
Qed.

Lemma pins_insert (p : Z) (n : nat) (bm bm' : BufMgr) :
  pinCnt bm' = <[p := n]> (pinCnt bm) → pins p bm' = n.
Proof. intros H. unfold pins. rewrite H, lookup_insert_eq. reflexivity. Qed.

(** From a positioned scan the loop returns the first record among the
    remaining ones that satisfies the filter, or FILEEOF when there is
    none, and leaves the scan positioned on that record's page. *)
Lemma scanNext_loop_spec (fuel : nat) : ∀ (s : State) (pg : Page) (l : list Page) (out : RID),
  positioned s pg l →
  (length (remaining s pg l) + length l < fuel)%nat →
  ∃ s' pg' l',
    positioned s' pg' l' ∧ same_file s s' ∧ (length l' <= length l)%nat
    ∧ match skip_unmatched (matches s) (remaining s pg l) with
      | [] =>
          scanNext_loop fuel out s = Val (FILEEOF, out, s')
          ∧ remaining s' pg' l' = []
      | rid :: rest =>
          scanNext_loop fuel out s = Val (OK, rid, s')
          ∧ curRec s' = rid ∧ remaining s' pg' l' = rest
      end.
Proof.
  induction fuel as [| fuel IH]; intros s pg l out Hpos Hfuel; [lia |].
  pose proof (positioned_deref _ _ _ Hpos) as Hd.
  pose proof Hpos as (Hcp & Hno & Hch & Hpin).
  cbn [chain] in Hch. destruct Hch as (Hge & Hlk & _ & Hnext).
  cbn [scanNext_loop]. rewrite Hd. unfold Page_nextRecord, Page_getNextPage.
  destruct (filter (λ j, slotNo (curRec s) < j) (live pg)) as [| j rest] eqn:Hf.
  - (* the page has no further record *)
    assert (Hrem : remaining s pg l = all_rids l).
    { unfold remaining. rewrite Hf. reflexivity. }
    destruct l as [| pg2 l2].
    + cbn [chain] in Hnext. rewrite Hnext. cbn [Z.eqb].
      exists s, pg, []. rewrite Hrem. cbn [skip_unmatched all_rids mbind list_bind].
      split; [exact Hpos |]. split; [apply same_file_refl |]. split; [lia |].
      split; reflexivity.
    + cbn [chain] in Hnext. destruct Hnext as (Hge2 & Hlk2 & Hid2 & Hnext2).
      destruct (Z.eqb_spec (nextPage pg) (-1)) as [Hn | _]; [lia |].
      destruct (unPinPage (curPageNo s) (curDirtyFlag s) (bufMgr s)) as [ust ubm] eqn:Hu.
      apply unPinPage_inv in Hu as (Hup & Huh & _ & _).
      cbn [curPageNo set_curPageNo set_curPage set_bufMgr curPage bufMgr].
      destruct (readPage (nextPage pg) None ubm) as [[rst rptr] rbm] eqn:Hr.
      apply readPage_inv in Hr as (Hrp & Hrh & _ & Hr).
      destruct Hr as [(-> & -> & _ & Hrc & _) | (_ & _ & He & _)].
      2: { unfold page_exists in He. rewrite Hup, Hlk2 in He.
           rewrite (bool_decide_eq_true_2 (is_Some (Some pg2))) in He by eauto.
           rewrite orb_true_r in He. discriminate. }
      set (s4 := set_curRec NULLRID (set_curDirtyFlag false
                   (set_curPage (Some (nextPage pg)) (set_bufMgr rbm
                     (set_curPageNo (nextPage pg) (set_curPage None (set_bufMgr ubm s))))))).
      assert (Hp4 : positioned s4 pg2 l2).
      { unfold positioned. cbn [s4 curPage curPageNo bufMgr set_curRec set_curDirtyFlag
                                set_curPage set_bufMgr set_curPageNo].
        rewrite Hid2, Hrp, Hup. split; [reflexivity |]. split; [reflexivity |].
        split; [cbn [chain]; tauto |].
        rewrite (pins_insert _ _ _ _ Hrc). lia. }
      assert (Hs4 : same_file s s4).
      { unfold same_file. cbn [s4 curPage curPageNo bufMgr set_curRec set_curDirtyFlag
                               set_curPage set_bufMgr set_curPageNo headerPage sc_offset
                               sc_length sc_type sc_filter sc_op markedPageNo markedRec].
        rewrite Hrp, Hrh, Hup, Huh. tauto. }
      pose proof (positioned_deref _ _ _ Hp4) as Hd4. rewrite Hd4.
      unfold Page_firstRecord.
      assert (Hall : filter (λ k, slotNo (curRec s4) < k) (live pg2) = live pg2).
      { apply filter_gt_all. apply live_nonneg. }
      rewrite Hrem, all_rids_cons. unfold rids_of.
      destruct (live pg2) as [| j2 rest2] eqn:Hl2.
      * (* the next page is empty: the loop goes on *)
        cbn [fmap list_fmap app].
        assert (Hp5 : positioned (set_curRec (curRec s4) s4) pg2 l2)
          by (unfold positioned in *; simpl; exact Hp4).
        destruct (IH (set_curRec (curRec s4) s4) pg2 l2 out Hp5) as (s' & pg' & l' & H1 & H2 & H3 & H4).
        { unfold remaining. cbn [curRec set_curRec]. rewrite Hl2.
          rewrite Hrem, all_rids_cons in Hfuel. unfold rids_of in Hfuel.
          rewrite Hl2 in Hfuel. cbn [fmap list_fmap app length filter list_filter] in *. lia. }
        exists s', pg', l'. split; [exact H1 |].
        split; [eapply same_file_trans; [exact Hs4 | exact H2] |].
        split; [cbn [length]; lia |].
        assert (Hrem5 : remaining (set_curRec (curRec s4) s4) pg2 l2 = all_rids l2).
        { unfold remaining. cbn [curRec set_curRec]. rewrite Hl2. reflexivity. }
        rewrite Hrem5 in H4.
        rewrite (skip_unmatched_ext _ (matches s)) in H4
          by (intros rid; apply matches_same; exact Hs4).
        exact H4.
      * (* the next page has a first record *)
        set (s5 := set_curRec (mkRID (pageId pg2) j2) s4).
        assert (Hp5 : positioned s5 pg2 l2) by (unfold positioned in *; simpl; exact Hp4).
        assert (Hs5 : same_file s s5) by (unfold same_file in *; simpl; exact Hs4).
        assert (Hj2 : slotNo (curRec s5) ∈ live pg2) by (rewrite Hl2; left).
        destruct (examine_live out s5 pg2 (positioned_deref _ _ _ Hp5) Hj2)
          as (r & Hr & He).
        rewrite He. cbn [fmap list_fmap app skip_unmatched].
        assert (Hm : matches s (mkRID (pageId pg2) j2) = matchRec r s5).
        { rewrite <- (matches_same s s5) by exact Hs5.
          apply matches_on_page; [ | exact Hr ].
          destruct Hp5 as (_ & _ & Hc5 & _). cbn [chain] in Hc5. tauto. }
        rewrite Hm.
        assert (Hrem5 : remaining s5 pg2 l2 = (mkRID (pageId pg2) <$> rest2) ++ all_rids l2).
        { unfold remaining. cbn [s5 curRec set_curRec slotNo].
          rewrite (filter_gt_next (-1) j2 (live pg2) rest2 (live_sorted pg2)); [reflexivity |].
          rewrite filter_gt_all by apply live_nonneg. exact Hl2. }
        destruct (matchRec r s5).
        -- exists s5, pg2, l2. split; [exact Hp5 |]. split; [exact Hs5 |].
           split; [cbn [length]; lia |]. split; [reflexivity |]. split; [reflexivity |].
           exact Hrem5.
        -- destruct (IH s5 pg2 l2 out Hp5) as (s' & pg' & l' & H1 & H2 & H3 & H4).
           { rewrite Hrem5. rewrite Hrem, all_rids_cons in Hfuel. unfold rids_of in Hfuel.
             rewrite Hl2 in Hfuel.
             cbn [fmap list_fmap app length] in Hfuel.
             rewrite length_app, length_fmap in *. lia. }
           exists s', pg', l'. split; [exact H1 |].
           split; [eapply same_file_trans; [exact Hs5 | exact H2] |].
           split; [cbn [length]; lia |].
           rewrite Hrem5 in H4.
           rewrite (skip_unmatched_ext _ (matches s)) in H4
             by (intros rid; apply matches_same; exact Hs5).
           exact H4.
  - (* the page has a next record *)
    destruct (positioned_step s pg l j rest Hpos Hf) as (Hp1 & Hs1 & Hrem1 & Hj).
    set (s1 := set_curRec (mkRID (pageId pg) j) s) in *.
    assert (Hj1 : slotNo (curRec s1) ∈ live pg) by exact Hj.
    destruct (examine_live out s1 pg (positioned_deref _ _ _ Hp1) Hj1) as (r & Hr & He).
    rewrite He.
    assert (Hrem : remaining s pg l = mkRID (pageId pg) j :: remaining s1 pg l).
    { rewrite Hrem1. unfold remaining. rewrite Hf. reflexivity. }
    rewrite Hrem. cbn [skip_unmatched].
    assert (Hm : matches s (mkRID (pageId pg) j) = matchRec r s1).
    { rewrite <- (matches_same s s1) by exact Hs1.
      apply matches_on_page; [exact Hlk | exact Hr]. }
    rewrite Hm.
    destruct (matchRec r s1).
    + exists s1, pg, l. split; [exact Hp1 |]. split; [exact Hs1 |].
      split; [lia |]. split; [reflexivity |]. split; reflexivity.
    + destruct (IH s1 pg l out Hp1) as (s' & pg' & l' & H1 & H2 & H3 & H4).
      { rewrite Hrem in Hfuel. cbn [length] in Hfuel. lia. }
      exists s', pg', l'. split; [exact H1 |].
      split; [eapply same_file_trans; [exact Hs1 | exact H2] |].
      split; [exact H3 |].
      rewrite (skip_unmatched_ext _ (matches s)) in H4
        by (intros rid; apply matches_same; exact Hs1).
      exact H4.
Qed.

(** ** Chains have no repeated page *)

Lemma chain_functional (pgs : gmap Z Page) (l1 : list Page) : ∀ (p : Z) (l2 : list Page),
  chain pgs p l1 → chain pgs p l2 → l1 = l2.
Proof.
  induction l1 as [| pg1 l1 IH]; intros p l2 H1 H2.
  - destruct l2 as [| pg2 l2]; [reflexivity |].
    cbn [chain] in H1, H2. lia.
  - destruct l2 as [| pg2 l2]; cbn [chain] in H1, H2; [lia |].
    destruct H1 as (_ & Hl1 & _ & Hn1). destruct H2 as (_ & Hl2 & _ & Hn2).
    rewrite Hl1 in Hl2. injection Hl2 as <-.
    f_equal. eapply IH; eassumption.
Qed.

Lemma chain_suffix (pgs : gmap Z Page) (l1 : list Page) : ∀ (p : Z) (pg : Page) (l2 : list Page),
  chain pgs p (l1 ++ pg :: l2) → chain pgs (pageId pg) (pg :: l2).
Proof.
  induction l1 as [| pg1 l1 IH]; intros p pg l2 H.
  - cbn [app chain] in H. destruct H as (Hge & Hl & Hid & Hn).
    cbn [chain]. rewrite Hid. tauto.
  - cbn [app chain] in H. destruct H as (_ & _ & _ & Hn). eapply IH. exact Hn.
Qed.

Lemma chain_head_fresh (pgs : gmap Z Page) (p : Z) (pg : Page) (l : list Page) :
  chain pgs p (pg :: l) → ∀ q, q ∈ l → pageId q ≠ pageId pg.
Proof.
  intros H q Hq Heq.
  apply list_elem_of_split in Hq as (l1 & l2 & ->).
  assert (H1 : chain pgs (pageId pg) (pg :: l1 ++ q :: l2)).
  { cbn [chain] in H. destruct H as (Hge & Hl & Hid & Hn). cbn [chain].
    rewrite Hid. tauto. }
  assert (H2 : chain pgs (pageId pg) (q :: l2)).
  { rewrite <- Heq. cbn [chain] in H. destruct H as (_ & _ & _ & Hn).
    eapply chain_suffix. exact Hn. }
  pose proof (chain_functional _ _ _ _ H1 H2) as He.
  apply (f_equal length) in He. cbn [length] in He. rewrite length_app in He.
  cbn [length] in He. lia.
Qed.

Lemma sorted_NoDup (L : list Z) : StronglySorted Z.lt L → NoDup L.
Proof.
  induction 1 as [| x L _ IH Hx]; constructor; [ | exact IH ].
  intros Hin. rewrite Forall_forall in Hx. apply Hx in Hin. lia.
Qed.

Lemma elem_of_rids_of (rid : RID) (pg : Page) :
  rid ∈ rids_of pg ↔ pageNo rid = pageId pg ∧ is_Some (slot_at (slotNo rid) pg).
Proof.
  unfold rids_of. rewrite list_elem_of_fmap. split.
  - intros (j & -> & Hj). split; [reflexivity |]. apply live_slot_at. exact Hj.
  - intros [Hp Hs]. exists (slotNo rid). split.
    + destruct rid as [p j]. cbn [pageNo slotNo] in *. rewrite Hp. reflexivity.
    + apply live_slot_at. exact Hs.
Qed.

Lemma elem_of_all_rids (rid : RID) (l : list Page) :
  rid ∈ all_rids l
  ↔ ∃ q, q ∈ l ∧ pageNo rid = pageId q ∧ is_Some (slot_at (slotNo rid) q).
Proof.
  unfold all_rids. rewrite list_elem_of_bind. split.
  - intros (q & Hr & Hq). exists q. split; [exact Hq |]. apply elem_of_rids_of. exact Hr.
  - intros (q & Hq & Hr). exists q. split; [ | exact Hq ]. apply elem_of_rids_of. exact Hr.
Qed.

Lemma all_rids_NoDup (pgs : gmap Z Page) (l : list Page) : ∀ p,
  chain pgs p l → NoDup (all_rids l).
Proof.
  induction l as [| pg l IH]; intros p H.
  - constructor.
  - rewrite all_rids_cons. apply NoDup_app. split; [ | split ].
    + unfold rids_of. apply NoDup_fmap_2.
      * intros j1 j2 [= ->]. reflexivity.
      * apply sorted_NoDup, live_sorted.
    + intros rid H1 H2. apply elem_of_rids_of in H1 as [Hp1 _].
      apply elem_of_all_rids in H2 as (q & Hq & Hp2 & _).
      apply (chain_head_fresh _ _ _ _ H q Hq). congruence.
    + cbn [chain] in H. destruct H as (_ & _ & _ & Hn). eapply IH. exact Hn.
Qed.

(** ** A full scan *)

Lemma positioned_scanNext (fuel : nat) (out : RID) (s : State) (pg : Page) (l : list Page) :
  positioned s pg l → scanNext fuel out s = scanNext_loop fuel out s.
Proof.
  intros (Hcp & Hno & Hch & _). cbn [chain] in Hch. unfold scanNext.
  destruct (Z.ltb_spec (curPageNo s) 0); [lia |]. rewrite Hcp. reflexivity.
Qed.

Lemma unfiltered_skip (s : State) (rs : list RID) :
  sc_filter s = None → skip_unmatched (matches s) rs = rs.
Proof.
  intros Hf. destruct rs as [| rid rest]; [reflexivity |].
  cbn [skip_unmatched]. unfold matches, matchRec. rewrite Hf. reflexivity.
Qed.

Lemma scan_all_unfiltered (n : nat) : ∀ (s : State) (pg : Page) (l : list Page) (fuel : nat),
  positioned s pg l → sc_filter s = None →
  (length (remaining s pg l) < n)%nat →
  (length (remaining s pg l) + length l < fuel)%nat →
  ∃ s', scan_all n fuel s = Val (remaining s pg l, FILEEOF, s').
Proof.
  induction n as [| n IH]; intros s pg l fuel Hpos Hf Hn Hfuel; [lia |].
  cbn [scan_all]. rewrite (positioned_scanNext _ _ _ _ _ Hpos).
  destruct (scanNext_loop_spec fuel s pg l NULLRID Hpos Hfuel)
    as (s' & pg' & l' & Hp' & Hs' & Hl' & Hres).
  rewrite (unfiltered_skip _ _ Hf) in Hres.
  destruct (remaining s pg l) as [| rid rest] eqn:Hrem.
  - destruct Hres as [-> _]. eauto.
  - destruct Hres as (-> & _ & Hrest).
    assert (Hf' : sc_filter s' = None).
    { destruct Hs' as (_ & _ & _ & _ & _ & _ & -> & _). exact Hf. }
    destruct (IH s' pg' l' fuel Hp' Hf') as [s'' Hall].
    + rewrite Hrest. cbn [length] in Hn. lia.
    + rewrite Hrest. cbn [length] in Hfuel. lia.
    + rewrite Hall, Hrest. eauto.
Qed.

(** The constructor leaves the scan positioned before the first record of
    the first page. *)
Lemma HeapFileScan_ctor_positioned (raw : State) (pg : Page) (l : list Page) :
  chain (pages (bufMgr raw)) (firstPage (headerPage raw)) (pg :: l) →
  ∃ s0, HeapFileScan_ctor raw = (OK, s0)
        ∧ positioned s0 pg l ∧ curRec s0 = NULLRID ∧ sc_filter s0 = None
        ∧ pages (bufMgr s0) = pages (bufMgr raw) ∧ headerPage s0 = headerPage raw.
Proof.
  intros Hch. pose proof Hch as Hch'. cbn [chain] in Hch'.
  destruct Hch' as (Hge & Hlk & Hid & Hn).
  unfold HeapFileScan_ctor, HeapFile_ctor.
  cbn [headerPageNo set_headerPageNo bufMgr].
  destruct (readPage (hdrPageNo (bufMgr raw)) (Some (hdrPageNo (bufMgr raw))) (bufMgr raw))
    as [[st1 ptr1] bm1] eqn:Hr1.
  apply readPage_inv in Hr1 as (Hp1 & Hh1 & _ & Hr1).
  destruct Hr1 as [(-> & _) | (_ & _ & He & _)].
  2: { unfold page_exists in He.
       rewrite (bool_decide_eq_true_2 _ eq_refl) in He. discriminate. }
  cbn [headerPage set_bufMgr set_hdrDirtyFlag set_curPageNo curPageNo curPage bufMgr
       set_headerPageNo].
  destruct (readPage (firstPage (headerPage raw)) (curPage raw) bm1)
    as [[st2 ptr2] bm2] eqn:Hr2.
  apply readPage_inv in Hr2 as (Hp2 & Hh2 & _ & Hr2).
  destruct Hr2 as [(-> & -> & _ & Hc2 & _) | (_ & _ & He & _)].
  2: { unfold page_exists in He. rewrite Hp1, Hlk in He.
       rewrite (bool_decide_eq_true_2 (is_Some (Some pg))) in He by eauto.
       rewrite orb_true_r in He. discriminate. }
  eexists. split; [reflexivity |].
  unfold positioned. cbn -[chain pins]. rewrite Hp2, Hp1, <- Hid.
  split; [ | tauto ].
  split; [reflexivity |]. split; [reflexivity |]. split.
  - rewrite Hid. exact Hch.
  - rewrite Hid, (pins_insert _ _ _ _ Hc2). lia.
Qed.

(** ** Mark and reset *)

Lemma skip_unmatched_length (m : RID → bool) (rs : list RID) :
  (length (skip_unmatched m rs) <= length rs)%nat.
Proof.
  induction rs as [| rid rest IH]; [reflexivity |].
  cbn [skip_unmatched]. destruct (m rid); cbn [length]; lia.
Qed.

Lemma scanNext_positioned (fuel : nat) (s : State) (pg : Page) (l : list Page) (out : RID) :
  positioned s pg l →
  (length (remaining s pg l) + length l < fuel)%nat →
  ∃ st rid s' pg' l',
    scanNext fuel out s = Val (st, rid, s')
    ∧ answer (scanNext fuel out s) = expected_answer s pg l out
    ∧ positioned s' pg' l' ∧ same_file s s'
    ∧ (length (remaining s' pg' l') + length l' <= length (remaining s pg l) + length l)%nat.
Proof.
  intros Hpos Hfuel. rewrite (positioned_scanNext _ _ _ _ _ Hpos).
  destruct (scanNext_loop_spec fuel s pg l out Hpos Hfuel)
    as (s' & pg' & l' & Hp' & Hs' & Hl' & Hres).
  unfold expected_answer.
  pose proof (skip_unmatched_length (matches s) (remaining s pg l)) as Hlen.
  destruct (skip_unmatched (matches s) (remaining s pg l)) as [| rid rest].
  - destruct Hres as [Hrun Hrem]. exists FILEEOF, out, s', pg', l'.
    rewrite Hrun, Hrem. cbn [answer length].
    split; [reflexivity |]. split; [reflexivity |]. split; [exact Hp' |].
    split; [exact Hs' |]. lia.
  - destruct Hres as (Hrun & _ & Hrem). exists OK, rid, s', pg', l'.
    rewrite Hrun, Hrem. cbn [answer length] in *.
    split; [reflexivity |]. split; [reflexivity |]. split; [exact Hp' |].
    split; [exact Hs' |]. lia.
Qed.

Lemma scan_n_positioned (n : nat) : ∀ (fuel : nat) (s : State) (pg : Page) (l : list Page),
  positioned s pg l →
  (length (remaining s pg l) + length l < fuel)%nat →
  ∃ sn pgn ln,
    scan_n n fuel s = Val sn ∧ positioned sn pgn ln ∧ same_file s sn
    ∧ (length (remaining sn pgn ln) + length ln
       <= length (remaining s pg l) + length l)%nat.
Proof.
  induction n as [| n IH]; intros fuel s pg l Hpos Hfuel.
  - exists s, pg, l. split; [reflexivity |]. split; [exact Hpos |].
    split; [apply same_file_refl | lia].
  - cbn [scan_n].
    destruct (scanNext_positioned fuel s pg l NULLRID Hpos Hfuel)
      as (st & rid & s' & pg' & l' & Hrun & _ & Hp' & Hs' & Hm).
    rewrite Hrun.
    destruct (IH fuel s' pg' l' Hp') as (sn & pgn & ln & Hn & Hpn & Hsn & Hmn); [lia |].
    exists sn, pgn, ln. split; [exact Hn |]. split; [exact Hpn |].
    split; [eapply same_file_trans; eassumption | lia].
Qed.

(** Every position a scan reaches from a newly opened handle is a
    positioned one. *)
Lemma reached_positioned (raw : State) (pg : Page) (l : list Page) (k fuel : nat) :
  chain (pages (bufMgr raw)) (firstPage (headerPage raw)) (pg :: l) →
  (length (all_rids (pg :: l)) + length l < fuel)%nat →
  ∃ s0 sk pgk lk,
    HeapFileScan_ctor raw = (OK, s0) ∧ scan_n k fuel s0 = Val sk
    ∧ positioned sk pgk lk
    ∧ (length (remaining sk pgk lk) + length lk < fuel)%nat.
Proof.
  intros Hch Hfuel.
  destruct (HeapFileScan_ctor_positioned raw pg l Hch)
    as (s0 & Hctor & Hpos & Hrec & _).
  assert (Hrem : remaining s0 pg l = all_rids (pg :: l)).
  { unfold remaining. rewrite Hrec. cbn [NULLRID slotNo].
    rewrite filter_gt_all by apply live_nonneg. reflexivity. }
  destruct (scan_n_positioned k fuel s0 pg l Hpos) as (sk & pgk & lk & Hk & Hpk & _ & Hm).
  { rewrite Hrem. exact Hfuel. }
  exists s0, sk, pgk, lk. split; [exact Hctor |]. split; [exact Hk |].
  split; [exact Hpk |]. rewrite Hrem in Hm. lia.
Qed.

(** [resetScan] at a positioned scan whose mark was taken at the
    positioned state [s]. *)
Lemma resetScan_restores (s sn : State) (pg pgn : Page) (l ln : list Page) :
  positioned s pg l → positioned sn pgn ln →
  pages (bufMgr sn) = pages (bufMgr s) →
  markedPageNo sn = curPageNo s → markedRec sn = curRec s →
  ∃ sr, resetScan sn = (OK, sr)
        ∧ positioned sr pg l
        ∧ curPage sr = curPage s ∧ curPageNo sr = curPageNo s ∧ curRec sr = curRec s
        ∧ same_file sn sr.
Proof.
  intros Hpos Hposn Hpg Hmp Hmr.
  pose proof Hpos as (Hcp & Hno & Hch & Hpin).
  pose proof Hposn as (Hcpn & Hnon & Hchn & Hpinn).
  unfold resetScan.
  destruct (decide (markedPageNo sn = curPageNo sn)) as [Heq | Hne].
  - rewrite bool_decide_eq_false_2 by tauto.
    assert (Hid : pageId pgn = pageId pg) by congruence.
    eexists. split; [reflexivity |].
    split; [ | split; [ | split; [ | split ] ] ].
    + unfold positioned. cbn -[chain pins]. rewrite Hcpn, Hnon, Hid, Hpg.
      rewrite Hid in Hpinn.
      split; [reflexivity |]. split; [reflexivity |]. split; [exact Hch | exact Hpinn].
    + cbn. congruence.
    + cbn. congruence.
    + cbn. congruence.
    + unfold same_file. cbn. tauto.
  - rewrite bool_decide_eq_true_2 by exact Hne. rewrite Hcpn.
    destruct (unPinPage (curPageNo sn) (curDirtyFlag sn) (bufMgr sn)) as [ust ubm] eqn:Hu.
    apply unPinPage_inv in Hu as (Hup & Huh & _ & Hu).
    destruct Hu as [(-> & _) | (_ & Hz & _)]; [ | rewrite Hnon in Hz; lia ].
    cbn [markedRec markedPageNo curPageNo curPage bufMgr set_bufMgr set_curPageNo set_curRec].
    rewrite Hmp, Hno, ?Hcpn.
    destruct (readPage (pageId pg) (Some (pageId pgn)) ubm) as [[rst rptr] rbm] eqn:Hr.
    apply readPage_inv in Hr as (Hrp & Hrh & _ & Hr).
    cbn [chain] in Hch. destruct Hch as (Hge & Hlk & Hid' & Hnx).
    destruct Hr as [(-> & -> & _ & Hrc & _) | (_ & _ & He & _)].
    2: { unfold page_exists in He. rewrite Hup, Hpg, Hlk in He.
         rewrite (bool_decide_eq_true_2 (is_Some (Some pg))) in He by eauto.
         rewrite orb_true_r in He. discriminate. }
    eexists. split; [reflexivity |].
    split; [ | split; [ | split; [ | split ] ] ].
    + unfold positioned. cbn -[chain pins]. rewrite Hrp, Hup, Hpg.
      split; [reflexivity |]. split; [reflexivity |].
      split; [cbn [chain]; tauto |].
      rewrite (pins_insert _ _ _ _ Hrc). lia.
    + cbn. congruence.
    + cbn. congruence.
    + cbn. congruence.
    + unfold same_file. cbn. rewrite Hrp, Hrh, Hup, Huh. tauto.
Qed.

(** C5.  Mark a positioned scan, call [scanNext] any number of times, then
    [resetScan]: the reset succeeds, current page and [curRec] are those of
    the marked position, and the next [scanNext] answers what it would have
    answered at the marked position, namely the first record after it that
    satisfies the filter.  When the marked page is the current page,
    [resetScan] changes [curRec] and nothing else, the trace of
    buffer-manager calls included. *)
Theorem mark_reset_law :
  (∀ (s : State) (pg : Page) (l : list Page) (n fuel : nat) (out : RID),
      positioned s pg l →
      (length (remaining s pg l) + length l < fuel)%nat →
      ∃ sn sr,
        scan_n n fuel (snd (markScan s)) = Val sn
        ∧ resetScan sn = (OK, sr)
        ∧ curPage sr = curPage s ∧ curPageNo sr = curPageNo s ∧ curRec sr = curRec s
        ∧ answer (scanNext fuel out sr) = answer (scanNext fuel out s)
        ∧ answer (scanNext fuel out s) = expected_answer s pg l out)
  ∧ (∀ s : State, markedPageNo s = curPageNo s →
       resetScan s = (OK, set_curRec (markedRec s) s)).
Proof.
  split.
  - intros s pg l n fuel out Hpos Hfuel. cbn [markScan snd].
    set (sm := set_mark (curPageNo s) (curRec s) s).
    assert (Hposm : positioned sm pg l) by (unfold positioned in *; simpl; exact Hpos).
    assert (Hremm : remaining sm pg l = remaining s pg l) by reflexivity.
    destruct (scan_n_positioned n fuel sm pg l Hposm)
      as (sn & pgn & ln & Hn & Hpn & Hsn & _).
    { rewrite Hremm. exact Hfuel. }
    pose proof Hsn as (Hsp & _ & _ & _ & _ & _ & _ & _ & Hmp & Hmr).
    destruct (resetScan_restores s sn pg pgn l ln Hpos Hpn Hsp Hmp Hmr)
      as (sr & Hreset & Hposr & Hr1 & Hr2 & Hr3 & Hsr).
    exists sn, sr. split; [exact Hn |]. split; [exact Hreset |].
    split; [exact Hr1 |]. split; [exact Hr2 |]. split; [exact Hr3 |].
    assert (Hremr : remaining sr pg l = remaining s pg l).
    { unfold remaining. rewrite Hr3. reflexivity. }
    destruct (scanNext_positioned fuel s pg l out Hpos Hfuel)
      as (_ & _ & _ & _ & _ & _ & Hans & _).
    destruct (scanNext_positioned fuel sr pg l out Hposr)
      as (_ & _ & _ & _ & _ & _ & Hansr & _).
    { rewrite Hremr. exact Hfuel. }
    split; [ | exact Hans ].
    rewrite Hansr, Hans. unfold expected_answer. rewrite Hremr.
    rewrite (skip_unmatched_ext (matches sr) (matches s)); [reflexivity |].
    intros rid. rewrite (matches_same sm sr) by (eapply same_file_trans; eassumption).
    reflexivity.
  - intros s Heq. unfold resetScan.
    rewrite bool_decide_eq_false_2 by tauto. reflexivity.
Qed.

Lemma mark_reset_law_witness :
  let s0 := snd (HeapFileScan_ctor two_page_file) in
  let s1 := state_of (scanNext 5 NULLRID s0) s0 in
  (∃ sn sr,
      scan_n 1 5 (snd (markScan s1)) = Val sn
      ∧ resetScan sn = (OK, sr)
      ∧ curPage sr = Some 1 ∧ curPageNo sr = 1 ∧ curRec sr = mkRID 1 0
      ∧ answer (scanNext 5 NULLRID sr) = answer (scanNext 5 NULLRID s1)
      ∧ answer (scanNext 5 NULLRID s1) = Some (OK, mkRID 2 0))
  ∧ resetScan (snd (markScan s1)) = (OK, snd (markScan s1)).
Proof.
  split.
  - apply (proj1 mark_reset_law
             (state_of (scanNext 5 NULLRID (snd (HeapFileScan_ctor two_page_file)))
                       (snd (HeapFileScan_ctor two_page_file)))
             (mkPage 1 2 [Some (int_rec 5)]) [mkPage 2 (-1) [Some (int_rec 7)]]
             1%nat 5%nat NULLRID).
    + vm_compute. intuition (discriminate || lia).
    + vm_compute. lia.
  - vm_compute.
    match goal with
    | |- _ = (OK, ?S) => exact (proj2 mark_reset_law S eq_refl)
    end.
Defined.

(** * Further properties *)

(** ** Pin accounting *)

Lemma pins_after_insert (p q : Z) (n : nat) (bm bm' : BufMgr) :
  pinCnt bm' = <[p := n]> (pinCnt bm) →
  pins q bm' = if bool_decide (q = p) then n else pins q bm.
Proof.
  intros H. unfold pins. rewrite H. case_bool_decide as Hq.
  - subst q. rewrite lookup_insert_eq. reflexivity.
  - rewrite lookup_insert_ne by congruence. reflexivity.
Qed.

Lemma pins_agree_null (bm : BufMgr) (h c c' : Z) :
  pins_agree bm h None c → pins_agree bm h None c'.
Proof.
  intros (H1 & H2 & _ & H4 & H5 & H6).
  repeat split; try assumption; discriminate.
Qed.

(** Unpinning the current page of a handle in order succeeds and leaves
    the handle without a current page. *)
Lemma pins_agree_unpin (bm : BufMgr) (h p c : Z) (d : bool) :
  pins_agree bm h (Some p) c →
  ∃ bm', unPinPage c d bm = (OK, bm')
         ∧ (∀ c', pins_agree bm' h None c')
         ∧ pages bm' = pages bm ∧ hdrPageNo bm' = hdrPageNo bm
         ∧ numPages bm' = numPages bm
         ∧ trace bm' = trace bm ++ [EvUnPin c d true].
Proof.
  intros (H1 & H2 & H3 & H4 & H5 & H6).
  destruct (H3 p eq_refl) as [-> Hex].
  destruct (unPinPage p d bm) as [st bm'] eqn:Hu.
  apply unPinPage_inv in Hu as (Hp & Hh & Hn & Hu).
  destruct Hu as [(-> & (n & Hn1 & Hn2) & Ht) | (_ & Hz & _)].
  2: { rewrite H2 in Hz. unfold held in Hz.
       rewrite (bool_decide_eq_true_2 (Some p = Some p)) in Hz by reflexivity. lia. }
  exists bm'. split; [reflexivity |]. split; [ | tauto ].
  intros c'. split; [congruence |]. split; [ | split; [ | split; [ | split ] ] ].
  - intros q. rewrite (pins_after_insert _ _ _ _ _ Hn2).
    pose proof (H2 q) as Hq. rewrite (H2 p) in Hn1. unfold held in *.
    repeat case_bool_decide; simplify_eq; lia.
  - discriminate.
  - congruence.
  - intros q Hq. rewrite Hp in Hq. rewrite Hn. auto.
  - rewrite Ht. apply Forall_app. split; [exact H6 |]. repeat constructor.
Qed.

(** Reading a page into a handle without a current page: on success the
    page becomes the current page, on failure nothing is owed. *)
Lemma pins_agree_read (bm : BufMgr) (h c p : Z) (x : option Z) :
  pins_agree bm h None c →
  ∃ st ptr bm',
    readPage p x bm = (st, ptr, bm')
    ∧ pages bm' = pages bm ∧ hdrPageNo bm' = hdrPageNo bm ∧ numPages bm' = numPages bm
    ∧ ((st = OK ∧ ptr = Some p ∧ page_exists p bm = true ∧ pins_agree bm' h (Some p) p)
       ∨ (st = BADPAGENO ∧ ptr = x ∧ page_exists p bm = false
          ∧ ∀ c', pins_agree bm' h None c')).
Proof.
  intros (H1 & H2 & H3 & H4 & H5 & H6).
  destruct (readPage p x bm) as [[st ptr] bm'] eqn:Hr.
  apply readPage_inv in Hr as (Hp & Hh & Hn & Hr).
  exists st, ptr, bm'. split; [reflexivity |].
  split; [exact Hp |]. split; [exact Hh |]. split; [exact Hn |].
  destruct Hr as [(-> & -> & Hex & Hc & Ht) | (-> & -> & Hex & Hc & Ht)].
  - left. split; [reflexivity |]. split; [reflexivity |]. split; [exact Hex |].
    split; [congruence |]. split; [ | split; [ | split; [ | split ] ] ].
    + intros q. rewrite (pins_after_insert _ _ _ _ _ Hc).
      pose proof (H2 q) as Hq. pose proof (H2 p) as Hpp. unfold held in *.
      repeat case_bool_decide; simplify_eq; lia.
    + intros p' [= <-]. split; [reflexivity |].
      unfold page_exists in *. rewrite Hh, Hp. exact Hex.
    + congruence.
    + intros q Hq. rewrite Hp in Hq. rewrite Hn. auto.
    + rewrite Ht. apply Forall_app. split; [exact H6 |]. repeat constructor.
  - right. split; [reflexivity |]. split; [reflexivity |]. split; [exact Hex |].
    intros c'. split; [congruence |]. split; [ | split; [ | split; [ | split ] ] ].
    + intros q. unfold pins. rewrite Hc. apply H2.
    + discriminate.
    + congruence.
    + intros q Hq. rewrite Hp in Hq. rewrite Hn. auto.
    + rewrite Ht. apply Forall_app. split; [exact H6 |]. repeat constructor.
Qed.

(** Writing to the image of a page the file has changes no account. *)
Lemma pins_agree_store (bm : BufMgr) (h c p : Z) (cp : option Z) (pg : Page) :
  pins_agree bm h cp c → is_Some (pages bm !! p) → pins_agree (store p pg bm) h cp c.
Proof.
  intros (H1 & H2 & H3 & H4 & H5 & H6) Hp.
  split; [exact H1 |]. split; [exact H2 |]. split; [ | split; [exact H4 | split; [ | exact H6 ] ] ].
  - intros p' Hp'. destruct (H3 p' Hp') as [Hc Hex]. split; [exact Hc |].
    unfold page_exists, store in *. cbn [hdrPageNo pages].
    apply orb_true_iff in Hex as [Hex | Hex]; apply orb_true_iff; [left; exact Hex |].
    right. apply bool_decide_eq_true in Hex. apply bool_decide_eq_true.
    destruct (decide (p = p')) as [-> | Hne].
    + rewrite lookup_insert_eq. eauto.
    + rewrite lookup_insert_ne by exact Hne. exact Hex.
  - intros q Hq. cbn [store pages numPages] in *.
    destruct (decide (p = q)) as [-> | Hne].
    + apply H5. exact Hp.
    + rewrite lookup_insert_ne in Hq by exact Hne. apply H5. exact Hq.
Qed.

Lemma deref_curPage (s : State) (pg : Page) :
  deref s = Some pg → ∃ p, curPage s = Some p ∧ pages (bufMgr s) !! p = Some pg.
Proof.
  unfold deref. destruct (curPage s) as [p |]; [ | discriminate ]. eauto.
Qed.

Lemma scanNext_loop_handle_ok (fuel : nat) : ∀ (out : RID) (s : State) st rid s',
  handle_ok s → scanNext_loop fuel out s = Val (st, rid, s') → handle_ok s'.
Proof.
  induction fuel as [| fuel IH]; intros out s st rid s' Hok H; [discriminate |].
  cbn [scanNext_loop] in H.
  destruct (deref s) as [pg |] eqn:Hd; [ | discriminate ].
  destruct (deref_curPage _ _ Hd) as (p & Hp & _).
  unfold Page_nextRecord, Page_getNextPage in H.
  destruct (filter (λ j, slotNo (curRec s) < j) (live pg)) as [| j rest] eqn:Hf.
  - destruct (Z.eqb_spec (nextPage pg) (-1)) as [Hn | Hn].
    + injection H as _ _ <-. exact Hok.
    + unfold handle_ok in Hok. rewrite Hp in Hok.
      destruct (pins_agree_unpin _ _ _ _ (curDirtyFlag s) Hok)
        as (ubm & Hu & Hnull & _).
      rewrite Hu in H.
      cbn [curPageNo set_curPageNo set_curPage set_bufMgr curPage bufMgr] in H.
      destruct (pins_agree_read ubm (headerPageNo s) (nextPage pg) (nextPage pg) None
                  (Hnull _)) as (rst & rptr & rbm & Hr & _ & _ & _ & Hcase).
      rewrite Hr in H.
      destruct Hcase as [(-> & -> & _ & Hok') | (-> & -> & _ & Hok')].
      2: { injection H as _ _ <-. unfold handle_ok.
           cbn [bufMgr headerPageNo curPage curPageNo set_curPage set_bufMgr set_curPageNo].
           apply Hok'. }
      match type of H with
      | match deref ?x with _ => _ end = _ => destruct (deref x) as [pg' |]; [ | discriminate ]
      end.
      unfold Page_firstRecord in H.
      destruct (live pg') as [| j' rest'].
      * eapply IH; [ | exact H ]. exact Hok'.
      * match type of H with
        | match examine ?o ?x with _ => _ end = _ =>
            destruct (examine o x) as [[[[st1 rid1] s1] |] | |] eqn:He; try discriminate
        end.
        -- apply examine_inv in He as [-> _]. injection H as _ _ <-. exact Hok'.
        -- eapply IH; [ | exact H ]. exact Hok'.
  - match type of H with
    | match examine ?o ?x with _ => _ end = _ =>
        destruct (examine o x) as [[[[st1 rid1] s1] |] | |] eqn:He; try discriminate
    end.
    + apply examine_inv in He as [-> _]. injection H as _ _ <-. exact Hok.
    + eapply IH; [ | exact H ]. exact Hok.
Qed.

(** Whatever state a handle in order is in, [scanNext] leaves it in
    order. *)
Lemma scanNext_handle_ok (fuel : nat) (out : RID) (s : State) st rid s' :
  handle_ok s → scanNext fuel out s = Val (st, rid, s') → handle_ok s'.
Proof.
  intros Hok H. unfold scanNext in H.
  destruct (curPageNo s <? 0); [injection H as _ _ <-; exact Hok |].
  destruct (curPage s) as [p |] eqn:Hp.
  { eapply scanNext_loop_handle_ok; eassumption. }
  cbn [curPageNo set_curPageNo curPage bufMgr headerPage] in H. rewrite ?Hp in H.
  unfold handle_ok in Hok. rewrite Hp in Hok.
  destruct (firstPage (headerPage s) =? -1).
  { injection H as _ _ <-. unfold handle_ok.
    cbn [bufMgr headerPageNo curPage curPageNo set_curPageNo]. rewrite Hp.
    eapply pins_agree_null. exact Hok. }
  destruct (pins_agree_read (bufMgr s) (headerPageNo s) (curPageNo s)
              (firstPage (headerPage s)) None Hok)
    as (rst & rptr & rbm & Hr & _ & _ & _ & Hcase).
  rewrite Hr in H.
  destruct Hcase as [(-> & -> & _ & Hok') | (-> & -> & _ & Hok')].
  2: { injection H as _ _ <-. unfold handle_ok.
       cbn [bufMgr headerPageNo curPage curPageNo set_curPage set_bufMgr set_curPageNo].
       apply Hok'. }
  match type of H with
  | match deref ?x with _ => _ end = _ => destruct (deref x) as [pg' |]; [ | discriminate ]
  end.
  unfold Page_firstRecord in H.
  destruct (live pg') as [| j' rest'].
  - cbn [curPageNo curDirtyFlag bufMgr set_curRec set_curDirtyFlag set_curPage set_bufMgr
         set_curPageNo] in H.
    destruct (pins_agree_unpin _ _ _ _ false Hok') as (ubm & Hu & Hnull & _).
    rewrite Hu in H. injection H as _ _ <-. unfold handle_ok.
    cbn [bufMgr headerPageNo curPage curPageNo set_curPage set_bufMgr set_curPageNo
         set_curRec set_curDirtyFlag].
    apply Hnull.
  - match type of H with
    | match examine ?o ?x with _ => _ end = _ =>
        destruct (examine o x) as [[[[st1 rid1] s1] |] | |] eqn:He; try discriminate
    end.
    + apply examine_inv in He as [-> _]. injection H as _ _ <-. exact Hok'.
    + eapply scanNext_loop_handle_ok; [ | exact H ]. exact Hok'.
Qed.

Lemma endScan_handle_ok (s : State) :
  handle_ok s →
  ∃ s', endScan s = (OK, s') ∧ handle_ok s' ∧ curPage s' = None
        ∧ endScan s' = (OK, s').
Proof.
  intros Hok. unfold endScan. destruct (curPage s) as [p |] eqn:Hp.
  - unfold handle_ok in Hok. rewrite Hp in Hok.
    destruct (pins_agree_unpin _ _ _ _ (curDirtyFlag s) Hok) as (ubm & Hu & Hnull & _).
    rewrite Hu. eexists. split; [reflexivity |]. split; [ | split; reflexivity ].
    unfold handle_ok. cbn. apply Hnull.
  - exists s. split; [reflexivity |]. split; [exact Hok |].
    split; [exact Hp |]. unfold endScan. rewrite Hp. reflexivity.
Qed.

Lemma resetScan_handle_ok (s : State) st s' :
  handle_ok s → resetScan s = (st, s') → st ≠ BADPAGENO → st = OK ∧ handle_ok s'.
Proof.
  intros Hok H Hne. unfold resetScan in H.
  destruct (bool_decide (markedPageNo s ≠ curPageNo s)).
  2: { injection H as <- <-. split; [reflexivity | exact Hok]. }
  assert (Hstep : ∃ bm1, (match curPage s with
                          | Some _ =>
                              let '(status, bm) :=
                                unPinPage (curPageNo s) (curDirtyFlag s) (bufMgr s) in
                              (status, set_bufMgr bm s)
                          | None => (OK, s)
                          end) = (OK, set_bufMgr bm1 s)
                         ∧ ∀ c, pins_agree bm1 (headerPageNo s) None c).
  { unfold handle_ok in Hok. destruct (curPage s) as [p |] eqn:Hp.
    - destruct (pins_agree_unpin _ _ _ _ (curDirtyFlag s) Hok) as (ubm & Hu & Hnull & _).
      rewrite Hu. exists ubm. split; [reflexivity | exact Hnull].
    - exists (bufMgr s). split; [destruct s; reflexivity |].
      intros c. eapply pins_agree_null. exact Hok. }
  destruct Hstep as (bm1 & Heq & Hnull). rewrite Heq in H.
  cbn [markedRec markedPageNo curPageNo curPage bufMgr set_bufMgr set_curPageNo set_curRec] in H.
  destruct (pins_agree_read bm1 (headerPageNo s) 0 (markedPageNo s) (curPage s) (Hnull 0))
    as (rst & rptr & rbm & Hr & _ & _ & _ & Hcase).
  rewrite Hr in H.
  destruct Hcase as [(-> & -> & _ & Hok') | (-> & _)].
  - injection H as <- <-. split; [reflexivity |]. unfold handle_ok. cbn. exact Hok'.
  - injection H as <- _. congruence.
Qed.

Lemma HeapFile_getRecord_handle_ok (rid : RID) (rec : Rec) (s : State) st rec' s' :
  handle_ok s → HeapFile_getRecord rid rec s = Val (st, rec', s') →
  st ≠ BADPAGENO → handle_ok s'.
Proof.
  intros Hok H Hne. unfold HeapFile_getRecord in H.
  assert (Hfetch : ∀ x : State, handle_ok x →
            match deref x with
            | Some pg =>
                let '(status, rec0) := Page_getRecord rid rec pg in
                match status with
                | OK => Val (OK, rec0, set_curRec rid x)
                | _ => Val (status, rec0, x)
                end
            | None => NullDeref
            end = Val (st, rec', s') → handle_ok s').
  { intros x Hx Hf. destruct (deref x) as [pg |]; [ | discriminate ].
    unfold Page_getRecord in Hf. destruct (slot_at (slotNo rid) pg).
    - injection Hf as _ _ <-. exact Hx.
    - injection Hf as _ _ <-. exact Hx. }
  destruct (bool_decide (curPageNo s ≠ pageNo rid)); [ | eapply Hfetch; eassumption ].
  assert (Hstep : ∃ bm1, (match curPage s with
                          | Some _ =>
                              let '(status, bm) :=
                                unPinPage (curPageNo s) (curDirtyFlag s) (bufMgr s) in
                              (status, set_bufMgr bm s)
                          | None => (OK, s)
                          end) = (OK, set_bufMgr bm1 s)
                         ∧ ∀ c, pins_agree bm1 (headerPageNo s) None c).
  { unfold handle_ok in Hok. destruct (curPage s) as [p |] eqn:Hp.
    - destruct (pins_agree_unpin _ _ _ _ (curDirtyFlag s) Hok) as (ubm & Hu & Hnull & _).
      rewrite Hu. exists ubm. split; [reflexivity | exact Hnull].
    - exists (bufMgr s). split; [destruct s; reflexivity |].
      intros c. eapply pins_agree_null. exact Hok. }
  destruct Hstep as (bm1 & Heq & Hnull). rewrite Heq in H.
  cbn [curPage bufMgr set_bufMgr] in H.
  destruct (pins_agree_read bm1 (headerPageNo s) 0 (pageNo rid) (curPage s) (Hnull 0))
    as (rst & rptr & rbm & Hr & _ & _ & _ & Hcase).
  rewrite Hr in H.
  destruct Hcase as [(-> & -> & _ & Hok') | (-> & _)].
  - eapply Hfetch; [ | exact H ]. unfold handle_ok. cbn. exact Hok'.
  - injection H as <- _ _. congruence.
Qed.

Lemma deleteRecord_handle_ok (s : State) st s' :
  handle_ok s → deleteRecord s = Val (st, s') → handle_ok s'.
Proof.
  intros Hok H. unfold deleteRecord in H.
  destruct (curPage s) as [p |] eqn:Hp; [ | discriminate ].
  destruct (deref s) as [pg |] eqn:Hd; [ | discriminate ].
  destruct (Page_deleteRecord (curRec s) pg) as [st0 pg0].
  injection H as _ <-. unfold handle_ok in *. cbn. rewrite Hp in *.
  apply pins_agree_store; [exact Hok |].
  unfold deref in Hd. rewrite Hp in Hd. eauto.
Qed.

Lemma page_exists_lt (bm : BufMgr) (p : Z) :
  hdrPageNo bm < numPages bm → (∀ q, is_Some (pages bm !! q) → q < numPages bm) →
  page_exists p bm = true → p < numPages bm.
Proof.
  intros Hh Hq Hex. unfold page_exists in Hex.
  apply orb_true_iff in Hex as [Hex | Hex]; apply bool_decide_eq_true in Hex.
  - subst p. exact Hh.
  - apply Hq. exact Hex.
Qed.

Lemma page_exists_store (bm : BufMgr) (p q : Z) (pg : Page) :
  page_exists p bm = true → page_exists p (store q pg bm) = true.
Proof.
  unfold page_exists, store. cbn [hdrPageNo pages]. intros Hex.
  apply orb_true_iff in Hex as [Hex | Hex]; apply orb_true_iff; [left; exact Hex |].
  right. apply bool_decide_eq_true in Hex. apply bool_decide_eq_true.
  destruct (decide (q = p)) as [-> | Hne].
  - rewrite lookup_insert_eq. eauto.
  - rewrite lookup_insert_ne by exact Hne. exact Hex.
Qed.

Lemma allocPage_two_pinned (bm : BufMgr) (h p c : Z) st n ptr bm1 :
  pins_agree bm h (Some p) c → allocPage bm = (st, n, ptr, bm1) →
  st = OK ∧ n = numPages bm ∧ ptr = Some n ∧ two_pinned bm1 h p n
  ∧ trace bm1 = trace bm ++ [EvAlloc n].
Proof.
  intros (H1 & H2 & H3 & H4 & H5 & H6) Ha. unfold allocPage in Ha.
  injection Ha as <- <- <- <-.
  destruct (H3 p eq_refl) as [_ Hex].
  pose proof (page_exists_lt bm p H4 H5 Hex) as Hlt.
  split; [reflexivity |]. split; [reflexivity |]. split; [reflexivity |].
  split; [ | reflexivity ].
  unfold two_pinned. cbn [hdrPageNo pages pinCnt numPages trace].
  split; [exact H1 |]. split; [ | split; [ | split; [ | split; [ | split; [ | split; [ | split ] ] ] ] ] ].
  - intros q. unfold pins. cbn [pinCnt].
    pose proof (H2 q) as Hq. pose proof (H2 (numPages bm)) as Hn.
    unfold pins, held in *.
    destruct (decide (q = numPages bm)) as [-> | Hne].
    + rewrite lookup_insert_eq. unfold default, from_option, id.
      repeat case_bool_decide; simplify_eq; lia.
    + rewrite lookup_insert_ne by congruence.
      repeat case_bool_decide; simplify_eq; lia.
  - unfold page_exists in *. cbn [hdrPageNo pages].
    apply orb_true_iff in Hex as [Hex | Hex]; apply orb_true_iff; [left; exact Hex |].
    right. apply bool_decide_eq_true in Hex. apply bool_decide_eq_true.
    rewrite lookup_insert_ne by lia. exact Hex.
  - rewrite lookup_insert_eq. eauto.
  - lia.
  - lia.
  - lia.
  - intros q Hq. destruct (decide (numPages bm = q)) as [<- | Hne]; [lia |].
    rewrite lookup_insert_ne in Hq by exact Hne. apply H5 in Hq. lia.
  - apply Forall_app. split; [exact H6 |]. repeat constructor.
Qed.

Lemma two_pinned_store (bm : BufMgr) (h p np q : Z) (pg : Page) :
  two_pinned bm h p np → is_Some (pages bm !! q) → two_pinned (store q pg bm) h p np.
Proof.
  intros (H1 & H2 & H3 & H4 & H5 & H6 & H7 & H8 & H9) Hq.
  unfold two_pinned.
  split; [exact H1 |]. split; [exact H2 |].
  split; [apply page_exists_store; exact H3 |].
  split; [ | split; [exact H5 | split; [exact H6 | split; [exact H7 | split; [ | exact H9 ] ] ] ] ].
  - cbn [store pages]. destruct (decide (q = np)) as [-> | Hne].
    + rewrite lookup_insert_eq. eauto.
    + rewrite lookup_insert_ne by exact Hne. exact H4.
  - intros r Hr. cbn [store pages numPages] in *.
    destruct (decide (q = r)) as [-> | Hne]; [apply H8; exact Hq |].
    rewrite lookup_insert_ne in Hr by exact Hne. apply H8. exact Hr.
Qed.

Lemma two_pinned_unpin_old (bm : BufMgr) (h p np : Z) (d : bool) :
  two_pinned bm h p np →
  ∃ bm', unPinPage p d bm = (OK, bm') ∧ pins_agree bm' h (Some np) np
         ∧ pages bm' = pages bm
         ∧ trace bm' = trace bm ++ [EvUnPin p d true].
Proof.
  intros (H1 & H2 & H3 & H4 & H5 & H6 & H7 & H8 & H9).
  destruct (unPinPage p d bm) as [st bm'] eqn:Hu.
  apply unPinPage_inv in Hu as (Hp & Hh & Hn & Hu).
  destruct Hu as [(-> & (n & Hn1 & Hn2) & Ht) | (_ & Hz & _)].
  2: { rewrite H2 in Hz. unfold held in Hz.
       rewrite (bool_decide_eq_true_2 (Some p = Some p)) in Hz by reflexivity. lia. }
  exists bm'. split; [reflexivity |]. split; [ | split; [exact Hp | exact Ht] ].
  split; [congruence |]. split; [ | split; [ | split; [ | split ] ] ].
  - intros q. rewrite (pins_after_insert _ _ _ _ _ Hn2).
    pose proof (H2 q) as Hq. rewrite (H2 p) in Hn1. unfold held in *.
    repeat case_bool_decide; simplify_eq; lia.
  - intros p' [= <-]. split; [reflexivity |].
    unfold page_exists. rewrite Hp. apply orb_true_iff. right.
    apply bool_decide_eq_true. exact H4.
  - congruence.
  - intros q Hq. rewrite Hp in Hq. rewrite Hn. auto.
  - rewrite Ht. apply Forall_app. split; [exact H9 |]. repeat constructor.
Qed.

Lemma insertRecord_unfold (PAGESIZE DPFIXED : Z) (rec : Rec) (outRid : RID) (s : State) :
  insertRecord PAGESIZE DPFIXED rec outRid s
  = if rec_length rec mod 2 ^ 32 >? PAGESIZE - DPFIXED then Val (INVALIDRECLEN, outRid, s)
    else
      match curPage s with
      | Some _ => insert_on_current PAGESIZE DPFIXED rec outRid s
      | None =>
          let s0 := set_curPageNo (lastPage (headerPage s)) s in
          let '(status, page, bm) := readPage (lastPage (headerPage s)) None (bufMgr s) in
          let s1 := set_curPage page (set_bufMgr bm s0) in
          match status with
          | OK => insert_on_current PAGESIZE DPFIXED rec outRid (set_curDirtyFlag false s1)
          | _ => Val (status, outRid, s1)
          end
      end.
Proof.
  unfold insertRecord.
  destruct (rec_length rec mod 2 ^ 32 >? PAGESIZE - DPFIXED); [reflexivity |].
  destruct (curPage s) as [p |] eqn:Hp; [reflexivity |].
  cbn [curPageNo set_curPageNo curPage bufMgr]. rewrite Hp.
  destruct (readPage (lastPage (headerPage s)) None (bufMgr s)) as [[st ptr] bm].
  destruct st; reflexivity.
Qed.

(** The insert when the current page has room: the record goes into a new
    slot at the end of that page; no buffer-manager call is made. *)
Lemma insert_on_current_fits (PAGESIZE DPFIXED : Z) (rec : Rec) (out : RID) (s : State)
    (p : Z) (pg : Page) :
  curPage s = Some p → pages (bufMgr s) !! p = Some pg →
  used (slots pg) + rec_length rec <= PAGESIZE - DPFIXED →
  insert_on_current PAGESIZE DPFIXED rec out s
  = Val (OK, mkRID (pageId pg) (Z.of_nat (length (slots pg))),
         set_curDirtyFlag true
           (set_hdrDirtyFlag true
              (set_headerPage (set_recCnt (inc32 (recCnt (headerPage s))) (headerPage s))
                 (set_bufMgr
                    (store p (mkPage (pageId pg) (nextPage pg) (slots pg ++ [Some rec]))
                           (bufMgr s)) s)))).
Proof.
  intros Hp Hpg Hfit. unfold insert_on_current, deref. rewrite Hp, Hpg.
  unfold Page_insertRecord.
  destruct (Z.leb_spec (used (slots pg) + rec_length rec) (PAGESIZE - DPFIXED)); [ | lia ].
  reflexivity.
Qed.

(** The insert when the current page has no room.  A page is allocated,
    initialised and linked behind the current page, the header is updated,
    the old page is unpinned, and the insert is tried once more on the new
    page. *)
Lemma insert_on_current_overflow (PAGESIZE DPFIXED : Z) (rec : Rec) (out : RID) (s : State)
    (p : Z) (pg : Page) :
  curPage s = Some p → pages (bufMgr s) !! p = Some pg → handle_ok s →
  PAGESIZE - DPFIXED < used (slots pg) + rec_length rec →
  let np := numPages (bufMgr s) in
  let fits := rec_length rec <=? PAGESIZE - DPFIXED in
  ∃ s',
    insert_on_current PAGESIZE DPFIXED rec out s
    = Val (if fits then OK else NOSPACE, if fits then mkRID np 0 else out, s')
    ∧ pages (bufMgr s')
      = <[np := mkPage np (-1) (if fits then [Some rec] else [])]>
          (<[p := mkPage (pageId pg) np (slots pg)]> (pages (bufMgr s)))
    ∧ headerPage s'
      = mkHdr (firstPage (headerPage s)) np (inc32 (pageCnt (headerPage s)))
              (if fits then inc32 (recCnt (headerPage s)) else recCnt (headerPage s))
    ∧ curPage s' = Some np ∧ curPageNo s' = np
    ∧ curDirtyFlag s' = true ∧ hdrDirtyFlag s' = true
    ∧ handle_ok s'
    ∧ trace (bufMgr s')
      = trace (bufMgr s) ++ [EvAlloc np; EvUnPin p (curDirtyFlag s) true]
    ∧ numPages (bufMgr s') = np + 1 ∧ hdrPageNo (bufMgr s') = hdrPageNo (bufMgr s)
    ∧ headerPageNo s' = headerPageNo s ∧ curRec s' = curRec s
    ∧ sc_offset s' = sc_offset s ∧ sc_length s' = sc_length s ∧ sc_type s' = sc_type s
    ∧ sc_filter s' = sc_filter s ∧ sc_op s' = sc_op s
    ∧ markedPageNo s' = markedPageNo s ∧ markedRec s' = markedRec s.
Proof.
  intros Hp Hpg Hok Hfull np fits.
  assert (Hsp : is_Some (pages (bufMgr s) !! p)) by eauto.
  unfold handle_ok in Hok. rewrite Hp in Hok.
  pose proof Hok as (_ & _ & Hcons & Hhn & Hbound & _).
  destruct (Hcons p eq_refl) as [Hcno Hex].
  assert (Hne : np ≠ p).
  { pose proof (page_exists_lt _ _ Hhn Hbound Hex). unfold np. lia. }
  unfold insert_on_current, deref. rewrite Hp, Hpg.
  unfold Page_insertRecord at 1.
  destruct (Z.leb_spec (used (slots pg) + rec_length rec) (PAGESIZE - DPFIXED)); [lia |].
  cbn [bufMgr set_bufMgr].
  destruct (allocPage (store p pg (bufMgr s))) as [[[ast an] aptr] abm] eqn:Ha.
  pose proof Ha as Ha'.
  eapply allocPage_two_pinned in Ha' as (-> & Hn & -> & H2 & Hat);
    [ | apply pins_agree_store; [exact Hok | exact Hsp] ].
  cbn [store numPages] in Hn. fold np in Hn. subst an.
  assert (Habm : abm = snd (allocPage (store p pg (bufMgr s)))) by (rewrite Ha; reflexivity).
  assert (Hapages : pages abm = <[np := rawPage]> (<[p := pg]> (pages (bufMgr s)))).
  { rewrite Habm. reflexivity. }
  assert (Hanum : numPages abm = np + 1 ∧ hdrPageNo abm = hdrPageNo (bufMgr s)).
  { rewrite Habm. split; reflexivity. }
  clear Habm.
  unfold Page_setNextPage, Page_init.
  cbn [bufMgr set_bufMgr headerPage set_headerPage set_hdrDirtyFlag curPageNo curDirtyFlag
       pageId slots].
  rewrite Hcno.
  assert (Hlk : pages (store np (mkPage np (-1) []) abm) !! p = Some pg).
  { cbn [store pages]. rewrite Hapages.
    rewrite !lookup_insert_ne by exact Hne. apply lookup_insert_eq. }
  rewrite Hlk. cbn [default from_option id pageId slots].
  set (bm3 := store p (mkPage (pageId pg) np (slots pg))
                (store np (mkPage np (-1) []) abm)).
  assert (H3 : two_pinned bm3 (headerPageNo s) p np).
  { pose proof H2 as (_ & _ & _ & Hnp & _).
    apply two_pinned_store.
    - apply two_pinned_store; [exact H2 | exact Hnp].
    - rewrite Hlk. eauto. }
  destruct (two_pinned_unpin_old _ _ _ _ (curDirtyFlag s) H3) as (ubm & Hu & Hok2 & Hup & Hut).
  rewrite Hu.
  cbn [bufMgr set_bufMgr set_curDirtyFlag set_curPageNo set_curPage].
  assert (Hlk2 : pages ubm !! np = Some (mkPage np (-1) [])).
  { rewrite Hup. unfold bm3. cbn [store pages].
    rewrite lookup_insert_ne by congruence. apply lookup_insert_eq. }
  rewrite Hlk2. cbn [default from_option id].
  unfold Page_insertRecord. cbn [slots used pageId nextPage length app Z.of_nat].
  rewrite Z.add_0_l. fold fits.
  assert (Hfin : ∀ x, pins_agree (store np x ubm) (headerPageNo s) (Some np) np).
  { intros x. apply pins_agree_store; [exact Hok2 |]. rewrite Hlk2. eauto. }
  assert (Hpages : ∀ x, pages (store np x ubm)
                        = <[np := x]> (<[p := mkPage (pageId pg) np (slots pg)]>
                                         (pages (bufMgr s)))).
  { intros x. cbn [store pages]. rewrite Hup. unfold bm3. cbn [store pages].
    rewrite Hapages. apply map_eq. intros q.
    rewrite !lookup_insert. repeat case_decide; simplify_eq; reflexivity. }
  assert (Htrace : ∀ x, trace (store np x ubm)
                        = trace (bufMgr s) ++ [EvAlloc np; EvUnPin p (curDirtyFlag s) true]).
  { intros x. cbn [store trace]. rewrite Hut. unfold bm3. cbn [store trace].
    rewrite Hat. cbn [store trace]. rewrite <- app_assoc. reflexivity. }
  assert (Hnum : ∀ x, numPages (store np x ubm) = np + 1
                      ∧ hdrPageNo (store np x ubm) = hdrPageNo (bufMgr s)).
  { intros x. cbn [store numPages hdrPageNo].
    apply unPinPage_inv in Hu as (_ & Hh & Hnn & _). rewrite Hh, Hnn.
    unfold bm3. cbn [store numPages hdrPageNo]. exact Hanum. }
  destruct fits; eexists; (split; [reflexivity |]); cbn -[store inc32];
    rewrite Hpages; (split; [reflexivity |]); (split; [reflexivity |]);
    (split; [reflexivity |]); (split; [reflexivity |]); (split; [reflexivity |]);
    (split; [reflexivity |]); (split; [apply Hfin |]);
    (split; [apply Htrace |]); (split; [apply Hnum |]); (split; [apply Hnum |]);
    repeat split; reflexivity.
Qed.

Lemma insert_on_current_handle_ok (PAGESIZE DPFIXED : Z) (rec : Rec) (out : RID)
    (s : State) st rid s' :
  handle_ok s → insert_on_current PAGESIZE DPFIXED rec out s = Val (st, rid, s') →
  handle_ok s'.
Proof.
  intros Hok H.
  destruct (curPage s) as [p |] eqn:Hp;
    [ | unfold insert_on_current in H; rewrite Hp in H; discriminate ].
  destruct (pages (bufMgr s) !! p) as [pg |] eqn:Hpg;
    [ | unfold insert_on_current, deref in H; rewrite Hp, Hpg in H; discriminate ].
  destruct (Z_le_gt_dec (used (slots pg) + rec_length rec) (PAGESIZE - DPFIXED)) as [Hfit | Hfull].
  - rewrite (insert_on_current_fits _ _ _ _ _ _ _ Hp Hpg Hfit) in H.
    injection H as _ _ <-. unfold handle_ok in *. cbn -[store]. rewrite Hp in *.
    apply pins_agree_store; [exact Hok | eauto].
  - destruct (insert_on_current_overflow PAGESIZE DPFIXED rec out s p pg Hp Hpg Hok)
      as (s2 & Hrun & _ & _ & _ & _ & _ & _ & Hok2 & _); [lia |].
    rewrite Hrun in H. injection H as _ _ <-. exact Hok2.
Qed.

(** Whatever it returns, [insertRecord] leaves a handle in order in
    order. *)
Lemma insertRecord_handle_ok (PAGESIZE DPFIXED : Z) (rec : Rec) (out : RID) (s : State)
    st rid s' :
  handle_ok s → insertRecord PAGESIZE DPFIXED rec out s = Val (st, rid, s') →
  handle_ok s'.
Proof.
  intros Hok H. rewrite insertRecord_unfold in H.
  destruct (rec_length rec mod 2 ^ 32 >? PAGESIZE - DPFIXED).
  { injection H as _ _ <-. exact Hok. }
  destruct (curPage s) as [p |] eqn:Hp.
  { eapply insert_on_current_handle_ok; eassumption. }
  unfold handle_ok in Hok. rewrite Hp in Hok.
  destruct (pins_agree_read (bufMgr s) (headerPageNo s) (curPageNo s)
              (lastPage (headerPage s)) None Hok)
    as (rst & rptr & rbm & Hr & _ & _ & _ & Hcase).
  cbv zeta in H. rewrite Hr in H.
  destruct Hcase as [(-> & -> & _ & Hok') | (-> & -> & _ & Hok')].
  - eapply insert_on_current_handle_ok; [ | exact H ].
    unfold handle_ok. cbn. exact Hok'.
  - injection H as _ _ <-. unfold handle_ok. cbn. apply Hok'.
Qed.

(** ** Opening and closing *)

(** [HeapFile::HeapFile] on a clean pool: either it succeeds and leaves the
    handle in order, with the first page current and [curRec] null, or it
    fails and leaves the pool clean. *)
Lemma HeapFile_ctor_handle_ok (raw : State) :
  pool_clean (bufMgr raw) →
  (fst (HeapFile_ctor raw) = OK
   ∧ handle_ok (snd (HeapFile_ctor raw))
   ∧ page_exists (firstPage (headerPage raw)) (bufMgr raw) = true
   ∧ curPage (snd (HeapFile_ctor raw)) = Some (firstPage (headerPage raw))
   ∧ curRec (snd (HeapFile_ctor raw)) = NULLRID)
  ∨ (fst (HeapFile_ctor raw) = BADPAGENO
     ∧ page_exists (firstPage (headerPage raw)) (bufMgr raw) = false
     ∧ pool_clean (bufMgr (snd (HeapFile_ctor raw)))).
Proof.
  intros (Hz & Hh & Hb & Ht). unfold HeapFile_ctor.
  cbn [headerPageNo set_headerPageNo bufMgr].
  destruct (readPage (hdrPageNo (bufMgr raw)) (Some (hdrPageNo (bufMgr raw))) (bufMgr raw))
    as [[st1 ptr1] bm1] eqn:Hr1.
  apply readPage_inv in Hr1 as (Hp1 & Hh1 & Hn1 & Hr1).
  destruct Hr1 as [(-> & _ & _ & Hc1 & Ht1) | (_ & _ & He & _)].
  2: { unfold page_exists in He.
       rewrite (bool_decide_eq_true_2 _ eq_refl) in He. discriminate. }
  assert (Hnull : ∀ c, pins_agree bm1 (hdrPageNo (bufMgr raw)) None c).
  { intros c. split; [congruence |]. split; [ | split; [ | split; [ | split ] ] ].
    - intros q. rewrite (pins_after_insert _ _ _ _ _ Hc1). rewrite !Hz. unfold held.
      repeat case_bool_decide; simplify_eq; lia.
    - discriminate.
    - congruence.
    - intros q Hq. rewrite Hp1 in Hq. rewrite Hn1. auto.
    - rewrite Ht1. apply Forall_app. split; [exact Ht |]. repeat constructor. }
  cbn [headerPage set_bufMgr set_hdrDirtyFlag set_curPageNo curPageNo curPage bufMgr
       set_headerPageNo].
  destruct (pins_agree_read bm1 (hdrPageNo (bufMgr raw)) 0 (firstPage (headerPage raw))
              (curPage raw) (Hnull 0))
    as (rst & rptr & rbm & Hr & Hrp & Hrh & Hrn & Hcase).
  rewrite Hr.
  assert (Hexeq : page_exists (firstPage (headerPage raw)) bm1
                  = page_exists (firstPage (headerPage raw)) (bufMgr raw)).
  { unfold page_exists. rewrite Hp1, Hh1. reflexivity. }
  destruct Hcase as [(-> & -> & Hex & Hok') | (-> & -> & Hex & Hok')].
  - left. cbn. split; [reflexivity |]. split; [exact Hok' |].
    split; [congruence |]. split; reflexivity.
  - right.
    cbn [headerPageNo hdrDirtyFlag bufMgr set_curPage set_bufMgr set_curPageNo
         set_hdrDirtyFlag set_headerPageNo].
    destruct (unPinPage (hdrPageNo (bufMgr raw)) false rbm) as [ust ubm] eqn:Hu.
    apply unPinPage_inv in Hu as (Hup & Huh & Hun & Hu).
    pose proof (Hok' 0) as (_ & Hpins & _ & Hh' & Hb' & Ht').
    cbn. split; [reflexivity |]. split; [congruence |].
    destruct Hu as [(_ & (n & Hn1' & Hn2') & Hut) | (_ & Hz' & _)].
    2: { rewrite Hpins in Hz'. unfold held in Hz'.
         rewrite (bool_decide_eq_true_2 _ eq_refl) in Hz'. lia. }
    split; [ | split; [congruence | split ] ].
    + intros q. rewrite (pins_after_insert _ _ _ _ _ Hn2').
      pose proof (Hpins q) as Hq. rewrite Hpins in Hn1'. unfold held in *.
      repeat case_bool_decide; simplify_eq; lia.
    + intros q Hq. rewrite Hup in Hq. rewrite Hun. auto.
    + rewrite Hut. apply Forall_app. split; [exact Ht' |]. repeat constructor.
Qed.

(** Unpinning the header page of a handle without a current page leaves
    the pool clean. *)
Lemma unpin_header_clean (bm : BufMgr) (h c : Z) (d : bool) :
  pins_agree bm h None c → pool_clean (snd (unPinPage h d bm)).
Proof.
  intros (H1 & H2 & _ & H4 & H5 & H6).
  destruct (unPinPage h d bm) as [ust ubm] eqn:Hu.
  apply unPinPage_inv in Hu as (Hup & Huh & Hun & Hu). cbn [snd].
  destruct Hu as [(_ & (n & Hn1 & Hn2) & Hut) | (_ & Hz & _)].
  2: { rewrite H2 in Hz. unfold held in Hz.
       rewrite (bool_decide_eq_true_2 _ eq_refl) in Hz. lia. }
  split; [ | split; [congruence | split ] ].
  - intros q. rewrite (pins_after_insert _ _ _ _ _ Hn2).
    pose proof (H2 q) as Hq. rewrite H2 in Hn1. unfold held in *.
    repeat case_bool_decide; simplify_eq; lia.
  - intros q Hq. rewrite Hup in Hq. rewrite Hun. auto.
  - rewrite Hut. apply Forall_app. split; [exact H6 |]. repeat constructor.
Qed.

Lemma HeapFile_dtor_clean (s : State) : handle_ok s → pool_clean (bufMgr (HeapFile_dtor s)).
Proof.
  intros Hok. unfold HeapFile_dtor, handle_ok in *.
  destruct (curPage s) as [p |] eqn:Hp.
  - destruct (pins_agree_unpin _ _ _ _ (curDirtyFlag s) Hok) as (ubm & Hu & Hnull & _).
    rewrite Hu.
    cbn [headerPageNo hdrDirtyFlag bufMgr set_curDirtyFlag set_curPageNo set_curPage
         set_bufMgr].
    pose proof (unpin_header_clean ubm (headerPageNo s) 0 (hdrDirtyFlag s) (Hnull 0)) as Hc.
    destruct (unPinPage (headerPageNo s) (hdrDirtyFlag s) ubm) as [ust bm']. exact Hc.
  - pose proof (unpin_header_clean (bufMgr s) (headerPageNo s) (curPageNo s)
                  (hdrDirtyFlag s) Hok) as Hc.
    destruct (unPinPage (headerPageNo s) (hdrDirtyFlag s) (bufMgr s)) as [ust bm']. exact Hc.
Qed.

Lemma HeapFileScan_dtor_clean (s : State) :
  handle_ok s → pool_clean (bufMgr (HeapFileScan_dtor s)).
Proof.
  intros Hok. unfold HeapFileScan_dtor.
  destruct (endScan_handle_ok s Hok) as (s' & He & Hok' & _).
  rewrite He. apply HeapFile_dtor_clean. exact Hok'.
Qed.

Lemma InsertFileScan_dtor_clean (s : State) :
  handle_ok s → pool_clean (bufMgr (InsertFileScan_dtor s)).
Proof.
  intros Hok. unfold InsertFileScan_dtor.
  destruct (curPage s) as [p |] eqn:Hp.
  - unfold handle_ok in Hok. rewrite Hp in Hok.
    destruct (pins_agree_unpin _ _ _ _ true Hok) as (ubm & Hu & Hnull & _).
    rewrite Hu. apply HeapFile_dtor_clean. unfold handle_ok. cbn. apply Hnull.
  - apply HeapFile_dtor_clean. exact Hok.
Qed.

(** ** A handle from construction to destruction *)

Lemma call_handle_ok (c : Call) (s : State) st s' :
  handle_ok s → call c s = Val (st, s') → ¬ read_failed (c, st) → handle_ok s'.
Proof.
  intros Hok H Hnf. destruct c; cbn [call] in H.
  - unfold startScan in H. destruct filter_ as [flt |].
    + destruct (bad_scan_parm offset_ length_ type_ op_); injection H as _ <-; exact Hok.
    + injection H as _ <-. exact Hok.
  - destruct (scanNext fuel NULLRID s) as [[[st0 rid0] s0] | |] eqn:Hs; try discriminate.
    injection H as _ <-. eapply scanNext_handle_ok; eassumption.
  - destruct (HeapFile_getRecord rid rawRec s) as [[[st0 r0] s0] | |] eqn:Hg;
      try discriminate.
    injection H as <- <-. eapply HeapFile_getRecord_handle_ok; [exact Hok | exact Hg |].
    intros ->. apply Hnf. exact I.
  - destruct (HeapFileScan_getRecord rawRec s) as [[st0 r0] | |]; try discriminate.
    injection H as _ <-. exact Hok.
  - eapply deleteRecord_handle_ok; eassumption.
  - injection H as _ <-. exact Hok.
  - injection H as _ <-. exact Hok.
  - injection H as Hr.
    eapply (resetScan_handle_ok s st s' Hok Hr).
    intros ->. apply Hnf. exact I.
  - destruct (endScan_handle_ok s Hok) as (s1 & He & Hok1 & _).
    rewrite He in H. injection H as _ <-. exact Hok1.
  - destruct (insertRecord PAGESIZE DPFIXED rec NULLRID s) as [[[st0 r0] s0] | |] eqn:Hi;
      try discriminate.
    injection H as _ <-. eapply insertRecord_handle_ok; eassumption.
Qed.

Lemma run_handle_ok (cs : list Call) : ∀ (s : State) log s',
  handle_ok s → run cs s = Val (log, s') → Forall (λ e, ¬ read_failed e) log →
  handle_ok s'.
Proof.
  induction cs as [| c cs IH]; intros s log s' Hok H Hlog; cbn [run] in H.
  - injection H as _ <-. exact Hok.
  - destruct (call c s) as [[st s1] | |] eqn:Hc; try discriminate.
    destruct (run cs s1) as [[log1 s2] | |] eqn:Hr; try discriminate.
    injection H as <- <-. apply Forall_cons in Hlog as [Hhd Htl].
    eapply IH; [ | exact Hr | exact Htl ].
    eapply call_handle_ok; eassumption.
Qed.

(** ** Chains under updates of the pool *)

Lemma live_from_app (sl : list (option Rec)) (r : Rec) : ∀ i,
  live_from i (sl ++ [Some r]) = live_from i sl ++ [i + Z.of_nat (length sl)].
Proof.
  induction sl as [| o t IH]; intros i.
  - cbn. rewrite Z.add_0_r. reflexivity.
  - cbn [app live_from length]. rewrite IH.
    replace (i + 1 + Z.of_nat (length t)) with (i + Z.of_nat (S (length t))) by lia.
    destruct o; reflexivity.
Qed.

Lemma rids_of_grown (pg : Page) (r : Rec) :
  rids_of (mkPage (pageId pg) (nextPage pg) (slots pg ++ [Some r]))
  = rids_of pg ++ [mkRID (pageId pg) (Z.of_nat (length (slots pg)))].
Proof.
  unfold rids_of, live. cbn [pageId slots]. rewrite live_from_app, fmap_app. reflexivity.
Qed.

Lemma all_rids_app (l1 l2 : list Page) : all_rids (l1 ++ l2) = all_rids l1 ++ all_rids l2.
Proof. unfold all_rids. apply bind_app. Qed.

Lemma all_rids_single (pg : Page) : all_rids [pg] = rids_of pg.
Proof. unfold all_rids. cbn. apply app_nil_r. Qed.

Lemma slot_at_grown_new (pg : Page) (r : Rec) (a b : Z) :
  slot_at (Z.of_nat (length (slots pg))) (mkPage a b (slots pg ++ [Some r])) = Some r.
Proof.
  unfold slot_at. cbn [slots].
  destruct (Z.leb_spec 0 (Z.of_nat (length (slots pg)))); [ | lia ].
  rewrite Nat2Z.id. rewrite lookup_app_r by lia. rewrite Nat.sub_diag. reflexivity.
Qed.

Lemma slot_at_grown_old (pg : Page) (r : Rec) (a b j : Z) :
  is_Some (slot_at j pg) → slot_at j (mkPage a b (slots pg ++ [Some r])) = slot_at j pg.
Proof.
  unfold slot_at. cbn [slots]. destruct (0 <=? j); [ | intros [x Hx]; discriminate ].
  intros [x Hx]. destruct (slots pg !! Z.to_nat j) as [o |] eqn:Hl; [ | discriminate ].
  rewrite (lookup_app_l_Some _ _ _ _ Hl). reflexivity.
Qed.

(** Pages of a chain other than its last one have numbers other than the
    last one's. *)
Lemma chain_init_fresh (pgs : gmap Z Page) (l : list Page) (tl : Page) (f : Z) :
  chain pgs f (l ++ [tl]) → ∀ q, q ∈ l → pageId q ≠ pageId tl.
Proof.
  intros H q Hq. apply list_elem_of_split in Hq as (l1 & l2 & ->).
  rewrite <- app_assoc in H. cbn [app] in H.
  apply chain_suffix in H.
  intros Heq. eapply (chain_head_fresh _ _ _ _ H tl); [ | congruence ].
  apply elem_of_app. right. left.
Qed.

Lemma chain_lookup (pgs : gmap Z Page) (l : list Page) : ∀ (f : Z) (q : Page),
  chain pgs f l → q ∈ l → pgs !! pageId q = Some q ∧ 0 <= pageId q.
Proof.
  induction l as [| x l IH]; intros f q H Hq; [inversion Hq |].
  cbn [chain] in H. destruct H as (Hge & Hlk & Hid & Hn).
  apply elem_of_cons in Hq as [-> | Hq].
  - rewrite Hid. tauto.
  - eapply IH; eassumption.
Qed.

(** Replace the last page of a chain by a page of the same number and let
    the chain go on from there: pool images that the pages before it
    do not use may change. *)
Lemma chain_relink (pgs pgs' : gmap Z Page) (tl tl' : Page) (rest : list Page)
    (l : list Page) : ∀ f,
  chain pgs f (l ++ [tl]) →
  (∀ q, q ∈ l → pgs' !! pageId q = pgs !! pageId q) →
  pgs' !! pageId tl = Some tl' → pageId tl' = pageId tl →
  chain pgs' (nextPage tl') rest →
  chain pgs' f (l ++ tl' :: rest).
Proof.
  induction l as [| x l IH]; intros f H Hsame Hlk Hid Hrest.
  - cbn [app chain] in *. destruct H as (Hge & _ & Hf & _). subst f.
    rewrite Hid. tauto.
  - cbn [app chain] in *. destruct H as (Hge & Hx & Hf & Hn).
    split; [exact Hge |]. split.
    + subst f. rewrite Hsame by left. exact Hx.
    + split; [exact Hf |]. apply IH; try assumption.
      intros q Hq. apply Hsame. right. exact Hq.
Qed.

Lemma chain_last_link (pgs : gmap Z Page) (l : list Page) (tl : Page) : ∀ f,
  chain pgs f (l ++ [tl]) → nextPage tl = -1.
Proof.
  induction l as [| x l IH]; intros f H; cbn [app chain] in H.
  - tauto.
  - destruct H as (_ & _ & _ & Hn). eapply IH. exact Hn.
Qed.

Lemma inc32_of_nat (n : nat) : Z.of_nat n < 2 ^ 31 - 1 → inc32 (Z.of_nat n) = Z.of_nat (S n).
Proof. intros H. unfold inc32. rewrite wrap32_id by lia. lia. Qed.

Lemma rec_at_insert_ne (pgs : gmap Z Page) (p : Z) (x : Page) (r : RID) :
  pageNo r ≠ p → rec_at (<[p := x]> pgs) r = rec_at pgs r.
Proof. intros Hne. unfold rec_at. rewrite lookup_insert_ne by congruence. reflexivity. Qed.

(** Inserting through a handle whose current page is the tail of the
    chain. *)
Lemma insertRecord_tail (PAGESIZE DPFIXED : Z) (rec : Rec) (out : RID) (s : State)
    (l : list Page) (tl : Page) :
  tail_handle s l tl →
  0 <= rec_length rec <= PAGESIZE - DPFIXED → PAGESIZE - DPFIXED < 2 ^ 32 →
  Z.of_nat (length (l ++ [tl])) < 2 ^ 31 - 1 →
  Z.of_nat (length (all_rids (l ++ [tl]))) < 2 ^ 31 - 1 →
  ∃ rid s' l' tl',
    insertRecord PAGESIZE DPFIXED rec out s = Val (OK, rid, s')
    ∧ tail_handle s' l' tl'
    ∧ all_rids (l' ++ [tl']) = all_rids (l ++ [tl]) ++ [rid]
    ∧ rec_at (pages (bufMgr s')) rid = Some rec
    ∧ (∀ r, r ∈ all_rids (l ++ [tl]) →
            rec_at (pages (bufMgr s')) r = rec_at (pages (bufMgr s)) r)
    ∧ firstPage (headerPage s') = firstPage (headerPage s)
    ∧ pageNo rid = pageId tl'
    ∧ ((used (slots tl) + rec_length rec <= PAGESIZE - DPFIXED
        ∧ l' = l ∧ rid = mkRID (pageId tl) (Z.of_nat (length (slots tl)))
        ∧ trace (bufMgr s') = trace (bufMgr s)
        ∧ tl' = mkPage (pageId tl) (nextPage tl) (slots tl ++ [Some rec]))
       ∨ (PAGESIZE - DPFIXED < used (slots tl) + rec_length rec
          ∧ l' = l ++ [mkPage (pageId tl) (numPages (bufMgr s)) (slots tl)]
          ∧ tl' = mkPage (numPages (bufMgr s)) (-1) [Some rec]
          ∧ rid = mkRID (numPages (bufMgr s)) 0
          ∧ trace (bufMgr s')
            = trace (bufMgr s)
              ++ [EvAlloc (numPages (bufMgr s));
                  EvUnPin (pageId tl) (curDirtyFlag s) true])).
Proof.
  intros (Hch & Hcp & Hlast & Hpc & Hrc & Hok) Hlen Hcap Hpages Hrecs.
  assert (Htl : tl ∈ l ++ [tl]) by (apply elem_of_app; right; left).
  destruct (chain_lookup _ _ _ _ Hch Htl) as [Hlk Hge].
  pose proof (chain_last_link _ _ _ _ Hch) as Hterm.
  pose proof (chain_init_fresh _ _ _ _ Hch) as Hfresh.
  assert (Hold : ∀ q, q ∈ l → pages (bufMgr s) !! pageId q = Some q).
  { intros q Hq. eapply chain_lookup; [exact Hch |]. apply elem_of_app. left. exact Hq. }
  rewrite insertRecord_unfold.
  rewrite Z.mod_small by lia.
  destruct (Z.gtb_spec (rec_length rec) (PAGESIZE - DPFIXED)); [lia |].
  rewrite Hcp.
  destruct (Z_le_gt_dec (used (slots tl) + rec_length rec) (PAGESIZE - DPFIXED))
    as [Hfit | Hfull].
  - (* the tail has room *)
    rewrite (insert_on_current_fits _ _ _ _ _ _ _ Hcp Hlk Hfit).
    set (tl' := mkPage (pageId tl) (nextPage tl) (slots tl ++ [Some rec])).
    eexists _, _, l, tl'. split; [reflexivity |].
    assert (Hall : all_rids (l ++ [tl'])
                   = all_rids (l ++ [tl])
                     ++ [mkRID (pageId tl) (Z.of_nat (length (slots tl)))]).
    { rewrite !all_rids_app, !all_rids_single. unfold tl'.
      rewrite rids_of_grown, app_assoc. reflexivity. }
    split; [ | split; [exact Hall | split; [ | split; [ | split; [ | split ] ] ] ] ].
    + split; [ | split; [ | split; [ | split; [ | split ] ] ] ].
      * cbn -[chain]. eapply chain_relink with (rest := []).
        -- exact Hch.
        -- intros q Hq. apply lookup_insert_ne. intros Heq.
           apply (Hfresh q Hq). congruence.
        -- apply lookup_insert_eq.
        -- reflexivity.
        -- cbn [chain tl' nextPage]. exact Hterm.
      * cbn. exact Hcp.
      * cbn. exact Hlast.
      * cbn. rewrite Hpc, !length_app. reflexivity.
      * cbn -[all_rids inc32]. rewrite Hall, Hrc, length_app. cbn [length].
        rewrite inc32_of_nat by exact Hrecs. f_equal. lia.
      * unfold handle_ok in *. cbn -[store]. rewrite Hcp in *.
        apply pins_agree_store; [exact Hok | eauto].
    + cbn -[rec_at]. unfold rec_at. cbn [pageNo slotNo].
      rewrite lookup_insert_eq. apply slot_at_grown_new.
    + intros r Hr. apply elem_of_all_rids in Hr as (q & Hq & Hpn & Hs).
      cbn -[rec_at]. apply elem_of_app in Hq as [Hq | Hq].
      * apply rec_at_insert_ne. rewrite Hpn. apply Hfresh. exact Hq.
      * apply list_elem_of_singleton in Hq. subst q.
        unfold rec_at. rewrite Hpn, lookup_insert_eq, Hlk.
        apply slot_at_grown_old. exact Hs.
    + reflexivity.
    + reflexivity.
    + left. split; [exact Hfit |]. split; [reflexivity |]. split; [reflexivity |].
      split; reflexivity.
  - (* the tail is full: overflow *)
    destruct (insert_on_current_overflow PAGESIZE DPFIXED rec out s (pageId tl) tl
                Hcp Hlk Hok)
      as (s' & Hrun & Hpg' & Hhdr' & Hcp' & Hcno' & _ & _ & Hok' & Htr' & Hnum' & _);
      [lia |].
    destruct (Z.leb_spec (rec_length rec) (PAGESIZE - DPFIXED)) as [_ | Hbad]; [ | lia ].
    set (np := numPages (bufMgr s)) in *.
    set (linked := mkPage (pageId tl) np (slots tl)) in *.
    set (new := mkPage np (-1) [Some rec]) in *.
    assert (Hnp : pageId tl < np).
    { pose proof Hok as (_ & _ & Hcons & Hh & Hb & _).
      apply Hb. rewrite Hlk. eauto. }
    assert (Hnone : ∀ q, q ∈ l → pageId q ≠ np).
    { intros q Hq Heq. pose proof Hok as (_ & _ & _ & _ & Hb & _).
      assert (pageId q < np) by (apply Hb; rewrite (Hold q Hq); eauto). lia. }
    exists (mkRID np 0), s', (l ++ [linked]), new. split; [exact Hrun |].
    assert (Hall : all_rids ((l ++ [linked]) ++ [new])
                   = all_rids (l ++ [tl]) ++ [mkRID np 0]).
    { rewrite !all_rids_app, !all_rids_single. reflexivity. }
    split; [ | split; [exact Hall | split; [ | split; [ | split; [ | split ] ] ] ] ].
    + split; [ | split; [ | split; [ | split; [ | split ] ] ] ].
      * rewrite Hpg', Hhdr'. cbn [firstPage]. rewrite <- app_assoc. cbn [app].
        eapply chain_relink.
        -- exact Hch.
        -- intros q Hq. rewrite !lookup_insert_ne; [reflexivity | | ].
           ++ intros Heq. apply (Hfresh q Hq). congruence.
           ++ intros Heq. apply (Hnone q Hq). congruence.
        -- rewrite lookup_insert_ne by lia. apply lookup_insert_eq.
        -- reflexivity.
        -- cbn [chain linked nextPage new pageId].
           split; [lia |]. split; [apply lookup_insert_eq |]. split; reflexivity.
      * exact Hcp'.
      * rewrite Hhdr'. reflexivity.
      * rewrite Hhdr'. cbn [pageCnt]. rewrite Hpc, inc32_of_nat by exact Hpages.
        rewrite !length_app. cbn [length]. f_equal. lia.
      * rewrite Hhdr'. cbn [recCnt]. rewrite Hall, Hrc, inc32_of_nat by exact Hrecs.
        rewrite (length_app (all_rids (l ++ [tl]))). cbn [length]. f_equal. lia.
      * exact Hok'.
    + rewrite Hpg'. unfold rec_at. cbn [pageNo slotNo]. rewrite lookup_insert_eq.
      reflexivity.
    + intros r Hr. apply elem_of_all_rids in Hr as (q & Hq & Hpn & Hs).
      rewrite Hpg'. apply elem_of_app in Hq as [Hq | Hq].
      * rewrite !rec_at_insert_ne; [reflexivity | | ].
        -- rewrite Hpn. apply Hfresh. exact Hq.
        -- rewrite Hpn. apply Hnone. exact Hq.
      * apply list_elem_of_singleton in Hq. subst q.
        rewrite rec_at_insert_ne by (rewrite Hpn; lia).
        unfold rec_at. rewrite Hpn, lookup_insert_eq, Hlk. reflexivity.
    + rewrite Hhdr'. reflexivity.
    + reflexivity.
    + right. split; [lia |]. split; [reflexivity |]. split; [reflexivity |].
      split; [reflexivity | exact Htr'].
Qed.


(** A newly opened InsertFileScan on a file with a single data page has
    that page, the tail, as its current page. *)
Lemma InsertFileScan_ctor_single_page (raw : State) (pg : Page) :
  pool_clean (bufMgr raw) →
  chain (pages (bufMgr raw)) (firstPage (headerPage raw)) [pg] →
  lastPage (headerPage raw) = firstPage (headerPage raw) →
  pageCnt (headerPage raw) = 1 →
  recCnt (headerPage raw) = Z.of_nat (length (rids_of pg)) →
  fst (InsertFileScan_ctor raw) = OK
  ∧ tail_handle (snd (InsertFileScan_ctor raw)) [] pg.
Proof.
  intros Hclean Hch Hlast Hpc Hrc.
  pose proof Hch as Hch'. cbn [chain] in Hch'. destruct Hch' as (Hge & Hlk & Hid & Hterm).
  unfold InsertFileScan_ctor.
  destruct (HeapFile_ctor_handle_ok raw Hclean)
    as [(Hst & Hok & _ & Hcp & _) | (_ & Hex & _)].
  2: { unfold page_exists in Hex. rewrite Hlk in Hex.
       rewrite (bool_decide_eq_true_2 (is_Some (Some pg))) in Hex by eauto.
       rewrite orb_true_r in Hex. discriminate. }
  split; [exact Hst |].
  assert (Hsame : pages (bufMgr (snd (HeapFile_ctor raw))) = pages (bufMgr raw)
                  ∧ headerPage (snd (HeapFile_ctor raw)) = headerPage raw).
  { unfold HeapFile_ctor. cbn [headerPageNo set_headerPageNo bufMgr].
    destruct (readPage (hdrPageNo (bufMgr raw)) (Some (hdrPageNo (bufMgr raw))) (bufMgr raw))
      as [[st1 ptr1] bm1] eqn:Hr1.
    apply readPage_inv in Hr1 as (Hp1 & _).
    destruct st1; cbn; try (split; [exact Hp1 | reflexivity]).
    destruct (readPage (firstPage (headerPage raw)) (curPage raw) bm1)
      as [[st2 ptr2] bm2] eqn:Hr2.
    apply readPage_inv in Hr2 as (Hp2 & _).
    destruct st2; cbn; try (split; [congruence | reflexivity]).
    all: destruct (unPinPage _ _ _) as [ust ubm] eqn:Hu;
      apply unPinPage_inv in Hu as (Hup & _); cbn; split; [congruence | reflexivity]. }
  destruct Hsame as [Hsp Hsh].
  split; [ | split; [ | split; [ | split; [ | split ] ] ] ].
  - rewrite Hsp, Hsh. exact Hch.
  - rewrite Hcp. congruence.
  - rewrite Hsh. congruence.
  - rewrite Hsh. exact Hpc.
  - cbn [app]. rewrite Hsh, Hrc, all_rids_single. reflexivity.
  - exact Hok.
Qed.



(** ** Filtered scans *)

Lemma filter_skip_unmatched (m : RID → bool) (rs : list RID) :
  List.filter m rs
  = match skip_unmatched m rs with
    | [] => []
    | rid :: rest => rid :: List.filter m rest
    end.
Proof.
  induction rs as [| r rest IH]; [reflexivity |].
  cbn [List.filter skip_unmatched]. destruct (m r); [reflexivity | exact IH].
Qed.

Lemma filter_ext_bool (m m' : RID → bool) (rs : list RID) :
  (∀ r, m r = m' r) → List.filter m rs = List.filter m' rs.
Proof.
  intros He. induction rs as [| r rest IH]; [reflexivity |].
  cbn [List.filter]. rewrite He, IH. reflexivity.
Qed.

Lemma scan_all_filtered (n : nat) : ∀ (s : State) (pg : Page) (l : list Page) (fuel : nat),
  positioned s pg l →
  (length (List.filter (matches s) (remaining s pg l)) < n)%nat →
  (length (remaining s pg l) + length l < fuel)%nat →
  ∃ s', scan_all n fuel s
        = Val (List.filter (matches s) (remaining s pg l), FILEEOF, s')
        ∧ same_file s s'.
Proof.
  induction n as [| n IH]; intros s pg l fuel Hpos Hn Hfuel; [lia |].
  cbn [scan_all]. rewrite (positioned_scanNext _ _ _ _ _ Hpos).
  destruct (scanNext_loop_spec fuel s pg l NULLRID Hpos Hfuel)
    as (s' & pg' & l' & Hp' & Hs' & Hl' & Hres).
  rewrite (filter_skip_unmatched (matches s) (remaining s pg l)) in *.
  pose proof (skip_unmatched_length (matches s) (remaining s pg l)) as Hlen.
  destruct (skip_unmatched (matches s) (remaining s pg l)) as [| rid rest].
  - destruct Hres as [-> _]. exists s'. split; [reflexivity | exact Hs'].
  - destruct Hres as (-> & _ & Hrest).
    assert (Hm : ∀ r, matches s' r = matches s r)
      by (intros r; apply matches_same; exact Hs').
    destruct (IH s' pg' l' fuel Hp') as (s'' & Hall & Hs'').
    + rewrite Hrest, (filter_ext_bool _ _ _ Hm). cbn [length] in Hn. lia.
    + rewrite Hrest. cbn [length] in Hlen. lia.
    + rewrite Hall, Hrest, (filter_ext_bool _ _ _ Hm).
      exists s''. split; [reflexivity |]. eapply same_file_trans; eassumption.
Qed.

(** The parameters [startScan] accepts keep [matchRec] inside every
    record, as long as the sum of offset and length is an [int]: the
    offset is not negative, the length positive, and for INTEGER and
    FLOAT the length is the number of bytes read. *)
Lemma startScan_in_bounds (raw : State) (o len : Z) (t : Datatype)
    (flt : option (list Z)) (c : Operator) (rec : Rec) :
  (is_Some flt → o + len < 2 ^ 31) →
  matchRec_in_bounds rec (snd (startScan o len t flt c (snd (HeapFileScan_ctor raw)))).
Proof.
  intros Hsum.
  assert (Hnone : sc_filter (snd (HeapFileScan_ctor raw)) = None).
  { unfold HeapFileScan_ctor. destruct (HeapFile_ctor raw). reflexivity. }
  unfold startScan. destruct flt as [f |].
  - destruct (bad_scan_parm o len t c) eqn:Hbad; cbn [snd].
    + intros [x Hx]. congruence.
    + intros _. cbn [sc_offset sc_length sc_type set_scan].
      assert (Hok : ¬ invalid_parameters o len t c).
      { rewrite <- bad_scan_parm_spec. congruence. }
      unfold invalid_parameters in Hok. specialize (Hsum ltac:(eauto)).
      assert (Ho : 0 <= o) by lia. assert (Hl : 1 <= len) by lia.
      split; [exact Ho |]. split; [lia |]. split; [exact Hsum |].
      unfold width. cbn [sc_type sc_length set_scan]. unfold sizeof_int, sizeof_float in *.
      destruct t; try lia.
      * destruct (decide (len = 4)); [lia | exfalso; apply Hok; tauto].
      * destruct (decide (len = 4)); [lia | exfalso; apply Hok; tauto].
  - cbn [snd]. intros [x Hx]. discriminate Hx.
Qed.

(** ** Fetching a record by its RID *)

(** [HeapFile::getRecord(rid)] on a handle in order that has a current
    page, for a RID on a data page of the file.  The page of the RID
    becomes (or stays) the current page; the record in the slot is
    returned and becomes [curRec], or the slot is empty or out of range,
    the status is INVALIDSLOTNO and [curRec] stays.  No page image and no
    header field changes.  When the RID is on the current page no
    buffer-manager call is made; otherwise the old page is unpinned with
    its dirty flag, the new page is pinned and starts clean. *)
Lemma getRecord_at_spec (rid : RID) (rec : Rec) (s : State) (p : Z) (pg : Page) :
  handle_ok s → curPage s = Some p → pages (bufMgr s) !! pageNo rid = Some pg →
  ∃ s',
    HeapFile_getRecord rid rec s
    = match slot_at (slotNo rid) pg with
      | Some r => Val (OK, r, set_curRec rid s')
      | None => Val (INVALIDSLOTNO, rec, s')
      end
    ∧ curPage s' = Some (pageNo rid) ∧ curPageNo s' = pageNo rid
    ∧ curRec s' = curRec s
    ∧ handle_ok s' ∧ handle_ok (set_curRec rid s')
    ∧ pages (bufMgr s') = pages (bufMgr s) ∧ headerPage s' = headerPage s
    ∧ (if bool_decide (p = pageNo rid)
       then s' = s
       else trace (bufMgr s')
            = trace (bufMgr s)
              ++ [EvUnPin p (curDirtyFlag s) true; EvRead (pageNo rid) true]
            ∧ curDirtyFlag s' = false).
Proof.
  intros Hok Hp Hpg.
  pose proof Hok as Hok0. unfold handle_ok in Hok0. rewrite Hp in Hok0.
  pose proof Hok0 as (_ & _ & Hcons & _). destruct (Hcons p eq_refl) as [Hcno _].
  unfold HeapFile_getRecord.
  assert (Hfetch : ∀ x, curPage x = Some (pageNo rid) →
            pages (bufMgr x) = pages (bufMgr s) →
            match deref x with
            | Some pg0 =>
                let '(status, rec0) := Page_getRecord rid rec pg0 in
                match status with
                | OK => Val (OK, rec0, set_curRec rid x)
                | _ => Val (status, rec0, x)
                end
            | None => NullDeref
            end
            = match slot_at (slotNo rid) pg with
              | Some r => Val (OK, r, set_curRec rid x)
              | None => Val (INVALIDSLOTNO, rec, x)
              end).
  { intros x Hx Hxp. unfold deref. rewrite Hx, Hxp, Hpg. unfold Page_getRecord.
    destruct (slot_at (slotNo rid) pg); reflexivity. }
  rewrite Hcno. destruct (decide (p = pageNo rid)) as [Hsame | Hdiff].
  2: { (* another page *)
    rewrite (bool_decide_eq_true_2 (p ≠ pageNo rid)) by exact Hdiff.
    rewrite (bool_decide_eq_false_2 (p = pageNo rid)) by exact Hdiff. rewrite Hp.
    destruct (pins_agree_unpin _ _ _ _ (curDirtyFlag s) Hok0)
      as (ubm & Hu & Hnull & Hup & Huh & _ & Hut).
    rewrite Hcno in Hu. rewrite Hu.
    cbn [curPage bufMgr set_bufMgr].
    destruct (pins_agree_read ubm (headerPageNo s) 0 (pageNo rid) (curPage s) (Hnull 0))
      as (rst & rptr & rbm & Hr & Hrp & _ & _ & Hcase).
    rewrite Hr.
    destruct Hcase as [(-> & -> & _ & Hok') | (_ & _ & Hex & _)].
    2: { unfold page_exists in Hex. rewrite Hup, Hpg in Hex.
         rewrite (bool_decide_eq_true_2 (is_Some (Some pg))) in Hex by eauto.
         rewrite orb_true_r in Hex. discriminate. }
    eexists. split; [apply Hfetch; [reflexivity | cbn; congruence] |].
    cbn. split; [reflexivity |]. split; [reflexivity |]. split; [reflexivity |].
    split; [exact Hok' |]. split; [exact Hok' |]. split; [congruence |].
    split; [reflexivity |]. split; [ | reflexivity ].
    apply readPage_inv in Hr as (_ & _ & _ & [(_ & _ & _ & _ & ->) | (Hbad & _)]);
      [ | discriminate ].
    rewrite Hut, Hcno, <- app_assoc. reflexivity. }
  - (* the current page *)
    rewrite (bool_decide_eq_false_2 (p ≠ pageNo rid)) by tauto.
    rewrite (bool_decide_eq_true_2 (p = pageNo rid)) by exact Hsame.
    exists s. split; [apply Hfetch; [congruence | reflexivity] |].
    split; [congruence |]. split; [congruence |]. split; [reflexivity |].
    split; [exact Hok |]. split; [exact Hok |]. split; [reflexivity |].
    split; reflexivity.
Qed.

(** ** Deleting the current record of a scan *)

Lemma filter_all (P : Z → Prop) `{!∀ x, Decision (P x)} (L : list Z) :
  Forall P L → filter P L = L.
Proof.
  induction 1 as [| x L Hx _ IH]; [reflexivity |].
  rewrite filter_cons_True by exact Hx. rewrite IH. reflexivity.
Qed.

Lemma live_from_above (sl : list (option Rec)) (i c : Z) :
  c <= i → Forall (λ j, j ≠ c) (live_from (i + 1) sl).
Proof.
  intros Hc. apply Forall_forall. intros j Hj. apply live_from_bounds in Hj. lia.
Qed.

Lemma live_from_delete (sl : list (option Rec)) : ∀ (i : Z) (n : nat),
  live_from i (<[n := None]> sl) = filter (λ j, j ≠ i + Z.of_nat n) (live_from i sl).
Proof.
  induction sl as [| o t IH]; intros i n; [reflexivity |].
  destruct n as [| n].
  - cbn [insert list_insert live_from]. rewrite Z.add_0_r.
    destruct o as [r |].
    + rewrite filter_cons_False by (intros H; apply H; reflexivity).
      symmetry. apply filter_all. apply live_from_above. lia.
    + symmetry. apply filter_all. apply live_from_above. lia.
  - cbn [insert list_insert live_from].
    replace (i + Z.of_nat (S n)) with (i + 1 + Z.of_nat n) by lia.
    destruct o as [r |].
    + rewrite filter_cons_True by lia. rewrite IH. reflexivity.
    + apply IH.
Qed.

Lemma filter_gt_ne (c : Z) (L : list Z) :
  filter (λ k, c < k) (filter (λ k, k ≠ c) L) = filter (λ k, c < k) L.
Proof.
  induction L as [| x L IH]; [reflexivity |].
  destruct (decide (x = c)) as [-> | Hne].
  - rewrite (filter_cons_False (λ k, k ≠ c)) by (intros H; apply H; reflexivity).
    rewrite (filter_cons_False (λ k, c < k)) by lia. exact IH.
  - rewrite (filter_cons_True (λ k, k ≠ c)) by exact Hne.
    destruct (decide (c < x)) as [Hlt | Hge].
    + rewrite !(filter_cons_True (λ k, c < k)) by exact Hlt. rewrite IH. reflexivity.
    + rewrite !(filter_cons_False (λ k, c < k)) by exact Hge. exact IH.
Qed.

Lemma chain_insert_frame (pgs : gmap Z Page) (p : Z) (x : Page) (l : list Page) : ∀ f,
  (∀ q, q ∈ l → pageId q ≠ p) → chain pgs f l → chain (<[p := x]> pgs) f l.
Proof.
  induction l as [| y l IH]; intros f Hne H; [exact H |].
  cbn [chain] in *. destruct H as (Hge & Hlk & Hid & Hn).
  split; [exact Hge |]. split.
  - rewrite lookup_insert_ne; [exact Hlk |]. intros ->. apply (Hne y); [left | exact Hid].
  - split; [exact Hid |]. apply IH; [ | exact Hn ].
    intros q Hq. apply Hne. right. exact Hq.
Qed.

(** The pages before a page of a chain have other numbers than it. *)
Lemma chain_prefix_fresh (pgs : gmap Z Page) (pre : list Page) (pg : Page) (l : list Page)
    (f : Z) :
  chain pgs f (pre ++ pg :: l) → ∀ q, q ∈ pre → pageId q ≠ pageId pg.
Proof.
  intros H q Hq. apply list_elem_of_split in Hq as (l1 & l2 & ->).
  rewrite <- app_assoc in H. cbn [app] in H. apply chain_suffix in H.
  intros Heq. eapply (chain_head_fresh _ _ _ _ H pg); [ | congruence ].
  apply elem_of_app. right. left.
Qed.

Lemma slot_at_delete_eq (pg : Page) (j : Z) :
  slot_at j (mkPage (pageId pg) (nextPage pg) (<[Z.to_nat j := None]> (slots pg))) = None.
Proof.
  unfold slot_at. cbn [slots]. destruct (0 <=? j); [ | reflexivity ].
  destruct (decide (Z.to_nat j < length (slots pg))%nat) as [Hlt | Hge].
  - rewrite list_lookup_insert_eq by exact Hlt. reflexivity.
  - rewrite list_insert_ge by lia. rewrite lookup_ge_None_2 by lia. reflexivity.
Qed.

Lemma slot_at_delete_ne (pg : Page) (j k : Z) :
  0 <= j → k ≠ j →
  slot_at k (mkPage (pageId pg) (nextPage pg) (<[Z.to_nat j := None]> (slots pg)))
  = slot_at k pg.
Proof.
  intros Hj Hne. unfold slot_at. cbn [slots].
  destruct (Z.leb_spec 0 k); [ | reflexivity ].
  rewrite list_lookup_insert_ne by lia. reflexivity.
Qed.

Lemma slot_at_nonneg (pg : Page) (j : Z) (r : Rec) : slot_at j pg = Some r → 0 <= j.
Proof.
  unfold slot_at. destruct (Z.leb_spec 0 j); [tauto | discriminate].
Qed.

Lemma rids_filter_other_page (p j : Z) (pg : Page) :
  pageId pg ≠ p → filter (λ r, r ≠ mkRID p j) (rids_of pg) = rids_of pg.
Proof.
  intros Hne. unfold rids_of. induction (live pg) as [| k L IH]; [reflexivity |].
  cbn [fmap list_fmap]. rewrite filter_cons_True by congruence.
  f_equal. exact IH.
Qed.

Lemma all_rids_filter_other (p j : Z) (l : list Page) :
  (∀ q, q ∈ l → pageId q ≠ p) → filter (λ r, r ≠ mkRID p j) (all_rids l) = all_rids l.
Proof.
  induction l as [| x l IH]; intros Hne; [reflexivity |].
  rewrite all_rids_cons, filter_app.
  rewrite rids_filter_other_page by (apply Hne; left).
  rewrite IH by (intros q Hq; apply Hne; right; exact Hq). reflexivity.
Qed.

Lemma rids_of_deleted (pg : Page) (j : Z) :
  0 <= j →
  rids_of (mkPage (pageId pg) (nextPage pg) (<[Z.to_nat j := None]> (slots pg)))
  = filter (λ r, r ≠ mkRID (pageId pg) j) (rids_of pg).
Proof.
  intros Hj. unfold rids_of, live. cbn [pageId slots].
  rewrite live_from_delete, Z.add_0_l, Z2Nat.id by exact Hj.
  induction (live_from 0 (slots pg)) as [| k L IH]; [reflexivity |].
  cbn [fmap list_fmap]. destruct (decide (k = j)) as [-> | Hne].
  - rewrite (filter_cons_False (λ x, x ≠ j)) by (intros H; apply H; reflexivity).
    rewrite (filter_cons_False (λ r, r ≠ mkRID (pageId pg) j))
      by (intros H; apply H; reflexivity).
    exact IH.
  - rewrite (filter_cons_True (λ x, x ≠ j)) by exact Hne.
    rewrite (filter_cons_True (λ r, r ≠ mkRID (pageId pg) j)) by congruence.
    cbn [fmap list_fmap]. f_equal. exact IH.
Qed.

Lemma chain_replace (pgs pgs' : gmap Z Page) (pg pg' : Page) (rest : list Page)
    (pre : list Page) : ∀ f (l : list Page),
  chain pgs f (pre ++ pg :: l) →
  (∀ q, q ∈ pre → pgs' !! pageId q = pgs !! pageId q) →
  pgs' !! pageId pg = Some pg' → pageId pg' = pageId pg →
  chain pgs' (nextPage pg') rest →
  chain pgs' f (pre ++ pg' :: rest).
Proof.
  induction pre as [| x pre IH]; intros f l H Hsame Hlk Hid Hrest.
  - cbn [app chain] in *. destruct H as (Hge & _ & Hf & _). subst f.
    rewrite Hid. tauto.
  - cbn [app chain] in *. destruct H as (Hge & Hx & Hf & Hn).
    split; [exact Hge |]. split.
    + subst f. rewrite Hsame by left. exact Hx.
    + split; [exact Hf |]. eapply IH; try eassumption.
      intros q Hq. apply Hsame. right. exact Hq.
Qed.

(** [deleteRecord] on a scan positioned on a live record.  The call
    succeeds; the record, and no other, is gone from the file; every other
    RID names the record it named before; the chain is the same chain; the
    header counts one record less; and the scan stays where it was, with
    the same records still to visit. *)
Lemma deleteRecord_in_scan (s : State) (pre : list Page) (pg : Page) (l : list Page)
    (r : Rec) :
  positioned s pg l →
  chain (pages (bufMgr s)) (firstPage (headerPage s)) (pre ++ pg :: l) →
  slot_at (slotNo (curRec s)) pg = Some r →
  let gone := mkRID (pageId pg) (slotNo (curRec s)) in
  ∃ s' pg',
    deleteRecord s = Val (OK, s')
    ∧ positioned s' pg' l
    ∧ chain (pages (bufMgr s')) (firstPage (headerPage s')) (pre ++ pg' :: l)
    ∧ all_rids (pre ++ pg' :: l) = filter (λ x, x ≠ gone) (all_rids (pre ++ pg :: l))
    ∧ remaining s' pg' l = remaining s pg l
    ∧ rec_at (pages (bufMgr s')) gone = None
    ∧ (∀ x, x ≠ gone → rec_at (pages (bufMgr s')) x = rec_at (pages (bufMgr s)) x)
    ∧ recCnt (headerPage s') = dec32 (recCnt (headerPage s))
    ∧ curRec s' = curRec s
    ∧ trace (bufMgr s') = trace (bufMgr s)
    ∧ curDirtyFlag s' = true ∧ hdrDirtyFlag s' = true.
Proof.
  intros Hpos Hch Hslot gone.
  pose proof (positioned_deref _ _ _ Hpos) as Hd.
  pose proof Hpos as (Hcp & Hcno & Hchp & Hpin).
  pose proof Hchp as Hchp'. cbn [chain] in Hchp'. destruct Hchp' as (Hge & Hlk & _ & Hnext).
  pose proof (slot_at_nonneg _ _ _ Hslot) as Hj.
  set (j := slotNo (curRec s)) in *.
  set (pg' := mkPage (pageId pg) (nextPage pg) (<[Z.to_nat j := None]> (slots pg))).
  unfold deleteRecord. rewrite Hcp, Hd. unfold Page_deleteRecord. fold j. rewrite Hslot.
  fold pg'. eexists _, pg'. split; [reflexivity |].
  assert (Hl : ∀ q, q ∈ l → pageId q ≠ pageId pg).
  { apply (chain_head_fresh _ _ _ _ Hchp). }
  assert (Hpre : ∀ q, q ∈ pre → pageId q ≠ pageId pg).
  { apply (chain_prefix_fresh _ _ _ _ _ Hch). }
  assert (Hchl : chain (<[pageId pg := pg']> (pages (bufMgr s))) (nextPage pg') l).
  { apply chain_insert_frame; [exact Hl | exact Hnext]. }
  split; [ | split; [ | split; [ | split; [ | split; [ | split ] ] ] ] ].
  - unfold positioned. cbn -[chain pins].
    split; [exact Hcp |]. split; [exact Hcno |]. split; [ | exact Hpin ].
    cbn [chain]. split; [exact Hge |]. split; [apply lookup_insert_eq |].
    split; [reflexivity | exact Hchl].
  - cbn -[chain]. eapply chain_replace.
    + exact Hch.
    + intros q Hq. apply lookup_insert_ne. intros Heq. apply (Hpre q Hq). congruence.
    + apply lookup_insert_eq.
    + reflexivity.
    + exact Hchl.
  - unfold gone. rewrite !all_rids_app, !all_rids_cons, !filter_app.
    rewrite (all_rids_filter_other _ _ pre Hpre), (all_rids_filter_other _ _ l Hl).
    unfold pg'. rewrite rids_of_deleted by exact Hj. reflexivity.
  - unfold remaining. cbn [curRec set_hdrDirtyFlag set_headerPage set_curDirtyFlag set_bufMgr].
    fold j. unfold live at 1. cbn [pg' slots pageId].
    rewrite live_from_delete, Z.add_0_l, Z2Nat.id by exact Hj.
    fold (live pg). rewrite filter_gt_ne. reflexivity.
  - cbn -[rec_at]. unfold rec_at, gone. cbn [pageNo slotNo].
    rewrite lookup_insert_eq. apply slot_at_delete_eq.
  - intros x Hx. cbn -[rec_at]. unfold rec_at.
    destruct (decide (pageNo x = pageId pg)) as [Heq | Hne].
    + rewrite Heq, lookup_insert_eq, Hlk. apply slot_at_delete_ne; [exact Hj |].
      intros Hs. apply Hx. destruct x as [xp xs]. cbn [pageNo slotNo] in *.
      unfold gone. congruence.
    + rewrite lookup_insert_ne by congruence. reflexivity.
  - repeat split.
Qed.

(** ** Where a scan stands after [scanNext] *)

Lemma stands_on_from (s s2 : State) (pg pg2 : Page) (l l2 : list Page) (mid : list Page)
    st rid s' :
  same_file s s2 → pg :: l = mid ++ pg2 :: l2 →
  stands_on s2 pg2 l2 st rid s' → stands_on s pg l st rid s'.
Proof.
  intros Hsame Hsplit (Hsame2 & mid' & pg' & l' & Heq & H).
  split; [eapply same_file_trans; eassumption |].
  exists (mid ++ mid'), pg', l'.
  split; [rewrite Hsplit, Heq, <- app_assoc; reflexivity | exact H].
Qed.

Lemma scanNext_loop_where (fuel : nat) : ∀ (s : State) (pg : Page) (l : list Page) (out : RID),
  positioned s pg l →
  match scanNext_loop fuel out s with
  | Val (st, rid, s') => stands_on s pg l st rid s'
  | _ => True
  end.
Proof.
  induction fuel as [| fuel IH]; intros s pg l out Hpos; [exact I |].
  pose proof (positioned_deref _ _ _ Hpos) as Hd.
  pose proof Hpos as (Hcp & Hno & Hch & Hpin).
  cbn [chain] in Hch. destruct Hch as (Hge & Hlk & _ & Hnext).
  cbn [scanNext_loop]. rewrite Hd. unfold Page_nextRecord, Page_getNextPage.
  destruct (filter (λ j, slotNo (curRec s) < j) (live pg)) as [| j rest] eqn:Hf.
  - destruct l as [| pg2 l2].
    + cbn [chain] in Hnext. rewrite Hnext. cbn [Z.eqb].
      split; [apply same_file_refl |].
      exists [], pg, []. split; [reflexivity |]. split; [exact Hpos | discriminate].
    + cbn [chain] in Hnext. destruct Hnext as (Hge2 & Hlk2 & Hid2 & Hnext2).
      destruct (Z.eqb_spec (nextPage pg) (-1)) as [Hn | _]; [lia |].
      destruct (unPinPage (curPageNo s) (curDirtyFlag s) (bufMgr s)) as [ust ubm] eqn:Hu.
      apply unPinPage_inv in Hu as (Hup & Huh & _ & _).
      cbn [curPageNo set_curPageNo set_curPage set_bufMgr curPage bufMgr].
      destruct (readPage (nextPage pg) None ubm) as [[rst rptr] rbm] eqn:Hr.
      apply readPage_inv in Hr as (Hrp & Hrh & _ & Hr).
      destruct Hr as [(-> & -> & _ & Hrc & _) | (_ & _ & He & _)].
      2: { unfold page_exists in He. rewrite Hup, Hlk2 in He.
           rewrite (bool_decide_eq_true_2 (is_Some (Some pg2))) in He by eauto.
           rewrite orb_true_r in He. discriminate. }
      set (s4 := set_curRec NULLRID (set_curDirtyFlag false
                   (set_curPage (Some (nextPage pg)) (set_bufMgr rbm
                     (set_curPageNo (nextPage pg) (set_curPage None (set_bufMgr ubm s))))))).
      assert (Hp4 : positioned s4 pg2 l2).
      { unfold positioned. cbn [s4 curPage curPageNo bufMgr set_curRec set_curDirtyFlag
                                set_curPage set_bufMgr set_curPageNo].
        rewrite Hid2, Hrp, Hup. split; [reflexivity |]. split; [reflexivity |].
        split; [cbn [chain]; tauto |].
        rewrite (pins_insert _ _ _ _ Hrc). lia. }
      assert (Hs4 : same_file s s4).
      { unfold same_file. cbn [s4 curPage curPageNo bufMgr set_curRec set_curDirtyFlag
                               set_curPage set_bufMgr set_curPageNo headerPage sc_offset
                               sc_length sc_type sc_filter sc_op markedPageNo markedRec].
        rewrite Hrp, Hrh, Hup, Huh. tauto. }
      pose proof (positioned_deref _ _ _ Hp4) as Hd4. rewrite Hd4.
      unfold Page_firstRecord.
      destruct (live pg2) as [| j2 rest2] eqn:Hl2.
      * assert (Hp5 : positioned (set_curRec (curRec s4) s4) pg2 l2)
          by (unfold positioned in *; simpl; exact Hp4).
        assert (Hs5 : same_file s (set_curRec (curRec s4) s4))
          by (unfold same_file in *; simpl; exact Hs4).
        specialize (IH _ pg2 l2 out Hp5).
        destruct (scanNext_loop fuel out (set_curRec (curRec s4) s4))
          as [[[st rid] s'] | |]; [ | exact I | exact I ].
        apply (stands_on_from s _ pg pg2 (pg2 :: l2) l2 [pg] st rid s' Hs5 eq_refl IH).
      * set (s5 := set_curRec (mkRID (pageId pg2) j2) s4).
        assert (Hp5 : positioned s5 pg2 l2) by (unfold positioned in *; simpl; exact Hp4).
        assert (Hs5 : same_file s s5) by (unfold same_file in *; simpl; exact Hs4).
        assert (Hj2 : slotNo (curRec s5) ∈ live pg2) by (rewrite Hl2; left).
        destruct (examine_live out s5 pg2 (positioned_deref _ _ _ Hp5) Hj2)
          as (r & Hr & He).
        rewrite He.
        destruct (matchRec r s5) eqn:Hm.
        -- split; [exact Hs5 |].
           exists [pg], pg2, l2. split; [reflexivity |]. split; [exact Hp5 |].
           intros _. split; [reflexivity |]. split; [reflexivity |].
           split; [exact Hj2 |].
           rewrite <- Hm. apply matches_on_page; [ | exact Hr ].
           destruct Hp5 as (_ & _ & Hc5 & _). cbn [chain] in Hc5. tauto.
        -- specialize (IH s5 pg2 l2 out Hp5).
           destruct (scanNext_loop fuel out s5) as [[[st rid] s'] | |];
             [ | exact I | exact I ].
           apply (stands_on_from s s5 pg pg2 (pg2 :: l2) l2 [pg] st rid s' Hs5 eq_refl IH).
  - destruct (positioned_step s pg l j rest Hpos Hf) as (Hp1 & Hs1 & Hrem1 & Hj).
    set (s1 := set_curRec (mkRID (pageId pg) j) s) in *.
    assert (Hj1 : slotNo (curRec s1) ∈ live pg) by exact Hj.
    destruct (examine_live out s1 pg (positioned_deref _ _ _ Hp1) Hj1) as (r & Hr & He).
    rewrite He.
    destruct (matchRec r s1) eqn:Hm.
    + split; [exact Hs1 |].
      exists [], pg, l. split; [reflexivity |]. split; [exact Hp1 |].
      intros _. split; [reflexivity |]. split; [reflexivity |].
      split; [exact Hj1 |].
      rewrite <- Hm. apply matches_on_page; [ | exact Hr ].
      destruct Hp1 as (_ & _ & Hc1 & _). cbn [chain] in Hc1. tauto.
    + specialize (IH s1 pg l out Hp1).
      destruct (scanNext_loop fuel out s1) as [[[st rid] s'] | |];
        [ | exact I | exact I ].
      apply (stands_on_from s s1 pg pg l l [] st rid s' Hs1 eq_refl IH).
Qed.

(** ** A scan begun without a current page *)

Lemma scanNext_restart_spec (fuel : nat) (out : RID) (s : State) (pg : Page) (l : list Page) :
  curPage s = None → 0 <= curPageNo s →
  chain (pages (bufMgr s)) (firstPage (headerPage s)) (pg :: l) →
  (length (all_rids (pg :: l)) + length l < fuel)%nat →
  match live pg with
  | [] =>
      ∃ s', scanNext fuel out s = Val (FILEEOF, out, s')
            ∧ curPage s' = None ∧ curPageNo s' = -1
            ∧ (∀ q, pins q (bufMgr s') = pins q (bufMgr s))
            ∧ pages (bufMgr s') = pages (bufMgr s)
            ∧ trace (bufMgr s')
              = trace (bufMgr s)
                ++ [EvRead (pageId pg) true; EvUnPin (pageId pg) false true]
  | _ :: _ =>
      ∃ st rid s' pg' l',
        scanNext fuel out s = Val (st, rid, s')
        ∧ positioned s' pg' l' ∧ same_file s s'
        ∧ match skip_unmatched (matches s) (all_rids (pg :: l)) with
          | [] => st = FILEEOF ∧ rid = out
          | r :: rest => st = OK ∧ rid = r ∧ curRec s' = r ∧ remaining s' pg' l' = rest
          end
        ∧ (length l' <= length l)%nat
  end.
Proof.
  intros Hcp Hno Hch Hfuel. pose proof Hch as Hch0.
  cbn [chain] in Hch. destruct Hch as (Hge & Hlk & Hid & Hnext).
  unfold scanNext. destruct (Z.ltb_spec (curPageNo s) 0) as [Hlt | _]; [lia |].
  rewrite Hcp. cbn [curPageNo set_curPageNo curPage bufMgr].
  destruct (Z.eqb_spec (firstPage (headerPage s)) (-1)) as [Heq | _]; [lia |].
  rewrite ?Hcp.
  destruct (readPage (firstPage (headerPage s)) None (bufMgr s)) as [[rst rptr] rbm] eqn:Hr.
  apply readPage_inv in Hr as (Hrp & Hrh & _ & Hr).
  destruct Hr as [(-> & -> & _ & Hrc & Hrt) | (_ & _ & He & _)].
  2: { unfold page_exists in He. rewrite Hlk in He.
       rewrite (bool_decide_eq_true_2 (is_Some (Some pg))) in He by eauto.
       rewrite orb_true_r in He. discriminate. }
  set (p := firstPage (headerPage s)) in *.
  set (s4 := set_curRec NULLRID (set_curDirtyFlag false
               (set_curPage (Some p) (set_bufMgr rbm (set_curPageNo p s))))).
  assert (Hp4 : positioned s4 pg l).
  { unfold positioned. cbn [s4 curPage curPageNo bufMgr set_curRec set_curDirtyFlag
                            set_curPage set_bufMgr set_curPageNo].
    rewrite Hid, Hrp. split; [reflexivity |]. split; [reflexivity |].
    split; [exact Hch0 |]. rewrite (pins_insert _ _ _ _ Hrc). lia. }
  assert (Hs4 : same_file s s4).
  { unfold same_file. cbn [s4 curPage curPageNo bufMgr set_curRec set_curDirtyFlag
                           set_curPage set_bufMgr set_curPageNo headerPage sc_offset
                           sc_length sc_type sc_filter sc_op markedPageNo markedRec].
    rewrite Hrp, Hrh. tauto. }
  pose proof (positioned_deref _ _ _ Hp4) as Hd4. fold s4. rewrite Hd4.
  unfold Page_firstRecord.
  destruct (live pg) as [| j rest] eqn:Hlive.
  - cbn [curPageNo curDirtyFlag bufMgr s4 set_curRec set_curDirtyFlag set_curPage
         set_bufMgr set_curPageNo].
    destruct (unPinPage p false rbm) as [ust ubm] eqn:Hu.
    apply unPinPage_inv in Hu as (Hup & _ & _ & Hu).
    destruct Hu as [(_ & (n & Hn & Huc) & Hut) | (_ & Hz & _)].
    2: { rewrite (pins_insert _ _ _ _ Hrc) in Hz. discriminate. }
    rewrite (pins_insert _ _ _ _ Hrc) in Hn. injection Hn as Hn.
    eexists. split; [reflexivity |]. cbn.
    split; [reflexivity |]. split; [reflexivity |].
    split.
    { intros q. unfold pins. rewrite Huc, Hrc.
      destruct (decide (q = p)) as [-> | Hne].
      - rewrite lookup_insert_eq. cbn. rewrite <- Hn. reflexivity.
      - rewrite !lookup_insert_ne by congruence. reflexivity. }
    split; [rewrite Hup, Hrp; reflexivity |].
    rewrite Hut, Hrt, <- app_assoc, <- Hid. reflexivity.
  - set (s5 := set_curRec (mkRID (pageId pg) j) s4).
    assert (Hp5 : positioned s5 pg l) by (unfold positioned in *; simpl; exact Hp4).
    assert (Hs5 : same_file s s5) by (unfold same_file in *; simpl; exact Hs4).
    assert (Hj : slotNo (curRec s5) ∈ live pg) by (rewrite Hlive; left).
    destruct (examine_live out s5 pg (positioned_deref _ _ _ Hp5) Hj) as (r & Hrec & He).
    rewrite He.
    assert (Hall : all_rids (pg :: l)
                   = mkRID (pageId pg) j :: (mkRID (pageId pg) <$> rest) ++ all_rids l).
    { rewrite all_rids_cons. unfold rids_of. rewrite Hlive. reflexivity. }
    assert (Hrem5 : remaining s5 pg l = (mkRID (pageId pg) <$> rest) ++ all_rids l).
    { unfold remaining. cbn [s5 curRec set_curRec slotNo].
      rewrite (filter_gt_next (-1) j (live pg) rest (live_sorted pg)); [reflexivity |].
      rewrite filter_gt_all by apply live_nonneg. exact Hlive. }
    assert (Hm : matches s (mkRID (pageId pg) j) = matchRec r s5).
    { rewrite <- (matches_same s s5) by exact Hs5.
      apply matches_on_page; [ | exact Hrec ].
      destruct Hp5 as (_ & _ & Hc5 & _). cbn [chain] in Hc5. tauto. }
    rewrite Hall. cbn [skip_unmatched]. rewrite Hm.
    destruct (matchRec r s5).
    + exists OK, (curRec s5), s5, pg, l. split; [reflexivity |].
      split; [exact Hp5 |]. split; [exact Hs5 |].
      split; [ | lia ].
      split; [reflexivity |]. split; [reflexivity |]. split; [reflexivity | exact Hrem5].
    + destruct (scanNext_loop_spec fuel s5 pg l out Hp5) as (s' & pg' & l' & H1 & H2 & H3 & H4).
      { rewrite Hrem5. rewrite Hall in Hfuel. cbn [length] in Hfuel. lia. }
      rewrite Hrem5 in H4.
      rewrite (skip_unmatched_ext _ (matches s)) in H4
        by (intros rid; apply matches_same; exact Hs5).
      destruct (skip_unmatched (matches s) ((mkRID (pageId pg) <$> rest) ++ all_rids l))
        as [| r0 rest0].
      * destruct H4 as [Hrun _]. exists FILEEOF, out, s', pg', l'.
        split; [exact Hrun |]. split; [exact H1 |].
        split; [eapply same_file_trans; [exact Hs5 | exact H2] |].
        split; [split; reflexivity | exact H3].
      * destruct H4 as (Hrun & Hc & Hrm). exists OK, r0, s', pg', l'.
        split; [exact Hrun |]. split; [exact H1 |].
        split; [eapply same_file_trans; [exact Hs5 | exact H2] |].
        split; [ | exact H3 ].
        split; [reflexivity |]. split; [reflexivity |]. split; assumption.
Qed.

(** Without a filter the scan begun without a current page returns all
    records of the file when the first page holds one, and none at all
    when it does not. *)
Lemma scan_all_restart (s : State) (pg : Page) (l : list Page) (n fuel : nat) :
  curPage s = None → 0 <= curPageNo s → sc_filter s = None →
  chain (pages (bufMgr s)) (firstPage (headerPage s)) (pg :: l) →
  (length (all_rids (pg :: l)) < n)%nat →
  (length (all_rids (pg :: l)) + length l < fuel)%nat →
  ∃ s', scan_all n fuel s
        = Val (match live pg with [] => [] | _ :: _ => all_rids (pg :: l) end, FILEEOF, s').
Proof.
  intros Hcp Hno Hflt Hch Hn Hfuel.
  pose proof (scanNext_restart_spec fuel NULLRID s pg l Hcp Hno Hch Hfuel) as H.
  destruct n as [| n]; [lia |]. cbn [scan_all].
  destruct (live pg) as [| j rest] eqn:Hlive.
  - destruct H as (s' & Hrun & _). rewrite Hrun. exists s'. reflexivity.
  - destruct H as (st & rid & s' & pg' & l' & Hrun & Hpos & Hsame & Hres & Hlen).
    rewrite (unfiltered_skip _ _ Hflt) in Hres.
    destruct (all_rids (pg :: l)) as [| r rs] eqn:Hall.
    { rewrite all_rids_cons in Hall. unfold rids_of in Hall. rewrite Hlive in Hall.
      discriminate Hall. }
    destruct Hres as (-> & -> & _ & Hrem). rewrite Hrun.
    assert (Hflt' : sc_filter s' = None).
    { destruct Hsame as (_ & _ & _ & _ & _ & _ & Hf & _). congruence. }
    destruct (scan_all_unfiltered n s' pg' l' fuel Hpos Hflt') as (s'' & Hscan).
    + rewrite Hrem. cbn [length] in Hn. lia.
    + rewrite Hrem. cbn [length] in Hfuel. lia.
    + rewrite Hscan, Hrem. exists s''. reflexivity.
Qed.

(** ** Example handles *)

Lemma pool_of_clean (ps : list (Z * Page)) (next : Z) :
  0 < next → Forall (λ e, e.1 < next) ps → pool_clean (pool_of ps next).
Proof.
  intros Hn Hps. unfold pool_clean, pool_of. cbn.
  split; [intros q; unfold pins; cbn; rewrite lookup_empty; reflexivity |].
  split; [exact Hn |]. split; [ | apply Forall_nil_2 ].
  intros q [x Hx]. apply elem_of_list_to_map_2 in Hx.
  rewrite Forall_forall in Hps. apply (Hps (q, x)). exact Hx.
Qed.

Lemma opened_handle_ok (raw : State) :
  pool_clean (bufMgr raw) → fst (HeapFile_ctor raw) = OK →
  handle_ok (snd (HeapFile_ctor raw)) ∧ handle_ok (snd (HeapFileScan_ctor raw)).
Proof.
  intros Hclean Hctor.
  destruct (HeapFile_ctor_handle_ok raw Hclean) as [(_ & Hok & _) | (Hbad & _)];
    [ | congruence ].
  split; [exact Hok |].
  unfold HeapFileScan_ctor. destruct (HeapFile_ctor raw) as [st0 s0].
  cbn [snd] in *. exact Hok.
Qed.

Lemma one_record_file_clean : pool_clean (bufMgr one_record_file).
Proof. apply pool_of_clean; [lia | repeat constructor; cbn; lia]. Qed.

Lemma two_page_file_clean : pool_clean (bufMgr two_page_file).
Proof. apply pool_of_clean; [lia | repeat constructor; cbn; lia]. Qed.

Lemma one_record_file_tail :
  tail_handle (snd (InsertFileScan_ctor one_record_file)) []
              (mkPage 1 (-1) [Some (int_rec 5)]).
Proof.
  apply InsertFileScan_ctor_single_page.
  - exact one_record_file_clean.
  - vm_compute. intuition discriminate.
  - reflexivity.
  - reflexivity.
  - reflexivity.
Qed.

(** ** End of file *)

(** C4, as the code has it.  Once [scanNext] has failed with FILEEOF, every
    further call fails with FILEEOF and leaves the state, the trace of
    buffer-manager calls included, exactly as it is.  The cursor then
    either has a negative [curPageNo], or it stands behind the last record
    of a page whose forward link is the terminator.  On a handle whose
    pins are accounted for, that page is the current page, [curPageNo]
    names it and it is pinned. *)
Theorem scanNext_eof_stable (fuel : nat) (out : RID) (s : State) (rid : RID) (s' : State) :
  scanNext fuel out s = Val (FILEEOF, rid, s') →
  (curPageNo s' < 0 ∨ at_end s')
  ∧ (∀ (fuel' : nat) (out' : RID), scanNext (S fuel') out' s' = Val (FILEEOF, out', s'))
  ∧ (handle_ok s →
     handle_ok s'
     ∧ (at_end s' →
        curPage s' = Some (curPageNo s')
        ∧ (0 < pins (curPageNo s') (bufMgr s'))%nat)).
Proof.
  intros H.
  assert (Hpins : handle_ok s →
            handle_ok s'
            ∧ (at_end s' →
               curPage s' = Some (curPageNo s')
               ∧ (0 < pins (curPageNo s') (bufMgr s'))%nat)).
  { intros Hok. pose proof (scanNext_handle_ok _ _ _ _ _ _ Hok H) as Hok'.
    split; [exact Hok' |]. intros (pg & Hd & _).
    apply deref_curPage in Hd as (p & Hp & _).
    destruct Hok' as (_ & Hcount & Hcur & _). destruct (Hcur p Hp) as [Hno _].
    rewrite Hno. split; [exact Hp |].
    rewrite (Hcount p), Hp. unfold held.
    rewrite (bool_decide_eq_true_2 (Some p = Some p)) by reflexivity. lia. }
  assert (Hcase : curPageNo s' < 0 ∨ at_end s').
  { unfold scanNext in H.
    destruct (Z.ltb_spec (curPageNo s) 0) as [Hneg | Hpos].
    { injection H as _ <-. left. exact Hneg. }
    destruct (curPage s) as [p |] eqn:Hp.
    { right. eapply scanNext_loop_eof. exact H. }
    cbn [curPageNo set_curPageNo curPage bufMgr headerPage] in H. rewrite ?Hp in H.
    destruct (Z.eqb_spec (firstPage (headerPage s)) (-1)) as [Hf | Hf].
    { injection H as _ <-. left. cbn [curPageNo set_curPageNo]. lia. }
    destruct (readPage (firstPage (headerPage s)) None (bufMgr s))
      as [[rst rptr] rbm] eqn:Hr.
    apply readPage_inv in Hr as (_ & _ & _ & [(-> & _) | (-> & _)]); [ | discriminate ].
    match type of H with
    | match deref ?x with _ => _ end = _ => destruct (deref x) as [pg' |]; [ | discriminate ]
    end.
    unfold Page_firstRecord in H.
    destruct (live pg') as [| j' rest'].
    { destruct (unPinPage _ _ _) as [ust ubm] in H.
      injection H as _ <-. left. cbn [curPageNo set_curPage set_curPageNo]. lia. }
    match type of H with
    | match examine ?o ?x with _ => _ end = _ =>
        destruct (examine o x) as [[[[st1 rid1] s1] |] | |] eqn:He; try discriminate
    end.
    - apply examine_inv in He as [_ Hne]. injection H as -> _ _. contradiction.
    - right. eapply scanNext_loop_eof. exact H. }
  split; [exact Hcase |]. split; [ | exact Hpins ].
  intros fuel' out'. destruct Hcase as [Hneg | Hend].
  - unfold scanNext. destruct (Z.ltb_spec (curPageNo s') 0); [reflexivity | lia].
  - apply at_end_scanNext. exact Hend.
Qed.

(** The scan of the one-record file: the second call fails with FILEEOF on
    page 1, which stays pinned, and the third call changes nothing. *)
Lemma scanNext_eof_stable_witness :
  let s0 := snd (HeapFileScan_ctor one_record_file) in
  let s1 := state_of (scanNext 5 NULLRID s0) s0 in
  let s2 := state_of (scanNext 5 NULLRID s1) s1 in
  scanNext 1 NULLRID s2 = Val (FILEEOF, NULLRID, s2)
  ∧ handle_ok s2
  ∧ curPage s2 = Some (curPageNo s2) ∧ (0 < pins (curPageNo s2) (bufMgr s2))%nat.
Proof.
  intros s0 s1 s2.
  assert (Hok1 : handle_ok s1).
  { apply (scanNext_handle_ok 5 NULLRID s0 OK (mkRID 1 0) s1).
    - apply opened_handle_ok; [exact one_record_file_clean | reflexivity].
    - vm_compute. reflexivity. }
  destruct (scanNext_eof_stable 5 NULLRID s1 NULLRID s2) as (Hcase & Hstable & Hpins).
  - vm_compute. reflexivity.
  - split; [apply Hstable |].
    destruct (Hpins Hok1) as [Hok2 Hend]. split; [exact Hok2 |].
    apply Hend. destruct Hcase as [Hneg | Hat]; [ | exact Hat ].
    vm_compute in Hneg. discriminate Hneg.
Defined.

(** C4 as stated fails: the scan of a one-record file ends with FILEEOF
    while [curPageNo] is still 1 and page 1 is still pinned. *)
Lemma scanNext_eof_keeps_page :
  let s0 := snd (HeapFileScan_ctor one_record_file) in
  let s1 := state_of (scanNext 5 NULLRID s0) s0 in
  let s2 := state_of (scanNext 5 NULLRID s1) s1 in
  answer (scanNext 5 NULLRID s0) = Some (OK, mkRID 1 0)
  ∧ answer (scanNext 5 NULLRID s1) = Some (FILEEOF, NULLRID)
  ∧ curPageNo s2 = 1 ∧ curPageNo s2 ≠ -1
  ∧ curPage s2 = Some 1 ∧ pins 1 (bufMgr s2) = 1%nat.
Proof. vm_compute. repeat split. discriminate. Qed.

(** * The handle over its life and whole-file results *)

(** ** Pins *)

(** X1.  Pin discipline over the life of a handle.  Open a handle of any of
    the three classes on a pool in which nothing is pinned, make any calls
    on it (the list may mix the member functions of the three classes; each
    class offers some of them), and destroy it.  Provided no
    [getRecord(rid)] and no [resetScan] among the calls failed to read its
    page, the handle owes exactly the pins the pool counts (one on the
    header page, one on the current page when there is one), and after the
    destructor every pin count is zero again and no [unPinPage] has failed:
    no page was unpinned without being pinned.  This is said of the runs
    that have a final state; a run in which a call dereferences the null
    current-page pointer, or in which [scanNext] exhausts its fuel, has
    none. *)
Theorem handle_lifecycle (raw : State) (cs : list Call) (log : list (Call * Status))
    (s : State) :
  pool_clean (bufMgr raw) →
  fst (HeapFile_ctor raw) = OK →
  Forall (λ e, ¬ read_failed e) log →
  (run cs (snd (HeapFileScan_ctor raw)) = Val (log, s) →
   handle_ok s ∧ pool_clean (bufMgr (HeapFileScan_dtor s)))
  ∧ (run cs (snd (InsertFileScan_ctor raw)) = Val (log, s) →
     handle_ok s ∧ pool_clean (bufMgr (InsertFileScan_dtor s)))
  ∧ (run cs (snd (HeapFile_ctor raw)) = Val (log, s) →
     handle_ok s ∧ pool_clean (bufMgr (HeapFile_dtor s))).
Proof.
  intros Hclean Hctor Hlog.
  destruct (HeapFile_ctor_handle_ok raw Hclean) as [(_ & Hok & _) | (Hbad & _)];
    [ | congruence ].
  assert (Hok' : handle_ok (snd (HeapFileScan_ctor raw))).
  { unfold HeapFileScan_ctor. destruct (HeapFile_ctor raw) as [st0 s0].
    cbn [snd] in *. exact Hok. }
  split; [ | split ]; intros Hrun.
  - pose proof (run_handle_ok cs _ _ _ Hok' Hrun Hlog) as Hs.
    split; [exact Hs | apply HeapFileScan_dtor_clean; exact Hs].
  - pose proof (run_handle_ok cs _ _ _ Hok Hrun Hlog) as Hs.
    split; [exact Hs | apply InsertFileScan_dtor_clean; exact Hs].
  - pose proof (run_handle_ok cs _ _ _ Hok Hrun Hlog) as Hs.
    split; [exact Hs | apply HeapFile_dtor_clean; exact Hs].
Qed.

(** A scan with a filter on the two-page file that deletes, marks, resets,
    fetches by RID, runs to the end of the file and ends the scan. *)
Lemma handle_lifecycle_witness :
  let cs := [CallStartScan 0 4 INTEGER (Some [5; 0; 0; 0]) GTE; CallScanNext 5;
             CallDeleteRecord; CallMarkScan; CallScanNext 5; CallResetScan;
             CallGetRecordAt (mkRID 1 0); CallScanNext 5; CallScanNext 5; CallEndScan] in
  let log := zip cs [OK; OK; OK; OK; OK; OK; INVALIDSLOTNO; OK; FILEEOF; OK] in
  ∃ s,
    run cs (snd (HeapFileScan_ctor two_page_file)) = Val (log, s)
    ∧ handle_ok s ∧ pool_clean (bufMgr (HeapFileScan_dtor s)).
Proof.
  intros cs log.
  exists (state_of (run cs (snd (HeapFileScan_ctor two_page_file))) two_page_file).
  split; [vm_compute; reflexivity |].
  refine (proj1 (handle_lifecycle two_page_file cs log _ two_page_file_clean _ _) _).
  - reflexivity.
  - repeat (apply Forall_cons; split; [cbn; tauto |]). apply Forall_nil_2.
  - vm_compute. reflexivity.
Defined.

(** X2.  The constructor on a pool in which nothing is pinned.  Either the
    first data page exists: the status is OK, the header page and the first
    page are pinned once each, the first page is the current page and
    [curRec] is the null RID.  Or it does not exist: the status is
    BADPAGENO and the header page has been unpinned again, so that nothing
    is left pinned. *)
Theorem HeapFile_ctor_outcome (raw : State) :
  pool_clean (bufMgr raw) →
  (fst (HeapFile_ctor raw) = OK
   ∧ handle_ok (snd (HeapFile_ctor raw))
   ∧ page_exists (firstPage (headerPage raw)) (bufMgr raw) = true
   ∧ curPage (snd (HeapFile_ctor raw)) = Some (firstPage (headerPage raw))
   ∧ curRec (snd (HeapFile_ctor raw)) = NULLRID)
  ∨ (fst (HeapFile_ctor raw) = BADPAGENO
     ∧ page_exists (firstPage (headerPage raw)) (bufMgr raw) = false
     ∧ pool_clean (bufMgr (snd (HeapFile_ctor raw)))).
Proof. exact (HeapFile_ctor_handle_ok raw). Qed.

Lemma HeapFile_ctor_outcome_witness :
  fst (HeapFile_ctor one_record_file) = OK
  ∧ handle_ok (snd (HeapFile_ctor one_record_file))
  ∧ curPage (snd (HeapFile_ctor one_record_file)) = Some 1.
Proof.
  destruct (HeapFile_ctor_outcome one_record_file one_record_file_clean)
    as [(H1 & H2 & _ & H3 & _) | (H & _)].
  - split; [exact H1 |]. split; [exact H2 | exact H3].
  - vm_compute in H. discriminate H.
Defined.

(** X3.  [endScan] on a handle whose pins are accounted for returns OK,
    clears the current-page pointer and leaves the header page as the only
    pinned page; the page images are untouched, and a second [endScan]
    changes nothing. *)
Theorem endScan_releases_page (s : State) :
  handle_ok s →
  ∃ s', endScan s = (OK, s') ∧ handle_ok s' ∧ curPage s' = None
        ∧ (∀ q, pins q (bufMgr s')
                = if bool_decide (q = headerPageNo s) then 1%nat else 0%nat)
        ∧ pages (bufMgr s') = pages (bufMgr s)
        ∧ endScan s' = (OK, s').
Proof.
  intros Hok. destruct (endScan_handle_ok s Hok) as (s' & He & Hok' & Hcp & Hagain).
  exists s'. split; [exact He |]. split; [exact Hok' |]. split; [exact Hcp |].
  assert (Hsame : headerPageNo s' = headerPageNo s ∧ pages (bufMgr s') = pages (bufMgr s)).
  { unfold endScan in He. destruct (curPage s).
    - destruct (unPinPage (curPageNo s) (curDirtyFlag s) (bufMgr s)) as [st bm] eqn:Hu.
      apply unPinPage_inv in Hu as (Hp & _). injection He as _ <-. cbn.
      split; [reflexivity | exact Hp].
    - injection He as <-. split; reflexivity. }
  destruct Hsame as [Hh Hp].
  split; [ | split; [exact Hp | exact Hagain] ].
  intros q. destruct Hok' as (_ & Hpins & _). rewrite (Hpins q), Hcp, Hh.
  unfold held. rewrite (bool_decide_eq_false_2 (None = Some q)) by discriminate.
  destruct (bool_decide (q = headerPageNo s)); reflexivity.
Qed.

Lemma endScan_releases_page_witness :
  ∃ s', endScan (snd (HeapFileScan_ctor one_record_file)) = (OK, s')
        ∧ curPage s' = None ∧ pins 1 (bufMgr s') = 0%nat ∧ pins 0 (bufMgr s') = 1%nat.
Proof.
  destruct (endScan_releases_page (snd (HeapFileScan_ctor one_record_file)))
    as (s' & He & _ & Hcp & Hpins & _).
  - apply opened_handle_ok; [exact one_record_file_clean | reflexivity].
  - exists s'. split; [exact He |]. split; [exact Hcp |].
    split; [exact (Hpins 1) | exact (Hpins 0)].
Defined.

(** ** Scans *)

(** C1, as the code has it.  On a heap file whose data pages form a chain,
    the RIDs of the live records, page by page in chain order and slot by
    slot within a page, are a list without repetition in which every live
    record occurs.  A newly opened scan, started without a filter and
    called until [scanNext] fails, produces exactly this list, and the
    failing call reports FILEEOF; pages without records, wherever they
    are in the chain, the first page included, are passed over.  A scan
    begun without a current page, as [endScan] leaves it, does the same
    when the first page holds a record; when the first page holds none,
    its first [scanNext] reports FILEEOF and no record is produced,
    whatever the later pages hold. *)
Theorem full_scan_visits_all (raw : State) (pg : Page) (l : list Page)
    (o len : Z) (t : Datatype) (c : Operator) :
  chain (pages (bufMgr raw)) (firstPage (headerPage raw)) (pg :: l) →
  ∃ s0, HeapFileScan_ctor raw = (OK, s0)
    ∧ fst (startScan o len t None c s0) = OK
    ∧ (∀ n fuel : nat,
         (length (all_rids (pg :: l)) < n)%nat →
         (length (all_rids (pg :: l)) + length l < fuel)%nat →
         ∃ s', scan_all n fuel (snd (startScan o len t None c s0))
               = Val (all_rids (pg :: l), FILEEOF, s'))
    ∧ (∀ (s : State) (n fuel : nat),
         curPage s = None → 0 <= curPageNo s →
         pages (bufMgr s) = pages (bufMgr raw) →
         firstPage (headerPage s) = firstPage (headerPage raw) →
         (length (all_rids (pg :: l)) < n)%nat →
         (length (all_rids (pg :: l)) + length l < fuel)%nat →
         fst (startScan o len t None c s) = OK
         ∧ ∃ s', scan_all n fuel (snd (startScan o len t None c s))
                 = Val (match live pg with
                        | [] => []
                        | _ :: _ => all_rids (pg :: l)
                        end, FILEEOF, s'))
    ∧ NoDup (all_rids (pg :: l))
    ∧ (∀ rid, rid ∈ all_rids (pg :: l)
              ↔ ∃ q, q ∈ pg :: l ∧ pageNo rid = pageId q
                     ∧ is_Some (slot_at (slotNo rid) q)).
Proof.
  intros Hch.
  destruct (HeapFileScan_ctor_positioned raw pg l Hch)
    as (s0 & Hctor & Hpos & Hrec & Hflt & _).
  exists s0. split; [exact Hctor |]. split; [reflexivity |].
  split; [ | split; [ | split ] ].
  - intros n fuel Hn Hfuel. cbn [startScan snd].
    assert (Hpos' : positioned (set_filter None s0) pg l)
      by (unfold positioned in *; simpl; exact Hpos).
    assert (Hrem : remaining (set_filter None s0) pg l = all_rids (pg :: l)).
    { unfold remaining. cbn [curRec set_filter]. rewrite Hrec. cbn [NULLRID slotNo].
      rewrite filter_gt_all by apply live_nonneg. reflexivity. }
    rewrite <- Hrem. apply scan_all_unfiltered.
    + exact Hpos'.
    + reflexivity.
    + rewrite Hrem. exact Hn.
    + rewrite Hrem. exact Hfuel.
  - intros s n fuel Hcp Hno Hpg Hfp Hn Hfuel. split; [reflexivity |].
    cbn [startScan snd]. apply scan_all_restart.
    + exact Hcp.
    + exact Hno.
    + reflexivity.
    + cbn [set_filter bufMgr headerPage]. rewrite Hpg, Hfp. exact Hch.
    + exact Hn.
    + exact Hfuel.
  - eapply all_rids_NoDup. exact Hch.
  - intros rid. apply elem_of_all_rids.
Qed.

(** The file with a deleted slot and an empty page in the middle, scanned
    by a newly opened handle and again after [endScan]. *)
Lemma full_scan_visits_all_witness :
  let s0 := snd (HeapFileScan_ctor gap_file) in
  (∃ s', scan_all 4 6 (snd (startScan 0 0 STRING None LT s0))
         = Val ([mkRID 1 0; mkRID 1 2; mkRID 3 1], FILEEOF, s'))
  ∧ (∃ s', scan_all 4 6 (snd (startScan 0 0 STRING None LT (snd (endScan s0))))
           = Val ([mkRID 1 0; mkRID 1 2; mkRID 3 1], FILEEOF, s')).
Proof.
  intros s0.
  destruct (full_scan_visits_all gap_file
              (mkPage 1 2 [Some (int_rec 5); None; Some (int_rec 6)])
              [mkPage 2 3 []; mkPage 3 (-1) [None; Some (int_rec 7)]]
              0 0 STRING LT)
    as (s0' & Hctor & _ & Hscan & Hagain & _).
  - vm_compute. intuition discriminate.
  - split.
    + unfold s0. rewrite Hctor. apply (Hscan 4%nat 6%nat); vm_compute; lia.
    + apply (Hagain (snd (endScan s0)) 4%nat 6%nat).
      * reflexivity.
      * vm_compute. discriminate.
      * reflexivity.
      * reflexivity.
      * vm_compute. lia.
      * vm_compute. lia.
Defined.

(** C1 as stated fails.  The first page of the file is empty, the second
    holds a record.  A newly opened scan returns that record.  The same
    scan begun after [endScan] reports FILEEOF at its first call and
    produces no record, while the record is still in the file. *)
Lemma restarted_scan_misses_records :
  let s0 := snd (HeapFileScan_ctor empty_first_page_file) in
  let s1 := snd (startScan 0 0 STRING None LT (snd (endScan s0))) in
  all_rids [mkPage 1 2 []; mkPage 2 (-1) [Some (int_rec 7)]] = [mkRID 2 0]
  ∧ (∃ s', scan_all 3 5 (snd (startScan 0 0 STRING None LT s0))
           = Val ([mkRID 2 0], FILEEOF, s'))
  ∧ fst (startScan 0 0 STRING None LT (snd (endScan s0))) = OK
  ∧ (∃ s', scan_all 3 5 s1 = Val ([], FILEEOF, s')
           ∧ rec_at (pages (bufMgr s')) (mkRID 2 0) = Some (int_rec 7)).
Proof.
  split; [reflexivity |]. split; [eexists; vm_compute; reflexivity |].
  split; [reflexivity |].
  eexists. split; vm_compute; reflexivity.
Qed.

(** X4.  [scanNext] on a scan without a current page, as [endScan] leaves
    it, starts over at the first page of the file.  If that page holds a
    record, the call answers with the first record of the whole file that
    satisfies the filter, or with FILEEOF when there is none, and the scan
    is positioned behind that record.  If the first page holds no record,
    the call unpins it again and fails with FILEEOF, setting
    [curPageNo = -1], whatever the later pages hold; the loop of a scan
    that already has a current page would go on to the next page. *)
Theorem scanNext_restart (fuel : nat) (out : RID) (s : State) (pg : Page) (l : list Page) :
  curPage s = None → 0 <= curPageNo s →
  chain (pages (bufMgr s)) (firstPage (headerPage s)) (pg :: l) →
  (length (all_rids (pg :: l)) + length l < fuel)%nat →
  match live pg with
  | [] =>
      ∃ s', scanNext fuel out s = Val (FILEEOF, out, s')
            ∧ curPage s' = None ∧ curPageNo s' = -1
            ∧ (∀ q, pins q (bufMgr s') = pins q (bufMgr s))
            ∧ pages (bufMgr s') = pages (bufMgr s)
            ∧ trace (bufMgr s')
              = trace (bufMgr s)
                ++ [EvRead (pageId pg) true; EvUnPin (pageId pg) false true]
  | _ :: _ =>
      ∃ st rid s' pg' l',
        scanNext fuel out s = Val (st, rid, s')
        ∧ positioned s' pg' l' ∧ same_file s s'
        ∧ match skip_unmatched (matches s) (all_rids (pg :: l)) with
          | [] => st = FILEEOF ∧ rid = out
          | r :: rest => st = OK ∧ rid = r ∧ curRec s' = r ∧ remaining s' pg' l' = rest
          end
  end.
Proof.
  intros Hcp Hno Hch Hfuel.
  pose proof (scanNext_restart_spec fuel out s pg l Hcp Hno Hch Hfuel) as H.
  destruct (live pg) as [| j rest]; [exact H |].
  destruct H as (st & rid & s' & pg' & l' & Hrun & Hpos & Hsame & Hres & _).
  exists st, rid, s', pg', l'. split; [exact Hrun |]. split; [exact Hpos |].
  split; [exact Hsame | exact Hres].
Qed.

(** On a file whose first page is empty and whose second page holds a
    record, a newly opened scan returns that record; after [endScan] the
    same call reports FILEEOF. *)
Lemma scanNext_restart_witness :
  let s0 := snd (HeapFileScan_ctor empty_first_page_file) in
  answer (scanNext 5 NULLRID s0) = Some (OK, mkRID 2 0)
  ∧ ∃ s', scanNext 5 NULLRID (snd (endScan s0)) = Val (FILEEOF, NULLRID, s')
          ∧ curPage s' = None ∧ curPageNo s' = -1.
Proof.
  intros s0. split; [vm_compute; reflexivity |].
  pose proof (scanNext_restart 5 NULLRID (snd (endScan s0)) (mkPage 1 2 [])
                [mkPage 2 (-1) [Some (int_rec 7)]]) as H.
  cbn [live live_from slots] in H.
  destruct H as (s' & Hrun & Hcp & Hno & _).
  - reflexivity.
  - vm_compute. discriminate.
  - vm_compute. intuition discriminate.
  - vm_compute. lia.
  - exists s'. split; [exact Hrun |]. split; [exact Hcp | exact Hno].
Defined.

(** X5.  A scan under a filter.  Open a scan on a file whose data pages
    form a chain, call [startScan] with parameters whose offset and length
    add up to an [int], and then [scanNext] until it fails.  Whether
    [startScan] accepted the parameters or not, [matchRec] stays inside
    every record, and the calls return exactly the records of the file
    that [matchRec] accepts under the filter then in force (the one
    [startScan] installed, or none when it rejected its parameters), in
    chain order and slot order, and the failing call reports FILEEOF. *)
Theorem filtered_scan_matching (raw : State) (pg : Page) (l : list Page)
    (o len : Z) (t : Datatype) (flt : option (list Z)) (c : Operator) (n fuel : nat) :
  chain (pages (bufMgr raw)) (firstPage (headerPage raw)) (pg :: l) →
  (is_Some flt → o + len < 2 ^ 31) →
  let s1 := snd (startScan o len t flt c (snd (HeapFileScan_ctor raw))) in
  let hits :=
    List.filter (λ rid, matchRec (default rawRec (rec_at (pages (bufMgr raw)) rid)) s1)
                (all_rids (pg :: l)) in
  (length hits < n)%nat →
  (length (all_rids (pg :: l)) + length l < fuel)%nat →
  (∀ rec, matchRec_in_bounds rec s1)
  ∧ ∃ s', scan_all n fuel s1 = Val (hits, FILEEOF, s').
Proof.
  intros Hch Hsum s1 hits Hn Hfuel.
  split; [intros rec; apply startScan_in_bounds; exact Hsum |].
  destruct (HeapFileScan_ctor_positioned raw pg l Hch)
    as (s0 & Hctor & Hpos & Hrec & _ & Hpg & _).
  assert (Hs1 : positioned s1 pg l ∧ curRec s1 = NULLRID
                ∧ pages (bufMgr s1) = pages (bufMgr raw)).
  { unfold s1. rewrite Hctor. cbn [snd]. unfold startScan.
    destruct flt as [f |]; [destruct (bad_scan_parm o len t c) |];
      cbn [snd]; (split; [unfold positioned in *; simpl; exact Hpos |]);
      (split; [exact Hrec | exact Hpg]). }
  destruct Hs1 as (Hpos1 & Hrec1 & Hpg1).
  assert (Hrem : remaining s1 pg l = all_rids (pg :: l)).
  { unfold remaining. rewrite Hrec1. cbn [NULLRID slotNo].
    rewrite filter_gt_all by apply live_nonneg. reflexivity. }
  assert (Hhits : hits = List.filter (matches s1) (remaining s1 pg l)).
  { rewrite Hrem. unfold hits. apply filter_ext_bool. intros r.
    unfold matches. rewrite Hpg1. reflexivity. }
  destruct (scan_all_filtered n s1 pg l fuel Hpos1) as (s' & Hall & _).
  - rewrite <- Hhits. exact Hn.
  - rewrite Hrem. exact Hfuel.
  - exists s'. rewrite Hall, Hhits. reflexivity.
Qed.

(** The records with a value of at least 6 in the file with a deleted slot
    and an empty page. *)
Lemma filtered_scan_matching_witness :
  ∃ s', scan_all 4 6 (snd (startScan 0 4 INTEGER (Some [6; 0; 0; 0]) GTE
                             (snd (HeapFileScan_ctor gap_file))))
        = Val ([mkRID 1 2; mkRID 3 1], FILEEOF, s').
Proof.
  destruct (filtered_scan_matching gap_file
              (mkPage 1 2 [Some (int_rec 5); None; Some (int_rec 6)])
              [mkPage 2 3 []; mkPage 3 (-1) [None; Some (int_rec 7)]]
              0 4 INTEGER (Some [6; 0; 0; 0]) GTE 4 6)
    as (_ & s' & Hscan).
  - vm_compute. intuition discriminate.
  - intros _. lia.
  - vm_compute. lia.
  - vm_compute. lia.
  - exists s'. exact Hscan.
Defined.

(** X6.  [HeapFile::getRecord(rid)] on a handle with a current page, for a
    RID whose page exists.  The page of the RID becomes (or stays) the
    current page; the call returns the record in the slot and makes the
    RID the current record, or fails with INVALIDSLOTNO when the slot is
    not occupied and leaves [curRec] as it was.  When the RID lies on the
    current page no buffer-manager call is made and the handle is
    otherwise unchanged; on another page the current page is unpinned with
    its dirty flag, the page of the RID is pinned, and the dirty flag is
    cleared.  The pins stay accounted for either way. *)
Theorem getRecord_by_rid (rid : RID) (rec : Rec) (s : State) (p : Z) (pg : Page) :
  handle_ok s → curPage s = Some p → pages (bufMgr s) !! pageNo rid = Some pg →
  ∃ s',
    HeapFile_getRecord rid rec s
    = match slot_at (slotNo rid) pg with
      | Some r => Val (OK, r, set_curRec rid s')
      | None => Val (INVALIDSLOTNO, rec, s')
      end
    ∧ curPage s' = Some (pageNo rid) ∧ curPageNo s' = pageNo rid
    ∧ curRec s' = curRec s
    ∧ handle_ok s' ∧ handle_ok (set_curRec rid s')
    ∧ pages (bufMgr s') = pages (bufMgr s) ∧ headerPage s' = headerPage s
    ∧ (if bool_decide (p = pageNo rid)
       then s' = s
       else trace (bufMgr s')
            = trace (bufMgr s)
              ++ [EvUnPin p (curDirtyFlag s) true; EvRead (pageNo rid) true]
            ∧ curDirtyFlag s' = false).
Proof. exact (getRecord_at_spec rid rec s p pg). Qed.

Lemma getRecord_by_rid_witness :
  ∃ s',
    HeapFile_getRecord (mkRID 2 0) rawRec (snd (HeapFile_ctor two_page_file))
    = Val (OK, int_rec 7, set_curRec (mkRID 2 0) s')
    ∧ trace (bufMgr s')
      = trace (bufMgr (snd (HeapFile_ctor two_page_file)))
        ++ [EvUnPin 1 false true; EvRead 2 true].
Proof.
  destruct (getRecord_by_rid (mkRID 2 0) rawRec (snd (HeapFile_ctor two_page_file)) 1
              (mkPage 2 (-1) [Some (int_rec 7)]))
    as (s' & Hget & _ & _ & _ & _ & _ & _ & _ & Htrace).
  - apply opened_handle_ok; [exact two_page_file_clean | reflexivity].
  - reflexivity.
  - reflexivity.
  - exists s'. split; [exact Hget | exact (proj1 Htrace)].
Defined.

(** X13.  [HeapFile::getRecord(rid)] on a handle without a current page, as
    [endScan] leaves it.  The function compares [curPageNo] with the page
    of the RID before it looks at the pointer: when the two are equal
    (after [endScan], [curPageNo] is 0) it dereferences the null pointer.
    Otherwise, for a RID whose page exists, it pins that page with one
    [readPage] and no [unPinPage], makes it the current page with a clear
    dirty flag, and answers as it does with a current page. *)
Theorem getRecord_by_rid_unpinned (rid : RID) (rec : Rec) (s : State) (pg : Page) :
  handle_ok s → curPage s = None →
  (curPageNo s = pageNo rid → HeapFile_getRecord rid rec s = NullDeref)
  ∧ (curPageNo s ≠ pageNo rid → pages (bufMgr s) !! pageNo rid = Some pg →
     ∃ s',
       HeapFile_getRecord rid rec s
       = match slot_at (slotNo rid) pg with
         | Some r => Val (OK, r, set_curRec rid s')
         | None => Val (INVALIDSLOTNO, rec, s')
         end
       ∧ curPage s' = Some (pageNo rid) ∧ curPageNo s' = pageNo rid
       ∧ curRec s' = curRec s ∧ curDirtyFlag s' = false
       ∧ handle_ok s' ∧ handle_ok (set_curRec rid s')
       ∧ pages (bufMgr s') = pages (bufMgr s) ∧ headerPage s' = headerPage s
       ∧ trace (bufMgr s') = trace (bufMgr s) ++ [EvRead (pageNo rid) true]).
Proof.
  intros Hok Hcp. split.
  - intros Heq. unfold HeapFile_getRecord.
    rewrite (bool_decide_eq_false_2 (curPageNo s ≠ pageNo rid)) by tauto.
    unfold deref. rewrite Hcp. reflexivity.
  - intros Hne Hpg. unfold HeapFile_getRecord.
    rewrite (bool_decide_eq_true_2 (curPageNo s ≠ pageNo rid)) by exact Hne.
    rewrite Hcp. cbv beta iota. rewrite Hcp.
    pose proof Hok as Hok0. unfold handle_ok in Hok0. rewrite Hcp in Hok0.
    destruct (pins_agree_read (bufMgr s) (headerPageNo s) (curPageNo s) (pageNo rid) None Hok0)
      as (rst & rptr & rbm & Hr & Hrp & _ & _ & Hcase).
    rewrite Hr.
    destruct Hcase as [(-> & -> & _ & Hok') | (_ & _ & Hex & _)].
    2: { unfold page_exists in Hex. rewrite Hpg in Hex.
         rewrite (bool_decide_eq_true_2 (is_Some (Some pg))) in Hex by eauto.
         rewrite orb_true_r in Hex. discriminate. }
    apply readPage_inv in Hr as (_ & _ & _ & [(_ & _ & _ & _ & Hrt) | (Hbad & _)]);
      [ | discriminate ].
    eexists. split.
    { unfold deref. cbn. rewrite Hrp, Hpg. unfold Page_getRecord.
      destruct (slot_at (slotNo rid) pg); reflexivity. }
    cbn. split; [reflexivity |]. split; [reflexivity |]. split; [reflexivity |].
    split; [reflexivity |]. split; [exact Hok' |]. split; [exact Hok' |].
    split; [exact Hrp |]. split; [reflexivity | exact Hrt].
Qed.

(** After [endScan] on the two-page file: a RID on page 0 and a RID on
    page 2. *)
Lemma getRecord_by_rid_unpinned_witness :
  let s := snd (endScan (snd (HeapFileScan_ctor two_page_file))) in
  HeapFile_getRecord (mkRID 0 0) rawRec s = NullDeref
  ∧ ∃ s', HeapFile_getRecord (mkRID 2 0) rawRec s
          = Val (OK, int_rec 7, set_curRec (mkRID 2 0) s')
          ∧ trace (bufMgr s') = trace (bufMgr s) ++ [EvRead 2 true].
Proof.
  intros s.
  assert (Hok : handle_ok s).
  { destruct (endScan_handle_ok (snd (HeapFileScan_ctor two_page_file)))
      as (s' & He & Hok & _).
    - apply opened_handle_ok; [exact two_page_file_clean | reflexivity].
    - unfold s. rewrite He. exact Hok. }
  split.
  - apply (proj1 (getRecord_by_rid_unpinned (mkRID 0 0) rawRec s rawPage Hok eq_refl)).
    reflexivity.
  - destruct (proj2 (getRecord_by_rid_unpinned (mkRID 2 0) rawRec s
                       (mkPage 2 (-1) [Some (int_rec 7)]) Hok eq_refl))
      as (s' & Hget & _ & _ & _ & _ & _ & _ & _ & _ & Htrace).
    + vm_compute. discriminate.
    + reflexivity.
    + exists s'. split; [exact Hget | exact Htrace].
Defined.

(** ** Inserts *)

(** X7.  [insertRecord] up to the overflow.  For a record length that is
    an [int] and a page capacity ([PAGESIZE - DPFIXED]) below [2^31]: a
    length that is negative or exceeds the capacity is answered with
    INVALIDRECLEN, the length being compared as an [unsigned int], and
    nothing is touched.  A length within the capacity passes the test.
    Then, with a current page on which the record has room, the call
    returns OK without a buffer-manager call: the record is in the slot of
    the returned RID on the current page, the records of that page and all
    other pages are as they were, [recCnt] is incremented once and both
    dirty flags are set.  Without a current page the last page is read:
    when it does not exist the call returns BADPAGENO with page images and
    header untouched; when it exists and has room, it is pinned once,
    becomes the current page and takes the record as before. *)
Theorem insertRecord_without_overflow (PAGESIZE DPFIXED : Z) (rec : Rec) (out : RID)
    (s : State) :
  0 <= PAGESIZE - DPFIXED < 2 ^ 31 → - 2 ^ 31 <= rec_length rec < 2 ^ 31 →
  (rec_length rec < 0 ∨ PAGESIZE - DPFIXED < rec_length rec →
   insertRecord PAGESIZE DPFIXED rec out s = Val (INVALIDRECLEN, out, s))
  ∧ (0 <= rec_length rec <= PAGESIZE - DPFIXED →
     (∀ p pg, curPage s = Some p → pages (bufMgr s) !! p = Some pg →
        used (slots pg) + rec_length rec <= PAGESIZE - DPFIXED →
        ∃ rid s' pg',
          insertRecord PAGESIZE DPFIXED rec out s = Val (OK, rid, s')
          ∧ curPage s' = Some p ∧ pages (bufMgr s') = <[p := pg']> (pages (bufMgr s))
          ∧ slot_at (slotNo rid) pg' = Some rec
          ∧ (∀ j, is_Some (slot_at j pg) → slot_at j pg' = slot_at j pg)
          ∧ pageNo rid = pageId pg
          ∧ recCnt (headerPage s') = inc32 (recCnt (headerPage s))
          ∧ hdrDirtyFlag s' = true ∧ curDirtyFlag s' = true
          ∧ trace (bufMgr s') = trace (bufMgr s))
     ∧ (curPage s = None → page_exists (lastPage (headerPage s)) (bufMgr s) = false →
        ∃ s',
          insertRecord PAGESIZE DPFIXED rec out s = Val (BADPAGENO, out, s')
          ∧ curPage s' = None ∧ pages (bufMgr s') = pages (bufMgr s)
          ∧ headerPage s' = headerPage s
          ∧ trace (bufMgr s')
            = trace (bufMgr s) ++ [EvRead (lastPage (headerPage s)) false])
     ∧ (∀ pg, curPage s = None →
        pages (bufMgr s) !! lastPage (headerPage s) = Some pg →
        used (slots pg) + rec_length rec <= PAGESIZE - DPFIXED →
        ∃ rid s' pg',
          insertRecord PAGESIZE DPFIXED rec out s = Val (OK, rid, s')
          ∧ curPage s' = Some (lastPage (headerPage s))
          ∧ curPageNo s' = lastPage (headerPage s)
          ∧ pages (bufMgr s') = <[lastPage (headerPage s) := pg']> (pages (bufMgr s))
          ∧ slot_at (slotNo rid) pg' = Some rec
          ∧ (∀ j, is_Some (slot_at j pg) → slot_at j pg' = slot_at j pg)
          ∧ recCnt (headerPage s') = inc32 (recCnt (headerPage s))
          ∧ pins (lastPage (headerPage s)) (bufMgr s')
            = S (pins (lastPage (headerPage s)) (bufMgr s))
          ∧ trace (bufMgr s')
            = trace (bufMgr s) ++ [EvRead (lastPage (headerPage s)) true])).
Proof.
  intros Hcap Hlen. split.
  - intros Hbad. rewrite insertRecord_unfold.
    destruct (Z.gtb_spec (rec_length rec mod 2 ^ 32) (PAGESIZE - DPFIXED)) as [_ | Hsmall];
      [reflexivity |].
    exfalso. destruct (Z.lt_ge_cases (rec_length rec) 0) as [Hneg | Hpos].
    + assert (rec_length rec mod 2 ^ 32 = rec_length rec + 2 ^ 32).
      { symmetry. apply (Z.mod_unique _ _ (-1)); lia. }
      lia.
    + rewrite Z.mod_small in Hsmall by lia. lia.
  - intros Hrange.
    assert (Hpass : (rec_length rec mod 2 ^ 32 >? PAGESIZE - DPFIXED) = false).
    { rewrite Z.mod_small by lia.
      destruct (Z.gtb_spec (rec_length rec) (PAGESIZE - DPFIXED)); [lia | reflexivity]. }
    split; [ | split ].
    + intros p pg Hp Hlk Hfit. rewrite insertRecord_unfold, Hpass, Hp.
      rewrite (insert_on_current_fits _ _ _ _ _ _ _ Hp Hlk Hfit).
      eexists _, _, _. split; [reflexivity |]. cbn -[inc32].
      split; [exact Hp |]. split; [reflexivity |].
      split; [apply slot_at_grown_new |].
      split; [intros j Hj; apply slot_at_grown_old; exact Hj |].
      repeat split.
    + intros Hp Hex. rewrite insertRecord_unfold, Hpass, Hp.
      destruct (readPage (lastPage (headerPage s)) None (bufMgr s))
        as [[rst rptr] rbm] eqn:Hr.
      apply readPage_inv in Hr as (Hpg & _ & _ & [(_ & _ & He & _) | (-> & -> & _ & _ & Htr)]);
        [congruence |].
      cbv zeta. eexists. split; [reflexivity |]. cbn.
      split; [reflexivity |]. split; [exact Hpg |]. split; [reflexivity | exact Htr].
    + intros pg Hp Hlk Hfit. rewrite insertRecord_unfold, Hpass, Hp.
      destruct (readPage (lastPage (headerPage s)) None (bufMgr s))
        as [[rst rptr] rbm] eqn:Hr.
      apply readPage_inv in Hr
        as (Hpg & _ & _ & [(-> & -> & _ & Hpin & Htr) | (_ & _ & He & _)]).
      2: { unfold page_exists in He. rewrite Hlk in He.
           rewrite (bool_decide_eq_true_2 (is_Some (Some pg))) in He by eauto.
           rewrite orb_true_r in He. discriminate. }
      cbv zeta.
      set (s1 := set_curDirtyFlag false
                   (set_curPage (Some (lastPage (headerPage s)))
                      (set_bufMgr rbm (set_curPageNo (lastPage (headerPage s)) s)))).
      assert (Hlk1 : pages (bufMgr s1) !! lastPage (headerPage s) = Some pg).
      { cbn. rewrite Hpg. exact Hlk. }
      rewrite (insert_on_current_fits _ _ _ _ s1 _ _ eq_refl Hlk1 Hfit).
      eexists _, _, _. split; [reflexivity |]. cbn -[inc32 pins].
      split; [reflexivity |]. split; [reflexivity |].
      split; [rewrite Hpg; reflexivity |].
      split; [apply slot_at_grown_new |].
      split; [intros j Hj; apply slot_at_grown_old; exact Hj |].
      split; [reflexivity |].
      split; [unfold pins at 1; cbn; rewrite Hpin, lookup_insert_eq; reflexivity |].
      exact Htr.
Qed.

(** A record of length -1 on a newly opened handle; a four-byte record on
    the same handle; a record for a handle without a current page whose
    header names a last page the file does not have. *)
Lemma insertRecord_without_overflow_witness :
  let s := snd (InsertFileScan_ctor one_record_file) in
  let lost := raw_object (bufMgr one_record_file) (mkHdr 1 9 1 1) in
  insertRecord 1024 24 (mkRec [] (-1)) NULLRID s = Val (INVALIDRECLEN, NULLRID, s)
  ∧ (∃ rid s', insertRecord 1024 24 (int_rec 9) NULLRID s = Val (OK, rid, s')
               ∧ recCnt (headerPage s') = 2 ∧ trace (bufMgr s') = trace (bufMgr s))
  ∧ (∃ s', insertRecord 1024 24 (int_rec 9) NULLRID lost = Val (BADPAGENO, NULLRID, s')
           ∧ trace (bufMgr s') = [EvRead 9 false]).
Proof.
  intros s lost. split; [ | split ].
  - apply (proj1 (insertRecord_without_overflow 1024 24 (mkRec [] (-1)) NULLRID s
                    ltac:(lia) ltac:(cbn; lia))).
    left. cbn. lia.
  - destruct (proj1 (proj2 (insertRecord_without_overflow 1024 24 (int_rec 9) NULLRID s
                              ltac:(lia) ltac:(cbn; lia)) ltac:(cbn; lia))
                1 (mkPage 1 (-1) [Some (int_rec 5)]))
      as (rid & s' & pg' & Hrun & _ & _ & _ & _ & _ & Hrc & _ & _ & Htr).
    + reflexivity.
    + reflexivity.
    + cbn. lia.
    + exists rid, s'. split; [exact Hrun |]. split; [rewrite Hrc; reflexivity | exact Htr].
  - destruct (proj1 (proj2 (proj2 (insertRecord_without_overflow 1024 24 (int_rec 9) NULLRID
                                     lost ltac:(lia) ltac:(cbn; lia)) ltac:(cbn; lia))))
      as (s' & Hrun & _ & _ & _ & Htr).
    + reflexivity.
    + reflexivity.
    + exists s'. split; [exact Hrun | exact Htr].
Defined.

(** X8.  An insert through a handle whose current page is the last page
    of the chain, on a file whose header describes the chain, when that
    page has no freed slot, so that whichever slot the page picks lies
    behind the occupied ones.  The call succeeds, and afterwards the
    handle is again on the last page of a chain the header describes, a
    page without a freed slot: the new RID is appended behind all others
    in scan order, it names the inserted record, every other record is as
    it was, and [firstPage] is unchanged.  When the record fits on the
    last page it goes there and the buffer manager is not called;
    otherwise a page is allocated (the buffer manager grants it), linked
    behind the old last page, the old last page is unpinned after the
    allocation, and the record is the only one of the new page. *)
Theorem insertRecord_at_tail (PAGESIZE DPFIXED : Z) (rec : Rec) (out : RID) (s : State)
    (l : list Page) (tl : Page) :
  tail_handle s l tl →
  Forall (λ x, is_Some x) (slots tl) →
  0 <= rec_length rec <= PAGESIZE - DPFIXED → PAGESIZE - DPFIXED < 2 ^ 32 →
  Z.of_nat (length (l ++ [tl])) < 2 ^ 31 - 1 →
  Z.of_nat (length (all_rids (l ++ [tl]))) < 2 ^ 31 - 1 →
  ∃ rid s' l' tl',
    insertRecord PAGESIZE DPFIXED rec out s = Val (OK, rid, s')
    ∧ tail_handle s' l' tl'
    ∧ Forall (λ x, is_Some x) (slots tl')
    ∧ all_rids (l' ++ [tl']) = all_rids (l ++ [tl]) ++ [rid]
    ∧ rec_at (pages (bufMgr s')) rid = Some rec
    ∧ (∀ r, r ∈ all_rids (l ++ [tl]) →
            rec_at (pages (bufMgr s')) r = rec_at (pages (bufMgr s)) r)
    ∧ firstPage (headerPage s') = firstPage (headerPage s)
    ∧ pageNo rid = pageId tl'
    ∧ ((used (slots tl) + rec_length rec <= PAGESIZE - DPFIXED
        ∧ l' = l ∧ pageId tl' = pageId tl
        ∧ trace (bufMgr s') = trace (bufMgr s))
       ∨ (PAGESIZE - DPFIXED < used (slots tl) + rec_length rec
          ∧ l' = l ++ [mkPage (pageId tl) (numPages (bufMgr s)) (slots tl)]
          ∧ pageId tl' = numPages (bufMgr s)
          ∧ rids_of tl' = [rid]
          ∧ trace (bufMgr s')
            = trace (bufMgr s)
              ++ [EvAlloc (numPages (bufMgr s));
                  EvUnPin (pageId tl) (curDirtyFlag s) true])).
Proof.
  intros Htail Hfull Hlen Hcap Hpages Hrecs.
  destruct (insertRecord_tail PAGESIZE DPFIXED rec out s l tl Htail Hlen Hcap Hpages Hrecs)
    as (rid & s' & l' & tl' & Hrun & Htail' & Hall & Hnew & Hold & Hfirst & Hpage & Hcase).
  exists rid, s', l', tl'. split; [exact Hrun |]. split; [exact Htail' |].
  split.
  { destruct Hcase as [(_ & _ & _ & _ & ->) | (_ & _ & -> & _)]; cbn [slots].
    - apply Forall_app. split; [exact Hfull |]. repeat constructor. eauto.
    - repeat constructor. eauto. }
  split; [exact Hall |]. split; [exact Hnew |]. split; [exact Hold |].
  split; [exact Hfirst |]. split; [exact Hpage |].
  destruct Hcase as [(Hfit & -> & _ & Htr & ->) | (Hover & -> & -> & -> & Htr)].
  - left. split; [exact Hfit |]. split; [reflexivity |]. split; [reflexivity | exact Htr].
  - right. split; [exact Hover |]. split; [reflexivity |]. split; [reflexivity |].
    split; [reflexivity | exact Htr].
Qed.

(** A 600-byte record for the one-record file: with pages of 1000 bytes
    it goes onto page 1, with pages of 600 bytes onto a new page 2. *)
Lemma insertRecord_at_tail_witness :
  let s := snd (InsertFileScan_ctor one_record_file) in
  (∃ rid s',
     insertRecord 1024 24 big_rec NULLRID s = Val (OK, rid, s')
     ∧ pageNo rid = 1
     ∧ rec_at (pages (bufMgr s')) rid = Some big_rec
     ∧ rec_at (pages (bufMgr s')) (mkRID 1 0) = Some (int_rec 5))
  ∧ (∃ rid s',
       insertRecord 624 24 big_rec NULLRID s = Val (OK, rid, s')
       ∧ pageNo rid = 2
       ∧ rec_at (pages (bufMgr s')) rid = Some big_rec
       ∧ trace (bufMgr s') = trace (bufMgr s) ++ [EvAlloc 2; EvUnPin 1 false true]).
Proof.
  intros s. split.
  - destruct (insertRecord_at_tail 1024 24 big_rec NULLRID s []
                (mkPage 1 (-1) [Some (int_rec 5)]) one_record_file_tail)
      as (rid & s' & l' & tl' & Hrun & _ & _ & _ & Hnew & Hold & _ & Hpage & Hcase).
    + repeat constructor. eauto.
    + cbn. lia.
    + lia.
    + cbn. lia.
    + cbn. lia.
    + exists rid, s'. split; [exact Hrun |].
      split.
      { rewrite Hpage. destruct Hcase as [(_ & _ & -> & _) | (Hover & _)]; [reflexivity |].
        cbn in Hover. lia. }
      split; [exact Hnew |].
      rewrite (Hold (mkRID 1 0)); [reflexivity |]. cbn. left.
  - destruct (insertRecord_at_tail 624 24 big_rec NULLRID s []
                (mkPage 1 (-1) [Some (int_rec 5)]) one_record_file_tail)
      as (rid & s' & l' & tl' & Hrun & _ & _ & _ & Hnew & _ & _ & Hpage & Hcase).
    + repeat constructor. eauto.
    + cbn. lia.
    + lia.
    + cbn. lia.
    + cbn. lia.
    + exists rid, s'. split; [exact Hrun |].
      destruct Hcase as [(Hfit & _) | (_ & _ & Hid & _ & Htr)]; [cbn in Hfit; lia |].
      split; [rewrite Hpage, Hid; reflexivity |]. split; [exact Hnew | exact Htr].
Defined.

(** X9.  Insert and fetch.  After a successful insert through a handle on
    the last page, [getRecord] with the RID the insert returned yields the
    inserted record and makes it the current record. *)
Theorem insert_then_getRecord (PAGESIZE DPFIXED : Z) (rec : Rec) (out : RID) (s : State)
    (l : list Page) (tl : Page) :
  tail_handle s l tl →
  0 <= rec_length rec <= PAGESIZE - DPFIXED → PAGESIZE - DPFIXED < 2 ^ 32 →
  Z.of_nat (length (l ++ [tl])) < 2 ^ 31 - 1 →
  Z.of_nat (length (all_rids (l ++ [tl]))) < 2 ^ 31 - 1 →
  ∃ rid s',
    insertRecord PAGESIZE DPFIXED rec out s = Val (OK, rid, s')
    ∧ ∀ x : Rec, HeapFile_getRecord rid x s' = Val (OK, rec, set_curRec rid s').
Proof.
  intros Htail Hlen Hcap Hpages Hrecs.
  destruct (insertRecord_tail PAGESIZE DPFIXED rec out s l tl Htail Hlen Hcap Hpages Hrecs)
    as (rid & s' & l' & tl' & Hins & Htail' & _ & Hrec & _ & _ & Hpn & _).
  exists rid, s'. split; [exact Hins |]. intros x.
  destruct Htail' as (_ & Hcp' & _ & _ & _ & Hok').
  unfold rec_at in Hrec.
  destruct (pages (bufMgr s') !! pageNo rid) as [pg |] eqn:Hpg; [ | discriminate ].
  destruct (getRecord_at_spec rid x s' (pageId tl') pg Hok' Hcp' Hpg)
    as (s'' & Hget & _ & _ & _ & _ & _ & _ & _ & Hsame).
  rewrite bool_decide_eq_true_2 in Hsame by congruence. subst s''.
  rewrite Hget, Hrec. reflexivity.
Qed.

Lemma insert_then_getRecord_witness :
  ∃ rid s',
    insertRecord 1024 24 (int_rec 9) NULLRID (snd (InsertFileScan_ctor one_record_file))
    = Val (OK, rid, s')
    ∧ HeapFile_getRecord rid rawRec s' = Val (OK, int_rec 9, set_curRec rid s').
Proof.
  destruct (insert_then_getRecord 1024 24 (int_rec 9) NULLRID
              (snd (InsertFileScan_ctor one_record_file)) []
              (mkPage 1 (-1) [Some (int_rec 5)]) one_record_file_tail)
    as (rid & s' & Hrun & Hget).
  - cbn. lia.
  - lia.
  - cbn. lia.
  - cbn. lia.
  - exists rid, s'. split; [exact Hrun | apply Hget].
Defined.



(** ** Deletes *)

(** X11.  [deleteRecord] on a scan positioned on a live record.  The call
    succeeds without a buffer-manager call; the record of the current RID
    is gone and every other record of the file is as it was; the pages
    still form a chain from [firstPage]; [recCnt] is decremented once and
    both dirty flags are set.  [curRec] keeps its value and the records
    the scan has still to visit are the same as before, so the scan goes
    on behind the deleted record. *)
Theorem deleteRecord_of_current (s : State) (pre : list Page) (pg : Page) (l : list Page)
    (r : Rec) :
  positioned s pg l →
  chain (pages (bufMgr s)) (firstPage (headerPage s)) (pre ++ pg :: l) →
  slot_at (slotNo (curRec s)) pg = Some r →
  let gone := mkRID (pageId pg) (slotNo (curRec s)) in
  ∃ s' pg',
    deleteRecord s = Val (OK, s')
    ∧ positioned s' pg' l
    ∧ chain (pages (bufMgr s')) (firstPage (headerPage s')) (pre ++ pg' :: l)
    ∧ all_rids (pre ++ pg' :: l) = filter (λ x, x ≠ gone) (all_rids (pre ++ pg :: l))
    ∧ remaining s' pg' l = remaining s pg l
    ∧ rec_at (pages (bufMgr s')) gone = None
    ∧ (∀ x, x ≠ gone → rec_at (pages (bufMgr s')) x = rec_at (pages (bufMgr s)) x)
    ∧ recCnt (headerPage s') = dec32 (recCnt (headerPage s))
    ∧ curRec s' = curRec s
    ∧ trace (bufMgr s') = trace (bufMgr s)
    ∧ curDirtyFlag s' = true ∧ hdrDirtyFlag s' = true.
Proof. exact (deleteRecord_in_scan s pre pg l r). Qed.

(** The scan of the two-page file stands on the record of the second
    page. *)
Lemma deleteRecord_of_current_witness :
  let s0 := snd (HeapFileScan_ctor two_page_file) in
  let s := state_of (scanNext 5 NULLRID (state_of (scanNext 5 NULLRID s0) s0)) s0 in
  ∃ s', deleteRecord s = Val (OK, s')
        ∧ rec_at (pages (bufMgr s')) (mkRID 2 0) = None
        ∧ rec_at (pages (bufMgr s')) (mkRID 1 0) = Some (int_rec 5)
        ∧ recCnt (headerPage s') = 1.
Proof.
  intros s0 s.
  destruct (deleteRecord_of_current s [mkPage 1 2 [Some (int_rec 5)]]
              (mkPage 2 (-1) [Some (int_rec 7)]) [] (int_rec 7))
    as (s' & pg' & Hdel & _ & _ & _ & _ & Hgone & Hkeep & Hrc & _).
  - vm_compute. intuition (discriminate || lia).
  - vm_compute. intuition discriminate.
  - reflexivity.
  - exists s'. split; [exact Hdel |]. split; [exact Hgone |].
    split; [rewrite (Hkeep (mkRID 1 0)); [reflexivity | discriminate] |].
    rewrite Hrc. reflexivity.
Defined.

(** X12.  [deleteRecord] after [scanNext].  When [scanNext], called on a
    scan that is positioned on a page of the chain and whose filter keeps
    [matchRec] inside every record, has returned a RID, that RID names a
    record of the file that satisfies the filter, and [deleteRecord]
    succeeds on it without a buffer-manager call: the record is gone,
    every other record is as it was before the two calls, the pages still
    form a chain from [firstPage] whose records are the old ones without
    the deleted one, [recCnt] is decremented once, and [curRec] still
    holds the RID. *)
Theorem deleteRecord_after_scanNext (fuel : nat) (out : RID) (s : State)
    (pre : list Page) (pg : Page) (l : list Page) (rid : RID) (s1 : State) :
  positioned s pg l →
  chain (pages (bufMgr s)) (firstPage (headerPage s)) (pre ++ pg :: l) →
  (∀ rec, matchRec_in_bounds rec s) →
  scanNext fuel out s = Val (OK, rid, s1) →
  ∃ r s2 file',
    rec_at (pages (bufMgr s)) rid = Some r ∧ matchRec r s = true
    ∧ rid ∈ all_rids (pre ++ pg :: l)
    ∧ deleteRecord s1 = Val (OK, s2)
    ∧ rec_at (pages (bufMgr s2)) rid = None
    ∧ (∀ x, x ≠ rid → rec_at (pages (bufMgr s2)) x = rec_at (pages (bufMgr s)) x)
    ∧ chain (pages (bufMgr s2)) (firstPage (headerPage s2)) file'
    ∧ all_rids file' = filter (λ x, x ≠ rid) (all_rids (pre ++ pg :: l))
    ∧ recCnt (headerPage s2) = dec32 (recCnt (headerPage s))
    ∧ curRec s2 = rid
    ∧ trace (bufMgr s2) = trace (bufMgr s1).
Proof.
  intros Hpos Hch _ Hrun.
  rewrite (positioned_scanNext _ _ _ _ _ Hpos) in Hrun.
  pose proof (scanNext_loop_where fuel s pg l out Hpos) as Hw. rewrite Hrun in Hw.
  destruct Hw as (Hsame & mid & pg' & l' & Hsplit & Hp1 & Hrid).
  destruct (Hrid eq_refl) as (Hcur & Hpage & Hlive & Hm).
  pose proof Hsame as (Hpg1 & _ & Hhdr1 & _).
  apply live_slot_at in Hlive as [r Hr].
  assert (Hch1 : chain (pages (bufMgr s1)) (firstPage (headerPage s1))
                       ((pre ++ mid) ++ pg' :: l')).
  { rewrite Hpg1, Hhdr1, <- app_assoc, <- Hsplit. exact Hch. }
  assert (Hlk : pages (bufMgr s) !! pageId pg' = Some pg').
  { destruct Hp1 as (_ & _ & Hc & _). cbn [chain] in Hc. rewrite <- Hpg1. tauto. }
  assert (Hrec : rec_at (pages (bufMgr s)) rid = Some r).
  { unfold rec_at. rewrite Hpage, Hlk. exact Hr. }
  assert (Hgone : mkRID (pageId pg') (slotNo (curRec s1)) = rid).
  { rewrite Hcur. destruct rid as [rp rs]. cbn [pageNo slotNo] in *. congruence. }
  rewrite <- Hcur in Hr.
  destruct (deleteRecord_in_scan s1 (pre ++ mid) pg' l' r Hp1 Hch1 Hr)
    as (s2 & pg2 & Hdel & _ & Hch2 & Hall & _ & Hnone & Hkeep & Hrc & Hcur2 & Htr & _).
  cbv zeta in Hall, Hnone, Hkeep. rewrite Hgone in Hall, Hnone, Hkeep.
  exists r, s2, ((pre ++ mid) ++ pg2 :: l').
  split; [exact Hrec |].
  split.
  { rewrite (matches_same s s1 rid Hsame) in Hm. unfold matches in Hm.
    rewrite Hrec in Hm. exact Hm. }
  split.
  { rewrite Hsplit, app_assoc. apply elem_of_all_rids. exists pg'.
    split; [apply elem_of_app; right; left |]. split; [exact Hpage |].
    rewrite <- Hcur. eauto. }
  split; [exact Hdel |]. split; [exact Hnone |].
  split; [intros x Hx; rewrite (Hkeep x Hx), Hpg1; reflexivity |].
  split; [exact Hch2 |].
  split; [rewrite Hall, <- app_assoc, <- Hsplit; reflexivity |].
  split; [rewrite Hrc, Hhdr1; reflexivity |].
  split; [congruence | exact Htr].
Qed.

(** The records with a value of at least 6 in the file with a deleted slot
    and an empty page: the first [scanNext] returns the record in slot 2
    of page 1, the second, after the delete, the record of page 3. *)
Lemma deleteRecord_after_scanNext_witness :
  let s := snd (startScan 0 4 INTEGER (Some [6; 0; 0; 0]) GTE
                  (snd (HeapFileScan_ctor gap_file))) in
  ∃ s1 s2, scanNext 6 NULLRID s = Val (OK, mkRID 1 2, s1)
           ∧ deleteRecord s1 = Val (OK, s2)
           ∧ rec_at (pages (bufMgr s2)) (mkRID 1 2) = None
           ∧ rec_at (pages (bufMgr s2)) (mkRID 1 0) = Some (int_rec 5)
           ∧ recCnt (headerPage s2) = 2.
Proof.
  intros s. exists (state_of (scanNext 6 NULLRID s) s).
  destruct (deleteRecord_after_scanNext 6 NULLRID s []
              (mkPage 1 2 [Some (int_rec 5); None; Some (int_rec 6)])
              [mkPage 2 3 []; mkPage 3 (-1) [None; Some (int_rec 7)]]
              (mkRID 1 2) (state_of (scanNext 6 NULLRID s) s))
    as (r & s2 & file' & _ & _ & _ & Hdel & Hgone & Hkeep & _ & _ & Hrc & _).
  - vm_compute. intuition (discriminate || lia).
  - vm_compute. intuition discriminate.
  - intros rec. apply startScan_in_bounds. intros _. lia.
  - vm_compute. reflexivity.
  - exists s2. split; [vm_compute; reflexivity |]. split; [exact Hdel |].
    split; [exact Hgone |].
    split; [rewrite (Hkeep (mkRID 1 0)); [reflexivity | discriminate] |].
    rewrite Hrc. reflexivity.
Defined.
